(** * Elyra metadata editor: validation, edits, dirty state and saving

    A shallow embedding of [packages/metadata-common/src/MetadataEditor.tsx].
    The widget is a class with mutable fields that shares objects with the
    list of records it fetched; the embedding keeps a small object store for
    those shared objects, threads the widget's fields through a state monad
    in which a JavaScript [TypeError] is an outcome, and logs the calls made
    to the remote service and to the host. *)

From Stdlib Require Import String Ascii List Bool Lia.
From Stdlib Require Import Floats.SpecFloat.
From stdpp Require Import base option list gmap strings.
Import ListNotations.
Set Warnings "-register-all".
Local Open Scope string_scope.
Local Open Scope list_scope.

(** ** JavaScript values

    Field values arrive as parsed JSON (typed [any] in the source).  Numbers
    are IEEE doubles; strings are sequences of code units. *)

Inductive value : Type :=
| VUndefined
| VNull
| VBool (b : bool)
| VNum (x : spec_float)
| VStr (s : string)
| VArr (elems : list value)
| VObj (props : list (string * value)).

Module Js.

(** ToBoolean. *)
Definition truthy (v : value) : bool :=
  match v with
  | VUndefined | VNull => false
  | VBool b => b
  | VNum (S754_zero _) | VNum S754_nan => false
  | VNum _ => true
  | VStr s => negb (String.eqb s "")
  | VArr _ | VObj _ => true
  end.

(** [a || b] *)
Definition or (a b : value) : value := if truthy a then a else b.

(** [a ?? b] *)
Definition nullish (a b : value) : value :=
  match a with
  | VUndefined | VNull => b
  | _ => a
  end.

(** [v === undefined], [v === null], [v === 'literal'] *)
Definition isUndefined (v : value) : bool :=
  match v with VUndefined => true | _ => false end.

Definition isNull (v : value) : bool :=
  match v with VNull => true | _ => false end.

Definition eqStr (v : value) (lit : string) : bool :=
  match v with VStr s => String.eqb s lit | _ => false end.

(** [Array.isArray(v)], [v.length] and [v[i]] on an array *)
Definition isArray (v : value) : bool :=
  match v with VArr _ => true | _ => false end.

Definition arrayLength (v : value) : nat :=
  match v with VArr l => length l | _ => 0 end.

Definition arrayGet (v : value) (i : nat) : value :=
  match v with VArr l => nth i l VUndefined | _ => VUndefined end.

(** [s.includes(sub)] *)
Fixpoint includes (s sub : string) : bool :=
  String.prefix sub s
  || match s with
     | EmptyString => false
     | String _ s' => includes s' sub
     end.

Fixpoint dropChars (n : nat) (s : string) : string :=
  match n, s with
  | S n', String _ s' => dropChars n' s'
  | _, _ => s
  end.

(** [s.replace(pat, rep)] with a string pattern: the first occurrence only. *)
Fixpoint replace (s pat rep : string) : string :=
  if String.prefix pat s then rep ++ dropChars (String.length pat) s
  else match s with
       | EmptyString => EmptyString
       | String c s' => String c (replace s' pat rep)
       end.

(** [s.toLowerCase()] on the ASCII letters; other code units are kept. *)
Definition lowerAscii (c : ascii) : ascii :=
  let n := nat_of_ascii c in
  if (65 <=? n)%nat && (n <=? 90)%nat then ascii_of_nat (n + 32) else c.

Fixpoint toLowerCase (s : string) : string :=
  match s with
  | EmptyString => EmptyString
  | String c s' => String (lowerAscii c) (toLowerCase s')
  end.

(** SameValueZero, the comparison of [Array.prototype.includes].  Arrays
    and objects compare by reference, and two values parsed from a
    response are never the same object. *)
Definition sameValueZero (a b : value) : bool :=
  match a, b with
  | VUndefined, VUndefined | VNull, VNull => true
  | VBool x, VBool y => Bool.eqb x y
  | VNum S754_nan, VNum S754_nan => true
  | VNum x, VNum y => SFeqb x y
  | VStr s, VStr t => String.eqb s t
  | _, _ => false
  end.

End Js.

(** ** The emptiness rule *)

Definition isValueEmpty (schemaValue : value) : bool :=
  Js.isUndefined schemaValue
  || Js.isNull schemaValue
  || Js.eqStr schemaValue ""
  || (Js.isArray schemaValue && (Js.arrayLength schemaValue =? 0)%nat)
  || (Js.isArray schemaValue
      && (Js.arrayLength schemaValue =? 1)%nat
      && Js.eqStr (Js.arrayGet schemaValue 0) "")
  || Js.eqStr schemaValue "(No selection)".

(** ** Schema

    A schema is the [metadata.properties] object of a schema definition: an
    object whose keys are the field names, iterated with [for ... in] in the
    order given here.  Optional members are [option]s ([None] is JavaScript's
    undefined); members the code only tests or passes on are [value]s. *)

(** Modelled from the spec: the shape of [uihints], declared by the
    metadata schemas and not by the editor (section 3:
    [{ field_type, category?, secure?, placeholder?, default_choices?,
    error? }]). *)
Record UIHints : Type := mkUIHints {
  ui_field_type : value;
  ui_category : option string;
  ui_secure : value;
  ui_placeholder : value;
  ui_default_choices : option (list value);
  ui_error : value
}.

(** The object literal [{}] installed by [renderField]. *)
Definition emptyUIHints : UIHints :=
  mkUIHints VUndefined None VUndefined VUndefined None VUndefined.

Definition set_ui_error (x : value) (u : UIHints) : UIHints :=
  mkUIHints (ui_field_type u) (ui_category u) (ui_secure u)
    (ui_placeholder u) (ui_default_choices u) x.

(** Modelled from the spec: the shape of a field definition (section 3:
    [{ type, title, description, default?, enum?, uihints }]); the editor
    reads [uihints] as possibly undefined. *)
Record FieldDef : Type := mkFieldDef {
  f_title : value;
  f_description : value;
  f_default : value;
  f_enum : option (list value);
  f_uihints : option UIHints
}.

Definition set_f_uihints (x : option UIHints) (fd : FieldDef) : FieldDef :=
  mkFieldDef (f_title fd) (f_description fd) (f_default fd) (f_enum fd) x.

(** [schema[key]] and [schema[key] = fd] on an existing key. *)
Fixpoint schemaGet (sch : list (string * FieldDef)) (key : string)
  : option FieldDef :=
  match sch with
  | [] => None
  | (k, fd) :: rest => if String.eqb k key then Some fd else schemaGet rest key
  end.

Fixpoint schemaSet (sch : list (string * FieldDef)) (key : string)
  (fd' : FieldDef) : list (string * FieldDef) :=
  match sch with
  | [] => []
  | (k, fd) :: rest =>
      if String.eqb k key then (k, fd') :: rest
      else (k, fd) :: schemaSet rest key fd'
  end.

(** ** Remote service

    [MetadataService] belongs to the services package; the editor only
    calls it.  A request either resolves or rejects. *)

(** Modelled from the spec: an element of the answer of [getSchema]
    (section 6: [{ name, title, properties: { metadata: { properties,
    required } } }]), with [required] possibly absent. *)
Record SchemaDef : Type := mkSchemaDef {
  sd_name : string;
  sd_title : string;
  sd_properties : list (string * FieldDef);
  sd_required : option (list string)
}.

(** Modelled from the spec: an element of the answer of [getMetadata]
    (section 6: [{ name, display_name, metadata: map<string, any> }]). *)
Record MetadataDef : Type := mkMetadataDef {
  md_name : string;
  md_display_name : value;
  md_metadata : gmap string value
}.

Inductive response (A : Type) : Type :=
| Resolved (a : A)
| Rejected.
Arguments Resolved {A} a.
Arguments Rejected {A}.

(** Modelled from the spec: the two requests of initialisation, by
    namespace (section 6). *)
Record MetadataService : Type := mkService {
  getSchema : string -> response (list SchemaDef);
  getMetadata : string -> response (list MetadataDef)
}.

(** ** Objects shared by reference

    The records of [allMetadata] and their [metadata] dictionaries are
    objects: [this.metadata] is one of those dictionaries (or the [{}] of a
    new record), and [!==] between objects compares references. *)

Abbreviation loc := nat (only parsing).

Inductive object : Type :=
| ORecord (name : string) (display_name : value) (metadata : loc)
| ODict (d : gmap string value).

(** ** Host collaborators *)

(** [ILabStatus]: the number of outstanding dirty handles, and how many
    handles [setDirty] has handed out (the next handle's identity). *)
Record LabStatus : Type := mkStatus {
  dirtyCount : nat;
  issued : nat
}.

(** The model of the embedded code editor: the lines whose [join('\n')] is
    its initial text, and its mime type. *)
Record CodeEditor : Type := mkCodeEditor {
  ce_lines : list value;
  ce_mimeType : string
}.

(** The object handed to [JSON.stringify] by [saveMetadata]. *)
Record payload : Type := mkPayload {
  p_schema_name : string;
  p_display_name : value;
  p_metadata : gmap string value
}.

(** Calls that leave the widget, oldest first. *)
Inductive event : Type :=
| ServerError
| Update
| PostMetadata (namespace : string) (body : payload)
| PutMetadata (namespace name : string) (body : payload)
| OnSave
| Close.

(** What [renderField] returns. *)
Inductive element : Type :=
| TextInput (label description : value) (fieldName : string)
    (defaultValue : value) (required : option bool)
    (secure error placeholder : value)
| DropDown (label : value) (schemaField : string) (description : value)
    (required : option bool) (error choice : value)
    (defaultChoices : list value) (allowCreate : bool)
| CodeInput (required : option bool) (label : value) (helperText : bool)
| TagsInput (selectedTags : value) (tags : list value)
| NoElement.

(** ** The widget

    The fields of the class, the two members of [this.title] it uses, and
    its surroundings: whether the [code:<id>] node is in the document, the
    host status object, the object store and the log of outgoing calls. *)

Record MetadataEditor : Type := mkEditor {
  editorServices : option (value -> string);
  namespace : string;
  schemaName : string;
  name : option string;
  code : option (list string);
  codeNode : bool;
  displayName : value;
  editor : option CodeEditor;
  schemaDisplayName : option string;
  dirty : option bool;
  allTags : list value;
  clearDirty : option nat;
  requiredFields : option (list string);
  invalidForm : bool;
  schema : list (string * FieldDef);
  schemaPropertiesByCategory : list (string * list string);
  allMetadata : list loc;
  metadata : loc;
  titleLabel : value;
  titleClassName : string;
  status : LabStatus;
  store : list object;
  log : list event
}.

(** Field assignment [this.f = x]. *)

Definition set_displayName (x : value) (w : MetadataEditor) : MetadataEditor :=
  mkEditor (editorServices w) (namespace w) (schemaName w) (name w) (code w)
    (codeNode w) x (editor w) (schemaDisplayName w) (dirty w) (allTags w)
    (clearDirty w) (requiredFields w) (invalidForm w) (schema w)
    (schemaPropertiesByCategory w) (allMetadata w) (metadata w) (titleLabel w)
    (titleClassName w) (status w) (store w) (log w).

Definition set_editor (x : option CodeEditor) (w : MetadataEditor) : MetadataEditor :=
  mkEditor (editorServices w) (namespace w) (schemaName w) (name w) (code w)
    (codeNode w) (displayName w) x (schemaDisplayName w) (dirty w) (allTags w)
    (clearDirty w) (requiredFields w) (invalidForm w) (schema w)
    (schemaPropertiesByCategory w) (allMetadata w) (metadata w) (titleLabel w)
    (titleClassName w) (status w) (store w) (log w).

Definition set_schemaDisplayName (x : option string) (w : MetadataEditor) : MetadataEditor :=
  mkEditor (editorServices w) (namespace w) (schemaName w) (name w) (code w)
    (codeNode w) (displayName w) (editor w) x (dirty w) (allTags w)
    (clearDirty w) (requiredFields w) (invalidForm w) (schema w)
    (schemaPropertiesByCategory w) (allMetadata w) (metadata w) (titleLabel w)
    (titleClassName w) (status w) (store w) (log w).

Definition set_dirty (x : option bool) (w : MetadataEditor) : MetadataEditor :=
  mkEditor (editorServices w) (namespace w) (schemaName w) (name w) (code w)
    (codeNode w) (displayName w) (editor w) (schemaDisplayName w) x (allTags
    w) (clearDirty w) (requiredFields w) (invalidForm w) (schema w)
    (schemaPropertiesByCategory w) (allMetadata w) (metadata w) (titleLabel w)
    (titleClassName w) (status w) (store w) (log w).

Definition set_allTags (x : list value) (w : MetadataEditor) : MetadataEditor :=
  mkEditor (editorServices w) (namespace w) (schemaName w) (name w) (code w)
    (codeNode w) (displayName w) (editor w) (schemaDisplayName w) (dirty w) x
    (clearDirty w) (requiredFields w) (invalidForm w) (schema w)
    (schemaPropertiesByCategory w) (allMetadata w) (metadata w) (titleLabel w)
    (titleClassName w) (status w) (store w) (log w).

Definition set_clearDirty (x : option nat) (w : MetadataEditor) : MetadataEditor :=
  mkEditor (editorServices w) (namespace w) (schemaName w) (name w) (code w)
    (codeNode w) (displayName w) (editor w) (schemaDisplayName w) (dirty w)
    (allTags w) x (requiredFields w) (invalidForm w) (schema w)
    (schemaPropertiesByCategory w) (allMetadata w) (metadata w) (titleLabel w)
    (titleClassName w) (status w) (store w) (log w).

Definition set_requiredFields (x : option (list string)) (w : MetadataEditor) : MetadataEditor :=
  mkEditor (editorServices w) (namespace w) (schemaName w) (name w) (code w)
    (codeNode w) (displayName w) (editor w) (schemaDisplayName w) (dirty w)
    (allTags w) (clearDirty w) x (invalidForm w) (schema w)
    (schemaPropertiesByCategory w) (allMetadata w) (metadata w) (titleLabel w)
    (titleClassName w) (status w) (store w) (log w).

Definition set_invalidForm (x : bool) (w : MetadataEditor) : MetadataEditor :=
  mkEditor (editorServices w) (namespace w) (schemaName w) (name w) (code w)
    (codeNode w) (displayName w) (editor w) (schemaDisplayName w) (dirty w)
    (allTags w) (clearDirty w) (requiredFields w) x (schema w)
    (schemaPropertiesByCategory w) (allMetadata w) (metadata w) (titleLabel w)
    (titleClassName w) (status w) (store w) (log w).

Definition set_schema (x : list (string * FieldDef)) (w : MetadataEditor) : MetadataEditor :=
  mkEditor (editorServices w) (namespace w) (schemaName w) (name w) (code w)
    (codeNode w) (displayName w) (editor w) (schemaDisplayName w) (dirty w)
    (allTags w) (clearDirty w) (requiredFields w) (invalidForm w) x
    (schemaPropertiesByCategory w) (allMetadata w) (metadata w) (titleLabel w)
    (titleClassName w) (status w) (store w) (log w).

Definition set_schemaPropertiesByCategory (x : list (string * list string)) (w : MetadataEditor) : MetadataEditor :=
  mkEditor (editorServices w) (namespace w) (schemaName w) (name w) (code w)
    (codeNode w) (displayName w) (editor w) (schemaDisplayName w) (dirty w)
    (allTags w) (clearDirty w) (requiredFields w) (invalidForm w) (schema w) x
    (allMetadata w) (metadata w) (titleLabel w) (titleClassName w) (status w)
    (store w) (log w).

Definition set_allMetadata (x : list loc) (w : MetadataEditor) : MetadataEditor :=
  mkEditor (editorServices w) (namespace w) (schemaName w) (name w) (code w)
    (codeNode w) (displayName w) (editor w) (schemaDisplayName w) (dirty w)
    (allTags w) (clearDirty w) (requiredFields w) (invalidForm w) (schema w)
    (schemaPropertiesByCategory w) x (metadata w) (titleLabel w)
    (titleClassName w) (status w) (store w) (log w).

Definition set_metadata (x : loc) (w : MetadataEditor) : MetadataEditor :=
  mkEditor (editorServices w) (namespace w) (schemaName w) (name w) (code w)
    (codeNode w) (displayName w) (editor w) (schemaDisplayName w) (dirty w)
    (allTags w) (clearDirty w) (requiredFields w) (invalidForm w) (schema w)
    (schemaPropertiesByCategory w) (allMetadata w) x (titleLabel w)
    (titleClassName w) (status w) (store w) (log w).

Definition set_titleLabel (x : value) (w : MetadataEditor) : MetadataEditor :=
  mkEditor (editorServices w) (namespace w) (schemaName w) (name w) (code w)
    (codeNode w) (displayName w) (editor w) (schemaDisplayName w) (dirty w)
    (allTags w) (clearDirty w) (requiredFields w) (invalidForm w) (schema w)
    (schemaPropertiesByCategory w) (allMetadata w) (metadata w) x
    (titleClassName w) (status w) (store w) (log w).

Definition set_titleClassName (x : string) (w : MetadataEditor) : MetadataEditor :=
  mkEditor (editorServices w) (namespace w) (schemaName w) (name w) (code w)
    (codeNode w) (displayName w) (editor w) (schemaDisplayName w) (dirty w)
    (allTags w) (clearDirty w) (requiredFields w) (invalidForm w) (schema w)
    (schemaPropertiesByCategory w) (allMetadata w) (metadata w) (titleLabel w)
    x (status w) (store w) (log w).

Definition set_status (x : LabStatus) (w : MetadataEditor) : MetadataEditor :=
  mkEditor (editorServices w) (namespace w) (schemaName w) (name w) (code w)
    (codeNode w) (displayName w) (editor w) (schemaDisplayName w) (dirty w)
    (allTags w) (clearDirty w) (requiredFields w) (invalidForm w) (schema w)
    (schemaPropertiesByCategory w) (allMetadata w) (metadata w) (titleLabel w)
    (titleClassName w) x (store w) (log w).

Definition set_store (x : list object) (w : MetadataEditor) : MetadataEditor :=
  mkEditor (editorServices w) (namespace w) (schemaName w) (name w) (code w)
    (codeNode w) (displayName w) (editor w) (schemaDisplayName w) (dirty w)
    (allTags w) (clearDirty w) (requiredFields w) (invalidForm w) (schema w)
    (schemaPropertiesByCategory w) (allMetadata w) (metadata w) (titleLabel w)
    (titleClassName w) (status w) x (log w).

Definition set_log (x : list event) (w : MetadataEditor) : MetadataEditor :=
  mkEditor (editorServices w) (namespace w) (schemaName w) (name w) (code w)
    (codeNode w) (displayName w) (editor w) (schemaDisplayName w) (dirty w)
    (allTags w) (clearDirty w) (requiredFields w) (invalidForm w) (schema w)
    (schemaPropertiesByCategory w) (allMetadata w) (metadata w) (titleLabel w)
    (titleClassName w) (status w) (store w) x.

(** ** Running the methods

    A method is a state transformer over the widget; it either returns or
    throws (a [TypeError] from reading a member of undefined or null, or a
    rejected request inside an [await]).  Assignments made before a throw
    stay made. *)

Inductive outcome (A : Type) : Type :=
| Ok (a : A)
| Throw.
Arguments Ok {A} a.
Arguments Throw {A}.

Definition M (A : Type) : Type := MetadataEditor -> outcome A * MetadataEditor.

Definition ret {A : Type} (a : A) : M A := fun w => (Ok a, w).

Definition bind {A B : Type} (c : M A) (k : A -> M B) : M B :=
  fun w =>
    match c w with
    | (Ok a, w') => k a w'
    | (Throw, w') => (Throw, w')
    end.

Definition throw {A : Type} : M A := fun w => (Throw, w).

Definition get : M MetadataEditor := fun w => (Ok w, w).

Definition modify (f : MetadataEditor -> MetadataEditor) : M unit :=
  fun w => (Ok tt, f w).

Declare Scope js_scope.
Delimit Scope js_scope with js.
Notation "x <- c ;; k" := (bind c (fun x => k))
  (at level 100, c at next level, right associativity) : js_scope.
Notation "c ;;; k" := (bind c (fun _ => k))
  (at level 100, right associativity) : js_scope.
Local Open Scope js_scope.

(** [try { c } catch (error) { handler }] *)
Definition tryCatch (c handler : M unit) : M unit :=
  fun w =>
    match c w with
    | (Ok a, w') => (Ok a, w')
    | (Throw, w') => handler w'
    end.

(** [for (const x of l) { body }] over a list fixed before the loop. *)
Fixpoint forEach {A : Type} (l : list A) (body : A -> M unit) : M unit :=
  match l with
  | [] => ret tt
  | x :: rest => body x ;;; forEach rest body
  end.

Definition emit (e : event) : M unit :=
  modify (fun w => set_log (log w ++ [e]) w).

(** [await request] *)
Definition await {A : Type} (r : response A) : M A :=
  match r with
  | Resolved a => ret a
  | Rejected => throw
  end.

(** *** The object store *)

Definition alloc (o : object) : M loc :=
  fun w => (Ok (length (store w)), set_store (store w ++ [o]) w).

(** Dereferencing.  A reference held by the widget always points to an
    object of the expected kind; elsewhere the model throws. *)
Definition readDict (l : loc) : M (gmap string value) :=
  fun w =>
    match store w !! l with
    | Some (ODict d) => (Ok d, w)
    | _ => (Throw, w)
    end.

Definition readRecord (l : loc) : M (string * value * loc) :=
  fun w =>
    match store w !! l with
    | Some (ORecord n dn m) => (Ok (n, dn, m), w)
    | _ => (Throw, w)
    end.

Definition writeDict (l : loc) (d : gmap string value) : M unit :=
  modify (fun w => set_store (<[l := ODict d]> (store w)) w).

(** [d[key]]: undefined when the dictionary has no such key (keys are
    taken not to be members inherited from [Object.prototype]). *)
Definition dictGet (d : gmap string value) (key : string) : value :=
  default VUndefined (d !! key).

(** [this.schema[key]], on the way to reading one of its members. *)
Definition schemaEntry (key : string) : M FieldDef :=
  w <- get ;;
  match schemaGet (schema w) key with
  | Some fd => ret fd
  | None => throw
  end.

(** [this.requiredFields.includes(key)] *)
Definition requiredIncludes (key : string) : M bool :=
  w <- get ;;
  match requiredFields w with
  | Some r => ret (existsb (String.eqb key) r)
  | None => throw
  end.

(** A string that may be undefined, when truthy: [if (this.name)]. *)
Definition truthyStr (n : option string) : option string :=
  match n with
  | Some s => if String.eqb s "" then None else Some s
  | None => None
  end.

(** ** Construction *)

Record IMetadataEditorProps : Type := mkProps {
  props_schema : string;
  props_namespace : string;
  props_name : option string;
  props_code : option (list string);
  props_editorServices : option (value -> string);
  props_status : LabStatus
}.

(** The constructor up to its call of [initializeMetadata], with the field
    initialisers of the class: [metadata] is a fresh [{}]. *)
Definition construct (props : IMetadataEditorProps) (codeNode : bool)
  : MetadataEditor :=
  {| editorServices := props_editorServices props;
     namespace := props_namespace props;
     schemaName := props_schema props;
     name := props_name props;
     code := props_code props;
     codeNode := codeNode;
     displayName := VUndefined;
     editor := None;
     schemaDisplayName := None;
     dirty := None;
     allTags := [];
     clearDirty := None;
     requiredFields := None;
     invalidForm := false;
     schema := [];
     schemaPropertiesByCategory := [];
     allMetadata := [];
     metadata := 0;
     titleLabel := VStr "";
     titleClassName := "";
     status := props_status props;
     store := [ODict ∅];
     log := [] |}.

(** ** Dirty state *)

Definition DIRTY_CLASS : string := "jp-mod-dirty".

(** [this.status.setDirty()]: one more outstanding handle, returned. *)
Definition setDirty : M nat :=
  w <- get ;;
  let st := status w in
  modify (set_status (mkStatus (S (dirtyCount st)) (S (issued st)))) ;;;
  ret (issued st).

(** [handle.dispose()] *)
Definition dispose (handle : nat) : M unit :=
  modify (fun w =>
    set_status (mkStatus (pred (dirtyCount (status w))) (issued (status w))) w).

Definition handleDirtyState (dirty' : bool) : M unit :=
  modify (set_dirty (Some dirty')) ;;;
  w <- get ;;
  match dirty', clearDirty w with
  | true, None => h <- setDirty ;; modify (set_clearDirty (Some h))
  | false, Some h => dispose h ;;; modify (set_clearDirty None)
  | _, _ => ret tt
  end ;;;
  w <- get ;;
  if dirty' && negb (Js.includes (titleClassName w) DIRTY_CLASS) then
    modify (set_titleClassName (titleClassName w ++ DIRTY_CLASS))
  else if negb dirty' then
    modify (set_titleClassName (Js.replace (titleClassName w) DIRTY_CLASS ""))
  else ret tt.

(** ** Validation *)

(** [this.schema[key].uihints.error = b] *)
Definition setError (key : string) (b : bool) : M unit :=
  fd <- schemaEntry key ;;
  match f_uihints fd with
  | Some u =>
      modify (fun w =>
        set_schema
          (schemaSet (schema w) key
             (set_f_uihints (Some (set_ui_error (VBool b) u)) fd)) w)
  | None => throw
  end.

(** The body of the loop of [hasInvalidFields]. *)
Definition checkField (schemaField : string) : M unit :=
  w <- get ;;
  md <- readDict (metadata w) ;;
  fd <- schemaEntry schemaField ;;
  let value := Js.or (dictGet md schemaField) (f_default fd) in
  required <- requiredIncludes schemaField ;;
  if required && isValueEmpty value then
    modify (set_invalidForm true) ;;;
    setError schemaField true
  else
    setError schemaField false.

Definition hasInvalidFields : M bool :=
  modify (set_invalidForm false) ;;;
  w <- get ;;
  (if Js.isNull (displayName w) || Js.eqStr (displayName w) "" then
     modify (set_invalidForm true)
   else ret tt) ;;;
  forEach (map fst (schema w)) checkField ;;;
  w <- get ;;
  ret (invalidForm w).

(** ** Saving *)

(** [saveMetadata] up to the request it sends.  [newMetadata] is built
    first, from the display name and a reference to [this.metadata], and is
    serialised when the request is made. *)
Definition saveMetadata : M unit :=
  w <- get ;;
  let display_name := displayName w in
  let metadataRef := metadata w in
  invalid <- hasInvalidFields ;;
  if invalid then emit Update
  else
    md <- readDict metadataRef ;;
    let newMetadata := mkPayload (schemaName w) display_name md in
    match truthyStr (name w) with
    | None => emit (PostMetadata (namespace w) newMetadata)
    | Some n => emit (PutMetadata (namespace w) n newMetadata)
    end.

(** The [then] and [catch] callbacks of either request. *)
Definition saveResolved : M unit :=
  handleDirtyState false ;;;
  emit OnSave ;;;
  emit Close.

Definition saveRejected : M unit := emit ServerError.

(** ** Edits *)

(** [value] is [event.nativeEvent.target.value]. *)
Definition handleTextInputChange (value : value) (schemaField : string)
  : M unit :=
  handleDirtyState true ;;;
  if String.eqb schemaField "display_name" then
    modify (set_displayName value)
  else
    remove <- (if negb (Js.truthy value) then
                 required <- requiredIncludes schemaField ;;
                 ret (negb required)
               else ret false) ;;
    w <- get ;;
    md <- readDict (metadata w) ;;
    if remove then writeDict (metadata w) (delete schemaField md)
    else writeDict (metadata w) (<[schemaField := value]> md).

Definition handleDropdownChange (schemaField : string) (value : string)
  : M unit :=
  handleDirtyState true ;;;
  w <- get ;;
  md <- readDict (metadata w) ;;
  writeDict (metadata w) (<[schemaField := VStr value]> md) ;;;
  (if String.eqb schemaField "language" then
     match editorServices w, editor w with
     | Some getMimeTypeByLanguage, Some ed =>
         modify (set_editor
           (Some (mkCodeEditor (ce_lines ed)
                    (getMimeTypeByLanguage (VStr value)))))
     | _, _ => throw
     end
   else ret tt) ;;;
  emit Update.

Definition handleChangeOnTag (selectedTags allTags' : list value) : M unit :=
  handleDirtyState true ;;;
  w <- get ;;
  md <- readDict (metadata w) ;;
  writeDict (metadata w) (<["tags" := VArr selectedTags]> md) ;;;
  modify (set_allTags allTags').

(** ** The code editor *)

(** [v.join('\n')], kept as the lines joined; only an array has [join]. *)
Definition joinLines (v : value) : M (list value) :=
  match v with
  | VArr lines => ret lines
  | _ => throw
  end.

Definition onInitializedMetadata : M unit :=
  w <- get ;;
  match editor w with
  | None =>
      if codeNode w then
        match editorServices w with
        | None => throw
        | Some getMimeTypeByLanguage =>
            initialCodeValue <-
              match truthyStr (name w), code w with
              | Some _, _ =>
                  md <- readDict (metadata w) ;;
                  joinLines (dictGet md "code")
              | None, Some c =>
                  md <- readDict (metadata w) ;;
                  writeDict (metadata w) (<["code" := VArr (map VStr c)]> md) ;;;
                  ret (map VStr c)
              | None, None => ret []
              end ;;
            md <- readDict (metadata w) ;;
            modify (set_editor
              (Some (mkCodeEditor initialCodeValue
                       (getMimeTypeByLanguage (dictGet md "language")))))
        end
      else ret tt
  | Some _ => ret tt
  end.

(** ** Dropdown choices *)

Definition toLowerCaseOf (v : value) : M string :=
  match v with
  | VStr s => ret (Js.toLowerCase s)
  | _ => throw
  end.

(** [find(defaultChoices, choice => choice.toLowerCase() ===
    other.toLowerCase())] of @lumino/algorithm: the first choice that
    satisfies the test, or undefined. *)
Fixpoint findChoice (defaultChoices : list value) (other : value) : M value :=
  match defaultChoices with
  | [] => ret VUndefined
  | choice :: rest =>
      a <- toLowerCaseOf choice ;;
      b <- toLowerCaseOf other ;;
      if String.eqb a b then ret choice else findChoice rest other
  end.

(** One turn of the loop of [getDefaultChoices]. *)
Definition addChoice (fieldName : string) (defaultChoices : list value)
  (otherMetadata : loc) : M (list value) :=
  w <- get ;;
  if negb (Nat.eqb otherMetadata (metadata w)) then
    r <- readRecord otherMetadata ;;
    md <- readDict (snd r) ;;
    let other := dictGet md fieldName in
    if Js.truthy other then
      found <- findChoice defaultChoices other ;;
      if negb (Js.truthy found) then ret (defaultChoices ++ [other])
      else ret defaultChoices
    else ret defaultChoices
  else ret defaultChoices.

Fixpoint collectChoices (fieldName : string) (others : list loc)
  (defaultChoices : list value) : M (list value) :=
  match others with
  | [] => ret defaultChoices
  | otherMetadata :: rest =>
      defaultChoices' <- addChoice fieldName defaultChoices otherMetadata ;;
      collectChoices fieldName rest defaultChoices'
  end.

Definition getDefaultChoices (fieldName : string) : M (list value) :=
  fd <- schemaEntry fieldName ;;
  match f_enum fd with
  | Some choices => ret choices
  | None =>
      match f_uihints fd with
      | None => throw
      | Some u =>
          w <- get ;;
          collectChoices fieldName (allMetadata w)
            (default [] (ui_default_choices u))
      end
  end.

(** ** Rendering a field *)

Definition renderField (fieldName : string) : M element :=
  fd <- schemaEntry fieldName ;;
  w <- get ;;
  let required :=
    match requiredFields w with
    | Some r => Some (existsb (String.eqb fieldName) r)
    | None => None
    end in
  let defaultValue := Js.or (f_default fd) (VStr "") in
  uihints <-
    match f_uihints fd with
    | Some u => ret u
    | None =>
        modify (set_schema
          (schemaSet (schema w) fieldName
             (set_f_uihints (Some emptyUIHints) fd))) ;;;
        ret emptyUIHints
    end ;;
  let field_type := ui_field_type uihints in
  if Js.eqStr field_type "textinput" || Js.isUndefined field_type then
    md <- readDict (metadata w) ;;
    ret (TextInput (f_title fd) (f_description fd) fieldName
           (Js.or (dictGet md fieldName) defaultValue) required
           (ui_secure uihints) (ui_error uihints) (ui_placeholder uihints))
  else if Js.eqStr field_type "dropdown" then
    md <- readDict (metadata w) ;;
    defaultChoices <- getDefaultChoices fieldName ;;
    ret (DropDown (f_title fd) fieldName (f_description fd) required
           (ui_error uihints) (dictGet md fieldName) defaultChoices
           (negb (bool_decide (is_Some (f_enum fd)))))
  else if Js.eqStr field_type "code" then
    ret (CodeInput required (f_title fd) (Js.truthy (ui_error uihints)))
  else if Js.eqStr field_type "tags" then
    md <- readDict (metadata w) ;;
    ret (TagsInput (dictGet md "tags") (allTags w))
  else ret NoElement.

(** ** Initialisation *)

(** [schemaPropertiesByCategory], keys in insertion order.  Category names
    are taken not to be members inherited from [Object.prototype]. *)
Fixpoint categoryGet (cats : list (string * list string)) (key : string)
  : option (list string) :=
  match cats with
  | [] => None
  | (k, l) :: rest => if String.eqb k key then Some l else categoryGet rest key
  end.

(** [cats[key].push(x)] on an existing key. *)
Fixpoint categoryPush (cats : list (string * list string)) (key x : string)
  : list (string * list string) :=
  match cats with
  | [] => []
  | (k, l) :: rest =>
      if String.eqb k key then (k, l ++ [x]) :: rest
      else (k, l) :: categoryPush rest key x
  end.

(** The body of the loop over the properties of the schema. *)
Definition categorize (schemaProperty : string) : M unit :=
  fd <- schemaEntry schemaProperty ;;
  let category :=
    match f_uihints fd with
    | Some u => ui_category u
    | None => None
    end in
  w <- get ;;
  let cats := schemaPropertiesByCategory w in
  match truthyStr category with
  | None =>
      match categoryGet cats "_noCategory" with
      | Some _ =>
          modify (set_schemaPropertiesByCategory
                    (categoryPush cats "_noCategory" schemaProperty))
      | None => throw
      end
  | Some c =>
      match categoryGet cats c with
      | Some _ =>
          modify (set_schemaPropertiesByCategory
                    (categoryPush cats c schemaProperty))
      | None =>
          modify (set_schemaPropertiesByCategory
                    (cats ++ [(c, [schemaProperty])]))
      end
  end.

(** The loop over the schemas of the namespace, left at the first match. *)
Fixpoint selectSchema (schemas : list SchemaDef) : M unit :=
  match schemas with
  | [] => ret tt
  | schema :: rest =>
      w <- get ;;
      if String.eqb (schemaName w) (sd_name schema) then
        modify (set_schema (sd_properties schema)) ;;;
        modify (set_schemaDisplayName (Some (sd_title schema))) ;;;
        modify (set_requiredFields (sd_required schema)) ;;;
        match truthyStr (name w) with
        | None => modify (set_titleLabel (VStr ("New " ++ sd_title schema)))
        | Some _ => ret tt
        end ;;;
        modify (set_schemaPropertiesByCategory [("_noCategory", [])]) ;;;
        forEach (map fst (sd_properties schema)) categorize
      else selectSchema rest
  end.

(** The records of a response become objects, each with its own
    [metadata] dictionary. *)
Definition allocRecord (r : MetadataDef) : M loc :=
  m <- alloc (ODict (md_metadata r)) ;;
  alloc (ORecord (md_name r) (md_display_name r) m).

Fixpoint allocRecords (rs : list MetadataDef) : M (list loc) :=
  match rs with
  | [] => ret []
  | r :: rest =>
      l <- allocRecord r ;;
      ls <- allocRecords rest ;;
      ret (l :: ls)
  end.

(** [for (const x of v)]: an array yields its elements, a string its
    characters, and nothing else that is truthy in JSON is iterable. *)
Definition forOf (v : value) (body : value -> M unit) : M unit :=
  match v with
  | VArr l => forEach l body
  | VStr s =>
      forEach (map (fun c => VStr (String c EmptyString))
                 (list_ascii_of_string s)) body
  | _ => throw
  end.

Definition addTag (tag : value) : M unit :=
  w <- get ;;
  if negb (existsb (Js.sameValueZero tag) (allTags w)) then
    modify (set_allTags (allTags w ++ [tag]))
  else ret tt.

(** The body of the loop over [allMetadata]. *)
Definition seedFrom (metadata : loc) : M unit :=
  r <- readRecord metadata ;;
  let '(name', display_name, m) := r in
  md <- readDict m ;;
  (if Js.truthy (dictGet md "tags") then forOf (dictGet md "tags") addTag
   else writeDict m (<["tags" := VArr []]> md)) ;;;
  w <- get ;;
  if bool_decide (name w = Some name') then
    modify (set_metadata m) ;;;
    modify (set_displayName display_name) ;;;
    modify (set_titleLabel display_name)
  else ret tt.

(** [initializeMetadata], run to its end against the answers of the
    service. *)
Definition initializeMetadata (service : MetadataService) : M unit :=
  tryCatch
    (w <- get ;;
     schemas <- await (getSchema service (namespace w)) ;;
     selectSchema schemas)
    (emit ServerError) ;;;
  tryCatch
    (w <- get ;;
     records <- await (getMetadata service (namespace w)) ;;
     ls <- allocRecords records ;;
     modify (set_allMetadata ls))
    (emit ServerError) ;;;
  w <- get ;;
  match truthyStr (name w) with
  | Some _ => forEach (allMetadata w) seedFrom
  | None => modify (set_displayName (VStr ""))
  end ;;;
  onInitializedMetadata ;;;
  emit Update.

(** ** Vocabulary of the properties *)

(** The two states of the tracker, read off the flag, the handle held on
    the host's indicator and the title class: [Some true] is Dirty,
    [Some false] is Clean.  The class never initialises [dirty] and only
    ever tests it ([if (this.dirty)], [this.dirty && ...],
    [!this.dirty && ...]): an editor whose flag is still undefined is Clean
    like one whose flag is false. *)
Definition trackerState (w : MetadataEditor) : option bool :=
  match dirty w, clearDirty w,
        Js.includes (titleClassName w) DIRTY_CLASS with
  | Some true, Some _, true => Some true
  | Some false, None, false | None, None, false => Some false
  | _, _, _ => None
  end.

(** [handleDirtyState] returns, and touches only the tracker. *)
Definition trackerFrame (w w' : MetadataEditor) : Prop :=
  w' = set_titleClassName (titleClassName w')
         (set_clearDirty (clearDirty w')
            (set_status (status w') (set_dirty (dirty w') w))).

(** Validation assigns [invalidForm] and the schema, nothing else. *)
Definition validationFrame (w w' : MetadataEditor) : Prop :=
  w' = set_invalidForm (invalidForm w') (set_schema (schema w') w).

(** What a save that got through validation does next. *)
Definition saveEvent (w : MetadataEditor) (invalid : bool)
  (md : gmap string value) : event :=
  let newMetadata := mkPayload (schemaName w) (displayName w) md in
  if invalid then Update
  else match truthyStr (name w) with
       | None => PostMetadata (namespace w) newMetadata
       | Some n => PutMetadata (namespace w) n newMetadata
       end.

(** [this.schema[f].uihints.error], read. *)
Definition errorFlag (w : MetadataEditor) (f : string) : value :=
  match schemaGet (schema w) f with
  | Some fd =>
      match f_uihints fd with
      | Some u => ui_error u
      | None => VUndefined
      end
  | None => VUndefined
  end.

(** A field definition after [uihints.error = b]. *)
Definition flagged (b : bool) (fd : FieldDef) : FieldDef :=
  set_f_uihints (set_ui_error (VBool b) <$> f_uihints fd) fd.

(** The test made on a field: required, and empty once a falsy stored
    value has given way to the schema default. *)
Definition fieldFlag (r : list string) (md : gmap string value) (f : string)
  (fd : FieldDef) : bool :=
  existsb (String.eqb f) r
  && isValueEmpty (Js.or (dictGet md f) (f_default fd)).

(** The flag validation computes for key [k] against schema [sch]. *)
Definition keyFlag (r : list string) (md : gmap string value)
  (sch : list (string * FieldDef)) (k : string) : bool :=
  match schemaGet sch k with
  | Some fd => fieldFlag r md k fd
  | None => false
  end.

(** The reading of the spec: the stored value gives way to the schema
    default only when it is undefined or null. *)
Definition validatesWithNullish (w : MetadataEditor) : Prop :=
  forall r md,
    requiredFields w = Some r ->
    store w !! metadata w = Some (ODict md) ->
    exists invalid w',
      hasInvalidFields w = (Ok invalid, w') /\
      forall f fd, schemaGet (schema w) f = Some fd ->
        let value := Js.nullish (dictGet md f) (f_default fd) in
        if existsb (String.eqb f) r && isValueEmpty value
        then errorFlag w' f = VBool true /\ invalid = true
        else errorFlag w' f = VBool false.

(** The tags of a record's dictionary, when it holds an array of them. *)
Definition tagsOf (md : gmap string value) : list value :=
  match dictGet md "tags" with
  | VArr tags => tags
  | _ => []
  end.

(** The strings among a list of values. *)
Definition strings (l : list value) : list string :=
  omap (fun v => match v with VStr s => Some s | _ => None end) l.

(** The pool after the tags of one record have gone through [addTag]. *)
Definition addTags (pool tags : list value) : list value :=
  fold_left
    (fun pool tag =>
       if existsb (Js.sameValueZero tag) pool then pool else pool ++ [tag])
    tags pool.

(** A record's dictionary once the loop of [initializeMetadata] has seen
    it: falsy [tags] have become the empty array. *)
Definition seeded (md : gmap string value) : gmap string value :=
  if Js.truthy (dictGet md "tags") then md else <["tags" := VArr []]> md.

(** The loop can iterate the [tags] of the dictionary: they are falsy (and
    skipped) or an array. *)
Definition tagsIterable (md : gmap string value) : Prop :=
  Js.truthy (dictGet md "tags") = true -> exists tags, dictGet md "tags" = VArr tags.

(** The objects [allocRecords] appends for [records] when the store has
    [base] objects, with [f] applied to each dictionary, and the
    references it returns. *)
Fixpoint layout (f : gmap string value -> gmap string value) (base : nat)
  (records : list MetadataDef) : list object :=
  match records with
  | [] => []
  | r :: rest =>
      ODict (f (md_metadata r))
      :: ORecord (md_name r) (md_display_name r) base
      :: layout f (S (S base)) rest
  end.

Fixpoint locsOf (base : nat) (records : list MetadataDef) : list loc :=
  match records with
  | [] => []
  | _ :: rest => S base :: locsOf (S (S base)) rest
  end.

(** What the spec says of the records and of the tag pool once
    initialisation is over: every fetched record is held with a [tags]
    member, the empty array if it had none; the pool holds the string tags
    of the records and no others, each once. *)
Definition tagsSeeded (records : list MetadataDef) (w : MetadataEditor)
  : Prop :=
  (forall i r, records !! i = Some r ->
     exists l m,
       allMetadata w !! i = Some l /\
       store w !! l = Some (ORecord (md_name r) (md_display_name r) m) /\
       store w !! m = Some (ODict (seeded (md_metadata r)))) /\
  (forall s, s ∈ strings (allTags w) <->
     exists r, r ∈ records /\ s ∈ strings (tagsOf (md_metadata r))) /\
  NoDup (strings (allTags w)).

(** The loop over the records assigns the store, the pool, and what it
    takes from the record under edit; nothing else. *)
Definition seedFrame (w w' : MetadataEditor) : Prop :=
  w' = set_store (store w')
         (set_allTags (allTags w')
            (set_titleLabel (titleLabel w')
               (set_displayName (displayName w')
                  (set_metadata (metadata w') w)))).

(** Loading the schema leaves the records, the pool and the identity of
    the editor alone. *)
Definition keepsRecords (w w' : MetadataEditor) : Prop :=
  store w' = store w /\ allTags w' = allTags w /\
  allMetadata w' = allMetadata w /\ metadata w' = metadata w /\
  name w' = name w /\ namespace w' = namespace w.

(** The references the widget holds are of the kinds the code takes them
    for: [this.metadata] is a dictionary, each member of [allMetadata] a
    record whose [metadata] is a dictionary. *)
Definition refsOk (w : MetadataEditor) : Prop :=
  (exists md, store w !! metadata w = Some (ODict md)) /\
  forall l, l ∈ allMetadata w ->
    exists n dn m md,
      store w !! l = Some (ORecord n dn m) /\
      store w !! m = Some (ODict md).

(** A method keeps the references well-kinded, however it ends. *)
Definition preservesRefs {A : Type} (c : M A) : Prop :=
  forall w o w', c w = (o, w') -> refsOk w -> refsOk w'.

(** ** Sessions used as test inputs *)

Module Example.

Definition hints (field_type : string) (choices : option (list value))
  : UIHints :=
  mkUIHints (VStr field_type) None VUndefined VUndefined choices VUndefined.

Definition field (title : string) (default : value) (u : option UIHints)
  : FieldDef :=
  mkFieldDef (VStr title) VUndefined default None u.

(** A runtime schema: a required endpoint with a default, an optional
    user name and an optional engine chosen from a dropdown. *)
Definition runtimeSchema : SchemaDef :=
  mkSchemaDef "kfp" "Kubeflow Pipelines"
    [("api_endpoint",
      field "API Endpoint" (VStr "http://localhost:8888")
        (Some (hints "textinput" None)));
     ("user", field "User" VUndefined (Some (hints "textinput" None)));
     ("engine",
      field "Engine" VUndefined
        (Some (hints "dropdown" (Some [VStr "Argo"; VStr "Tekton"]))))]
    (Some ["api_endpoint"]).

(** A snippet schema: a free-text dropdown with one default choice. *)
Definition snippetSchema : SchemaDef :=
  mkSchemaDef "code-snippet" "Code Snippet"
    [("description", field "Description" VUndefined None);
     ("language",
      field "Language" VUndefined
        (Some (hints "dropdown" (Some [VStr "x"]))));
     ("tags", field "Tags" VUndefined (Some (hints "tags" None)))]
    (Some ["language"]).

(** The runtime schema without a [required] list. *)
Definition looseSchema : SchemaDef :=
  mkSchemaDef "kfp" "Kubeflow Pipelines" (sd_properties runtimeSchema) None.

Definition snippets : list MetadataDef :=
  [mkMetadataDef "one" (VStr "One") {["language" := VStr "X"]};
   mkMetadataDef "two" (VStr "Two")
     (<["language" := VStr "y"]> {["tags" := VArr [VStr "a"; VStr "b"]]});
   mkMetadataDef "three" (VStr "Three")
     (<["language" := VStr "Python"]>
        {["tags" := VArr [VStr "b"; VStr "c"]]})].

Definition service (schemas : list SchemaDef) (records : list MetadataDef)
  : MetadataService :=
  mkService (fun _ => Resolved schemas) (fun _ => Resolved records).

Definition props (schema namespace : string) (name : option string)
  : IMetadataEditorProps :=
  mkProps schema namespace name None None (mkStatus 0 0).

(** An editor opened on [props] once [initializeMetadata] has run. *)
Definition opened (s : MetadataService) (p : IMetadataEditorProps)
  : MetadataEditor :=
  snd (initializeMetadata s (construct p false)).

Definition after {A : Type} (c : M A) (w : MetadataEditor)
  : MetadataEditor :=
  snd (c w).

(** A new runtime: the name is typed, the endpoint is typed over and
    then cleared. *)
Definition newRuntime : MetadataEditor :=
  after (handleTextInputChange (VStr "") "api_endpoint")
    (after (handleTextInputChange (VStr "h") "api_endpoint")
       (after (handleTextInputChange (VStr "dev") "display_name")
          (opened (service [runtimeSchema] [])
             (props "kfp" "runtimes" None)))).

(** The snippet "three", opened for editing; and a new snippet. *)
Definition editThree : MetadataEditor :=
  opened (service [snippetSchema] snippets)
    (props "code-snippet" "code-snippets" (Some "three")).

Definition newSnippet : MetadataEditor :=
  opened (service [snippetSchema] snippets)
    (props "code-snippet" "code-snippets" None).

(** The snippet "three" once its fields have been rendered. *)
Definition renderedThree : MetadataEditor :=
  after (renderField "tags")
    (after (renderField "language")
       (after (renderField "description") editThree)).

(** A new runtime against the schema without [required], named. *)
Definition looseRuntime : MetadataEditor :=
  after (handleTextInputChange (VStr "dev") "display_name")
    (opened (service [looseSchema] []) (props "kfp" "runtimes" None)).

(** The new runtime with a user typed in; with its engine left at the
    dropdown's sentinel; and once its save has been acknowledged. *)
Definition userRuntime : MetadataEditor :=
  after (handleTextInputChange (VStr "bob") "user") newRuntime.


Definition savedRuntime : MetadataEditor :=
  after saveResolved (after saveMetadata newRuntime).

End Example.

(** ** Vocabulary of the further properties *)

(** A field definition with its error flag put aside. *)
Definition unflagged (fd : FieldDef) : FieldDef :=
  set_f_uihints (set_ui_error VUndefined <$> f_uihints fd) fd.

(** Two states that differ in [invalidForm] and in error flags at most:
    same fields in the same order, each the same up to its flag. *)
Definition onlyFlags (w w' : MetadataEditor) : Prop :=
  validationFrame w w' /\
  map fst (schema w') = map fst (schema w) /\
  forall f,
    unflagged <$> schemaGet (schema w') f = unflagged <$> schemaGet (schema w) f.

(** The lower-cased strings among a list of choices. *)
Definition lowers (l : list value) : list string :=
  map Js.toLowerCase (strings l).

(** The value record [l] of the store holds for field [f]. *)
Definition recordValue (w : MetadataEditor) (l : loc) (f : string)
  (x : value) : Prop :=
  exists n dn m md,
    store w !! l = Some (ORecord n dn m) /\
    store w !! m = Some (ODict md) /\
    dictGet md f = x.

(** [Js.toLowerCase] lowers the ASCII letters and keeps every other code
    unit, where JavaScript lowers letters outside ASCII too.  The two agree
    on strings of ASCII code units, and the properties that speak of case
    are stated for such strings. *)
Definition isAscii (s : string) : bool :=
  forallb (fun c => (nat_of_ascii c <? 128)%nat) (list_ascii_of_string s).

(** The strings [getDefaultChoices] compares for field [f] are ASCII:
    those among [defaults] and those the records of [allMetadata] hold for
    [f]. *)
Definition asciiChoices (w : MetadataEditor) (f : string)
  (defaults : list value) : Prop :=
  Forall (fun s => isAscii s = true) (strings defaults) /\
  forall l s,
    In l (allMetadata w) -> recordValue w l f (VStr s) -> isAscii s = true.

(** A method relates the state it starts from to the state it leaves by
    [R], however it ends. *)
Definition keeps {A : Type} (R : MetadataEditor -> MetadataEditor -> Prop)
  (c : M A) : Prop :=
  forall w o w', c w = (o, w') -> R w w'.

(** The bucket a schema property goes to: its category when it has a
    truthy one, the bucket of the uncategorised otherwise. *)
Definition bucketOf (sch : list (string * FieldDef)) (p : string) : string :=
  match schemaGet sch p with
  | Some fd =>
      match truthyStr (match f_uihints fd with
                       | Some u => ui_category u
                       | None => None
                       end) with
      | Some c => c
      | None => "_noCategory"
      end
  | None => "_noCategory"
  end.

(** The properties among [names] that go to bucket [k], in their order. *)
Definition bucket (sch : list (string * FieldDef)) (names : list string)
  (k : string) : list string :=
  List.filter (fun p => String.eqb (bucketOf sch p) k) names.

(** The category index over the properties [names] of schema [sch]: its
    keys are distinct, the bucket of the uncategorised is there, a category
    is there when one of the properties has it, and each bucket lists its
    properties in the order of [names]. *)
Definition categoryIndex (sch : list (string * FieldDef))
  (names : list string) (cats : list (string * list string)) : Prop :=
  NoDup (map fst cats) /\
  forall k,
    categoryGet cats k =
    if String.eqb k "_noCategory"
       || existsb (fun p => String.eqb (bucketOf sch p) k) names
    then Some (bucket sch names k)
    else None.

(** What the part of initialisation that follows the schema leaves alone. *)
Definition keepsSchema (w w' : MetadataEditor) : Prop :=
  schema w' = schema w /\ requiredFields w' = requiredFields w /\
  schemaDisplayName w' = schemaDisplayName w /\
  schemaPropertiesByCategory w' = schemaPropertiesByCategory w /\
  name w' = name w /\ namespace w' = namespace w /\
  schemaName w' = schemaName w /\ codeNode w' = codeNode w /\
  editorServices w' = editorServices w /\ code w' = code w /\
  dirty w' = dirty w /\ clearDirty w' = clearDirty w /\
  titleClassName w' = titleClassName w /\ status w' = status w.

(** The parts of [initializeMetadata], in the order it runs them. *)
Definition initSchema (service : MetadataService) : M unit :=
  tryCatch
    (w <- get ;;
     schemas <- await (getSchema service (namespace w)) ;;
     selectSchema schemas)
    (emit ServerError).

Definition initRecords (service : MetadataService) : M unit :=
  tryCatch
    (w <- get ;;
     records <- await (getMetadata service (namespace w)) ;;
     ls <- allocRecords records ;;
     modify (set_allMetadata ls))
    (emit ServerError).

Definition initSeed : M unit :=
  w <- get ;;
  match truthyStr (name w) with
  | Some _ => forEach (allMetadata w) seedFrom
  | None => modify (set_displayName (VStr ""))
  end.

(** ** Closing the editor *)

(** What [onCloseRequest] calls: the dialog, with its title and the display
    name its body quotes, [this.dispose()] of the widget and
    [super.onCloseRequest(msg)]. *)
Inductive closeCall : Type :=
| ShowDialog (title : string) (displayName : value)
| DisposeWidget
| SuperOnCloseRequest.

(** [onCloseRequest(msg)], run to the end of the [then] callback of the
    dialog; [accept] is the [response.button.accept] the dialog resolves
    with when it is shown. *)
Definition onCloseRequest (accept : bool) (w : MetadataEditor)
  : list closeCall :=
  match dirty w with
  | Some true =>
      ShowDialog "Close without saving?" (displayName w)
      :: (if accept then [DisposeWidget; SuperOnCloseRequest] else [])
  | _ => [DisposeWidget; SuperOnCloseRequest]
  end.

(** ** The code editor's change signal *)





(** ** Rendering the form *)

(** [this.darkMode], read through its getter: [this._darkMode ?? false]. *)
Definition darkMode (_darkMode : option bool) : bool :=
  default false _darkMode.

(** The header: [Edit "${this.displayName}"], or
    [Add new ${this.schemaDisplayName}] for a new record. *)
Inductive headerText : Type :=
| EditHeader (displayName : value)
| AddHeader (schemaDisplayName : option string).

(** The members of [inputElements]: the heading of a category, or what
    [renderField] returned. *)
Inductive formItem : Type :=
| Heading (category : string)
| Input (e : element).

(** What [render] returns: the theme, the header, the input of the display
    name when there is one, and [inputElements]. *)
Record form : Type := mkForm {
  form_dark : bool;
  form_header : headerText;
  form_name : option element;
  form_inputs : list formItem
}.

(** The inner loop of [render], over the properties of one category. *)
Fixpoint renderProperties (inputElements : list formItem)
  (properties : list string) : M (list formItem) :=
  match properties with
  | [] => ret inputElements
  | schemaProperty :: rest =>
      e <- renderField schemaProperty ;;
      renderProperties (inputElements ++ [Input e]) rest
  end.

(** The outer loop of [render], over the categories in insertion order. *)
Fixpoint renderCategories (inputElements : list formItem)
  (cats : list (string * list string)) : M (list formItem) :=
  match cats with
  | [] => ret inputElements
  | (category, properties) :: rest =>
      inputElements' <-
        renderProperties
          (if negb (String.eqb category "_noCategory")
           then inputElements ++ [Heading category]
           else inputElements)
          properties ;;
      renderCategories inputElements' rest
  end.

(** [render()], given the [_darkMode] of the widget. *)
Definition render (_darkMode : option bool) : M form :=
  w <- get ;;
  inputElements <- renderCategories [] (schemaPropertiesByCategory w) ;;
  w <- get ;;
  let header :=
    match truthyStr (name w) with
    | Some _ => EditHeader (displayName w)
    | None => AddHeader (schemaDisplayName w)
    end in
  let error := Js.eqStr (displayName w) "" && invalidForm w in
  ret (mkForm (darkMode _darkMode) header
         (if negb (Js.isUndefined (displayName w))
          then Some (TextInput (VStr "Name") (VStr "") "display_name"
                       (displayName w) (Some true) (VBool false)
                       (VBool error) VUndefined)
          else None)
         inputElements).

(** The inputs among the items of a form. *)
Definition isInput (i : formItem) : bool :=
  match i with
  | Input _ => true
  | Heading _ => false
  end.

(** What rendering leaves alone: everything but the schema, which keeps
    its fields in their order, and a field that had [uihints] keeps its
    definition. *)
Definition renderFrame (w w' : MetadataEditor) : Prop :=
  w' = set_schema (schema w') w /\
  map fst (schema w') = map fst (schema w) /\
  forall f fd,
    schemaGet (schema w) f = Some fd -> is_Some (f_uihints fd) ->
    schemaGet (schema w') f = Some fd.
(** * Properties *)

(** ** Running the methods *)

Ltac js_unfold :=
  unfold bind, get, modify, ret, throw, emit, await, tryCatch in *.

Lemma bind_ok {A B : Type} (c : M A) (k : A -> M B) w a w' :
  c w = (Ok a, w') -> bind c k w = k a w'.
Proof. intros H. unfold bind. now rewrite H. Qed.

Lemma bind_inv_ok {A B : Type} (c : M A) (k : A -> M B) w b w' :
  bind c k w = (Ok b, w') ->
  exists a w1, c w = (Ok a, w1) /\ k a w1 = (Ok b, w').
Proof.
  unfold bind. destruct (c w) as [[a|] w1]; [eauto | discriminate].
Qed.


Lemma writeDict_lookup l d d' w :
  store w !! l = Some (ODict d) ->
  exists w', writeDict l d' w = (Ok tt, w') /\
    w' = set_store (<[l := ODict d']> (store w)) w /\
    store w' !! l = Some (ODict d') /\
    (forall l', l' <> l -> store w' !! l' = store w !! l').
Proof.
  intros H. eexists. split; [reflexivity|]. split; [reflexivity|]. cbn. split.
  - apply list_lookup_insert_eq. eapply lookup_lt_Some; eauto.
  - intros l' Hne. now apply list_lookup_insert_ne.
Qed.

(** A loop keeps every reflexive and transitive relation between states
    that each turn of its body keeps, whether it ends or throws. *)
Lemma forEach_preserves {A : Type} (R : MetadataEditor -> MetadataEditor -> Prop)
  (body : A -> M unit) :
  (forall w, R w w) ->
  (forall w1 w2 w3, R w1 w2 -> R w2 w3 -> R w1 w3) ->
  (forall x w r w', body x w = (r, w') -> R w w') ->
  forall l w r w', forEach l body w = (r, w') -> R w w'.
Proof.
  intros Hrefl Htrans Hbody. induction l as [|x l IH]; cbn; intros w r w' H.
  - injection H as _ <-. apply Hrefl.
  - unfold bind in H. destruct (body x w) as [[[]|] w1] eqn:Hx.
    + eapply Htrans; [eapply Hbody; eauto | eapply IH; eauto].
    + injection H as _ <-. eapply Hbody; eauto.
Qed.

(** ** The emptiness rule *)

(** C1. [isValueEmpty] holds exactly for undefined, null, the empty string,
    the empty array, the one-element array holding the empty string, and the
    string "(No selection)". *)
Theorem isValueEmpty_iff (v : value) :
  isValueEmpty v = true <->
  v = VUndefined \/ v = VNull \/ v = VStr "" \/ v = VArr [] \/
  v = VArr [VStr ""] \/ v = VStr "(No selection)".
Proof.
  unfold isValueEmpty. split.
  - destruct v as [| | b | x | s | l | o]; cbn; try discriminate; auto.
    + destruct (String.eqb_spec s "") as [->|_]; [auto 6|].
      destruct (String.eqb_spec s "(No selection)") as [->|_]; [auto 7|].
      discriminate.
    + destruct l as [|e [|e' l]]; cbn; auto 6; try discriminate.
      destruct e as [| | b | x | s | l | o]; cbn; try discriminate.
      destruct (String.eqb_spec s "") as [->|_]; [auto 7|discriminate].
  - intros [->|[->|[->|[->|[->| ->]]]]]; reflexivity.
Qed.

(** ** The dirty tracker *)

Lemma replace_absent s pat rep :
  Js.includes s pat = false -> Js.replace s pat rep = s.
Proof.
  induction s as [|c s IH]; cbn [Js.includes Js.replace]; intros H;
    apply orb_false_iff in H as [Hp Hs]; rewrite Hp; [reflexivity|].
  now rewrite IH.
Qed.

(** [handleDirtyState] always returns, having assigned only the flag,
    the handle, the host status and the title class. *)
Lemma handleDirtyState_frame d w :
  exists w', handleDirtyState d w = (Ok tt, w') /\ trackerFrame w w'.
Proof.
  unfold handleDirtyState, setDirty, dispose, trackerFrame. js_unfold. cbn.
  destruct d, (clearDirty w) as [h|] eqn:Hcd; cbn;
    try destruct (Js.includes (titleClassName w) DIRTY_CLASS) eqn:Hi; cbn;
    (eexists; split; [reflexivity|]);
    destruct w; cbn in *; subst; reflexivity.
Qed.

Lemma trackerFrame_fields w w' :
  trackerFrame w w' ->
  store w' = store w /\ metadata w' = metadata w /\ log w' = log w /\
  requiredFields w' = requiredFields w /\ displayName w' = displayName w /\
  schema w' = schema w /\ name w' = name w /\
  editorServices w' = editorServices w /\ editor w' = editor w.
Proof. intros ->. repeat split. Qed.

(** C8. [handleDirtyState] is idempotent: called with [true] in the Dirty
    state, or with [false] in the Clean state, it assigns nothing but the
    flag it was called with, and leaves the tracker in the state it was in.
    The handle on the host's dirty indicator, the host's count and the
    title class are as they were, and so is the flag wherever it had been
    assigned, which is always so in the Dirty state: the widget is then
    returned exactly as it was.  On an editor that has never been edited
    the flag, undefined until then, becomes [false]. *)
Theorem handleDirtyState_idempotent (w : MetadataEditor) (d : bool) :
  trackerState w = Some d ->
  handleDirtyState d w = (Ok tt, set_dirty (Some d) w) /\
  trackerState (set_dirty (Some d) w) = Some d /\
  (dirty w <> None -> set_dirty (Some d) w = w).
Proof.
  unfold trackerState, handleDirtyState. js_unfold. intros H.
  destruct w as [es ns sn n c cn dn ed sdn [[|]|] tags [h|] rf inv sch cats
                 am md tl cls st sto lg]; cbn in *;
    destruct (Js.includes cls DIRTY_CLASS) eqn:Hi; try discriminate;
    injection H as <-; cbn; rewrite ?Hi; cbn;
    rewrite ?(replace_absent _ _ _ Hi);
    repeat split; congruence.
Qed.

(** Witness for C8: the edited runtime is Dirty, the saved one Clean, and
    so is the runtime editor that has just been opened. *)
Lemma handleDirtyState_idempotent_witness :
  (handleDirtyState true Example.newRuntime
   = (Ok tt, set_dirty (Some true) Example.newRuntime) /\
   trackerState (set_dirty (Some true) Example.newRuntime) = Some true /\
   (dirty Example.newRuntime <> None ->
    set_dirty (Some true) Example.newRuntime = Example.newRuntime)) /\
  (handleDirtyState false Example.savedRuntime
   = (Ok tt, set_dirty (Some false) Example.savedRuntime) /\
   trackerState (set_dirty (Some false) Example.savedRuntime) = Some false /\
   (dirty Example.savedRuntime <> None ->
    set_dirty (Some false) Example.savedRuntime = Example.savedRuntime)) /\
  (handleDirtyState false
     (Example.opened (Example.service [Example.runtimeSchema] [])
        (Example.props "kfp" "runtimes" None))
   = (Ok tt,
      set_dirty (Some false)
        (Example.opened (Example.service [Example.runtimeSchema] [])
           (Example.props "kfp" "runtimes" None))) /\
   trackerState
     (set_dirty (Some false)
        (Example.opened (Example.service [Example.runtimeSchema] [])
           (Example.props "kfp" "runtimes" None))) = Some false /\
   (dirty (Example.opened (Example.service [Example.runtimeSchema] [])
             (Example.props "kfp" "runtimes" None)) <> None ->
    set_dirty (Some false)
      (Example.opened (Example.service [Example.runtimeSchema] [])
         (Example.props "kfp" "runtimes" None))
    = Example.opened (Example.service [Example.runtimeSchema] [])
        (Example.props "kfp" "runtimes" None))).
Proof.
  split; [|split]; apply handleDirtyState_idempotent; reflexivity.
Defined.

Lemma prefix_refl s : String.prefix s s = true.
Proof.
  induction s as [|c s IH]; cbn; [reflexivity|].
  destruct (ascii_dec c c); [exact IH | congruence].
Qed.

Lemma includes_app_r s sub : Js.includes (s ++ sub) sub = true.
Proof.
  induction s as [|c s IH].
  - change (("" ++ sub)%string) with sub.
    destruct sub; [reflexivity|]. cbn [Js.includes]. now rewrite prefix_refl.
  - change ((String c s ++ sub)%string) with (String c (s ++ sub)%string).
    cbn [Js.includes]. rewrite IH. apply orb_true_r.
Qed.

(** The states are those the tracker moves between: marking dirty
    always ends in Dirty, and marking clean after that ends in Clean when
    the title class did not carry the marker to begin with. *)
Lemma handleDirtyState_enters_dirty w :
  trackerState (snd (handleDirtyState true w)) = Some true.
Proof.
  unfold handleDirtyState, setDirty, trackerState. js_unfold.
  destruct (clearDirty w) eqn:Hcd; cbn; rewrite ?Hcd;
    destruct (Js.includes (titleClassName w) DIRTY_CLASS) eqn:Hi;
    repeat (progress cbn || rewrite Hcd || rewrite Hi
            || rewrite includes_app_r);
    reflexivity.
Qed.

Lemma prefix_String a s b t :
  String.prefix (String a s) (String b t) =
  Ascii.eqb a b && String.prefix s t.
Proof.
  cbn. destruct (ascii_dec a b) as [->|Hne].
  - now rewrite Ascii.eqb_refl.
  - apply Ascii.eqb_neq in Hne. now rewrite Hne.
Qed.

Lemma append_String a s t :
  (String a s ++ t)%string = String a (s ++ t)%string.
Proof. reflexivity. Qed.

(** No occurrence of the marker straddles the end of a class it was
    appended to: the marker does not overlap itself. *)
Lemma prefix_marker_app c :
  c <> EmptyString ->
  String.prefix DIRTY_CLASS c = false ->
  String.prefix DIRTY_CLASS (c ++ DIRTY_CLASS) = false.
Proof.
  unfold DIRTY_CLASS. intros Hne H.
  destruct c as [|a c]; [congruence|]. clear Hne.
  rewrite append_String, prefix_String in *.
  destruct (Ascii.eqb_spec "j" a) as [<-|]; [|reflexivity].
  cbn [andb] in *.
  do 11 (destruct c as [|a c]; [vm_compute; reflexivity|];
         rewrite append_String, prefix_String in *;
         match goal with
         | |- Ascii.eqb ?x a && _ = false =>
             destruct (Ascii.eqb_spec x a) as [<-|]; [|reflexivity]
         end;
         cbn [andb] in *).
  destruct c; discriminate.
Qed.

Lemma replace_appended c :
  Js.includes c DIRTY_CLASS = false ->
  Js.replace (c ++ DIRTY_CLASS) DIRTY_CLASS "" = c.
Proof.
  induction c as [|a c IH]; [reflexivity|]. intros H.
  cbn [Js.includes] in H. apply orb_false_iff in H as [Hp Hi].
  change ((String a c ++ DIRTY_CLASS)%string)
    with (String a (c ++ DIRTY_CLASS)%string).
  cbn [Js.replace].
  change (String a (c ++ DIRTY_CLASS)%string)
    with ((String a c ++ DIRTY_CLASS)%string).
  rewrite (prefix_marker_app (String a c)) by (congruence || assumption).
  now rewrite IH.
Qed.

Lemma handleDirtyState_leaves_dirty w :
  Js.includes (titleClassName w) DIRTY_CLASS = false ->
  trackerState
    (snd (handleDirtyState false (snd (handleDirtyState true w)))) =
  Some false.
Proof.
  intros Hi. unfold handleDirtyState, setDirty, dispose, trackerState.
  js_unfold.
  destruct (clearDirty w) eqn:Hcd;
    repeat (progress cbn || rewrite Hcd || rewrite Hi
            || rewrite (replace_appended _ Hi));
    reflexivity.
Qed.

(** Before the first call the flag is undefined; marking clean then gives
    the flag its first value and nothing more. *)
Lemma handleDirtyState_first_clean w :
  dirty w = None -> clearDirty w = None ->
  Js.includes (titleClassName w) DIRTY_CLASS = false ->
  handleDirtyState false w = (Ok tt, set_dirty (Some false) w).
Proof.
  intros Hd Hcd Hi. unfold handleDirtyState. js_unfold. cbn.
  rewrite Hcd. cbn. rewrite (replace_absent _ _ _ Hi).
  destruct w; cbn in *; now subst.
Qed.

(** ** What validation leaves alone *)

Lemma validationFrame_refl w : validationFrame w w.
Proof. unfold validationFrame. now destruct w. Qed.

Lemma validationFrame_trans w1 w2 w3 :
  validationFrame w1 w2 -> validationFrame w2 w3 -> validationFrame w1 w3.
Proof. unfold validationFrame. intros H12 H23. rewrite H23, H12. reflexivity. Qed.

Lemma setError_frame key b w r w' :
  setError key b w = (r, w') -> validationFrame w w'.
Proof.
  unfold setError, schemaEntry. js_unfold.
  destruct (schemaGet (schema w) key) as [fd|]; cbn.
  - destruct (f_uihints fd) as [u|]; cbn; intros H; injection H as _ <-;
      unfold validationFrame; now destruct w.
  - intros H; injection H as _ <-. apply validationFrame_refl.
Qed.

Lemma checkField_frame key w r w' :
  checkField key w = (r, w') -> validationFrame w w'.
Proof.
  unfold checkField, readDict, schemaEntry, requiredIncludes. js_unfold.
  destruct (store w !! metadata w) as [[|md]|]; cbn;
    try (intros H; injection H as _ <-; apply validationFrame_refl).
  destruct (schemaGet (schema w) key) as [fd|]; cbn;
    try (intros H; injection H as _ <-; apply validationFrame_refl).
  destruct (requiredFields w) as [req|]; cbn;
    try (intros H; injection H as _ <-; apply validationFrame_refl).
  destruct (_ && _); intros H.
  - destruct (setError key true (set_invalidForm true w)) as [r1 w1] eqn:He.
    apply setError_frame in He.
    assert (w1 = w') as <- by (destruct r1 as [[]|]; congruence).
    eapply validationFrame_trans; [|exact He].
    unfold validationFrame. now destruct w.
  - eapply setError_frame; eauto.
Qed.

Lemma hasInvalidFields_frame w r w' :
  hasInvalidFields w = (r, w') -> validationFrame w w'.
Proof.
  unfold hasInvalidFields. js_unfold. cbn.
  destruct (_ || _); cbn;
    match goal with
    | |- context [forEach ?l checkField ?w1] =>
        assert (validationFrame w w1) as H1
          by (unfold validationFrame; now destruct w);
        destruct (forEach l checkField w1) as [[[]|] w2] eqn:Hloop
    end;
    intros H; injection H as _ <-;
    (eapply validationFrame_trans; [exact H1|]);
    eapply (forEach_preserves validationFrame); eauto using validationFrame_refl,
      validationFrame_trans, checkField_frame.
Qed.

Lemma validationFrame_fields w w' :
  validationFrame w w' ->
  store w' = store w /\ metadata w' = metadata w /\ log w' = log w /\
  name w' = name w /\ namespace w' = namespace w /\
  schemaName w' = schemaName w /\ displayName w' = displayName w /\
  requiredFields w' = requiredFields w.
Proof. intros ->. repeat split. Qed.

(** ** Saving *)

Lemma saveMetadata_run w invalid w' md :
  hasInvalidFields w = (Ok invalid, w') ->
  store w !! metadata w = Some (ODict md) ->
  saveMetadata w = (Ok tt, set_log (log w ++ [saveEvent w invalid md]) w').
Proof.
  intros Hv Hmd. pose proof (hasInvalidFields_frame _ _ _ Hv) as Hf.
  apply validationFrame_fields in Hf as (Hs & _ & Hl & _).
  unfold saveMetadata, saveEvent, bind, get. rewrite Hv.
  destruct invalid; unfold emit, modify; [now rewrite Hl|].
  unfold readDict. rewrite Hs, Hmd.
  destruct (truthyStr (name w)); cbn; now rewrite Hl.
Qed.

(** A save whose validation throws sends nothing either. *)
Lemma saveMetadata_throws w w' :
  hasInvalidFields w = (Throw, w') -> saveMetadata w = (Throw, w').
Proof. intros Hv. unfold saveMetadata, bind, get. now rewrite Hv. Qed.

(** C3. A save whose validation fails re-renders and sends nothing; one
    whose validation succeeds posts when the editor has no name and puts
    under the editor's name when it has one. *)
Theorem saveMetadata_create_or_update (w w' : MetadataEditor)
  (invalid : bool) (md : gmap string value) :
  hasInvalidFields w = (Ok invalid, w') ->
  store w !! metadata w = Some (ODict md) ->
  exists e,
    saveMetadata w = (Ok tt, set_log (log w ++ [e]) w') /\
    match invalid, truthyStr (name w) with
    | true, _ => e = Update
    | false, None =>
        e = PostMetadata (namespace w)
              (mkPayload (schemaName w) (displayName w) md)
    | false, Some n =>
        name w = Some n /\
        e = PutMetadata (namespace w) n
              (mkPayload (schemaName w) (displayName w) md)
    end.
Proof.
  intros Hv Hmd. exists (saveEvent w invalid md). split.
  - now apply saveMetadata_run.
  - unfold saveEvent, truthyStr. destruct invalid; [reflexivity|].
    destruct (name w) as [n|]; [|reflexivity].
    destruct (String.eqb n ""); auto.
Qed.

(** Witness for C3: the new runtime is created, the snippet "three" is
    updated under its name. *)
Lemma saveMetadata_create_or_update_witness :
  (exists e,
     saveMetadata Example.newRuntime =
       (Ok tt,
        set_log (log Example.newRuntime ++ [e])
          (snd (hasInvalidFields Example.newRuntime))) /\
     e = PostMetadata "runtimes"
           (mkPayload "kfp" (VStr "dev") {["api_endpoint" := VStr ""]})) /\
  (exists e,
     saveMetadata Example.renderedThree =
       (Ok tt,
        set_log (log Example.renderedThree ++ [e])
          (snd (hasInvalidFields Example.renderedThree))) /\
     name Example.renderedThree = Some "three" /\
     e = PutMetadata "code-snippets" "three"
           (mkPayload "code-snippet" (VStr "Three")
              (<["language" := VStr "Python"]>
                 {["tags" := VArr [VStr "b"; VStr "c"]]}))).
Proof.
  split.
  - apply (saveMetadata_create_or_update Example.newRuntime
             (snd (hasInvalidFields Example.newRuntime)) false
             {["api_endpoint" := VStr ""]});
      [vm_compute; reflexivity | reflexivity].
  - apply (saveMetadata_create_or_update Example.renderedThree
             (snd (hasInvalidFields Example.renderedThree)) false
             (<["language" := VStr "Python"]>
                {["tags" := VArr [VStr "b"; VStr "c"]]}));
      [vm_compute; reflexivity | reflexivity].
Defined.

(** ** Edits *)

(** C4. A text-input change on [display_name] stores the raw value as the
    display name and leaves the record alone; on any other field it deletes
    the key when the value is falsy and the field is not required, and
    stores the value under the key otherwise. *)
Theorem handleTextInputChange_stores (w : MetadataEditor) (v : value)
  (f : string) (r : list string) (md : gmap string value) :
  requiredFields w = Some r ->
  store w !! metadata w = Some (ODict md) ->
  exists w',
    handleTextInputChange v f w = (Ok tt, w') /\
    metadata w' = metadata w /\
    (forall l, l <> metadata w -> store w' !! l = store w !! l) /\
    if String.eqb f "display_name" then
      displayName w' = v /\ store w' !! metadata w = Some (ODict md)
    else
      displayName w' = displayName w /\
      store w' !! metadata w =
        Some (ODict (if negb (Js.truthy v) && negb (existsb (String.eqb f) r)
                     then delete f md else <[f := v]> md)).
Proof.
  intros Hr Hmd.
  destruct (handleDirtyState_frame true w) as (w1 & Hd & Hf).
  apply trackerFrame_fields in Hf as (Hs & Hm & _ & Hr1 & Hdn & _).
  unfold handleTextInputChange. rewrite (bind_ok _ _ _ _ _ Hd).
  destruct (String.eqb f "display_name").
  - eexists. split; [reflexivity|]. cbn. rewrite Hs, Hm. auto.
  - rewrite <- Hs, <- Hm in Hmd. rewrite <- Hr1 in Hr.
    set (remove := negb (Js.truthy v) && negb (existsb (String.eqb f) r)).
    destruct (writeDict_lookup _ _
                (if remove then delete f md else <[f := v]> md) _ Hmd)
      as (w2 & Hw & -> & Hl & Ho).
    exists (set_store
              (<[metadata w1 := ODict (if remove then delete f md
                                       else <[f := v]> md)]> (store w1)) w1).
    split.
    + subst remove. unfold requiredIncludes. js_unfold.
      destruct (Js.truthy v); cbn; rewrite ?Hr; cbn;
        unfold readDict; rewrite Hmd; cbn;
        destruct (existsb (String.eqb f) r); reflexivity.
    + cbn in *. rewrite <- Hm, <- Hs, <- Hdn. auto.
Qed.

(** Witness for C4: clearing the optional user of the runtime. *)
Lemma handleTextInputChange_stores_witness :
  exists w',
    handleTextInputChange (VStr "") "user" Example.userRuntime = (Ok tt, w') /\
    metadata w' = metadata Example.userRuntime /\
    (forall l, l <> metadata Example.userRuntime ->
       store w' !! l = store Example.userRuntime !! l) /\
    displayName w' = displayName Example.userRuntime /\
    store w' !! metadata Example.userRuntime =
      Some (ODict (delete "user"
                     (<["user" := VStr "bob"]>
                        {["api_endpoint" := VStr ""]}))).
Proof.
  apply (handleTextInputChange_stores Example.userRuntime (VStr "") "user"
           ["api_endpoint"]
           (<["user" := VStr "bob"]> {["api_endpoint" := VStr ""]}));
    reflexivity.
Defined.



(** ** Validation, field by field *)

Lemma schemaGet_schemaSet sch k fd' f :
  schemaGet (schemaSet sch k fd') f =
  if String.eqb k f then
    match schemaGet sch k with Some _ => Some fd' | None => None end
  else schemaGet sch f.
Proof.
  induction sch as [|[k0 fd0] sch IH]; cbn.
  - now destruct (String.eqb k f).
  - destruct (String.eqb_spec k0 k) as [->|Hk0]; cbn.
    + destruct (String.eqb_spec k f) as [->|Hkf]; [reflexivity|].
      reflexivity.
    + destruct (String.eqb_spec k0 f) as [->|Hk0f].
      * destruct (String.eqb_spec k f) as [->|_]; [congruence|reflexivity].
      * exact IH.
Qed.

Lemma schemaGet_In sch f :
  In f (map fst sch) <-> is_Some (schemaGet sch f).
Proof.
  induction sch as [|[k fd] sch IH]; cbn.
  - split; [tauto | intros [? ?]; discriminate].
  - destruct (String.eqb_spec k f) as [->|Hne].
    + split; eauto.
    + rewrite <- IH. tauto.
Qed.

Lemma schemaSet_same sch f fd :
  schemaGet sch f = Some fd -> schemaSet sch f fd = sch.
Proof.
  induction sch as [|[k fd0] sch IH]; cbn; [reflexivity|].
  destruct (String.eqb k f); [intros [= ->]; reflexivity|].
  intros H. now rewrite IH.
Qed.

Lemma flagged_flagged b b' fd : flagged b (flagged b' fd) = flagged b fd.
Proof. unfold flagged. destruct fd as [t d df e [u|]]; reflexivity. Qed.

(** Every way a turn of the loop can go. *)
Lemma checkField_cases k w o w' :
  checkField k w = (o, w') ->
  (o = Throw /\ validationFrame w w' /\ schema w' = schema w /\
   (requiredFields w = None \/ schemaGet (schema w) k = None \/
    (exists fd, schemaGet (schema w) k = Some fd /\ f_uihints fd = None) \/
    forall md, store w !! metadata w <> Some (ODict md))) \/
  (o = Ok tt /\
   exists r md fd u,
     requiredFields w = Some r /\ store w !! metadata w = Some (ODict md) /\
     schemaGet (schema w) k = Some fd /\ f_uihints fd = Some u /\
     w' = set_invalidForm (invalidForm w || fieldFlag r md k fd)
            (set_schema (schemaSet (schema w) k
                           (flagged (fieldFlag r md k fd) fd)) w)).
Proof.
  unfold checkField, readDict, schemaEntry, requiredIncludes, setError,
    schemaEntry.
  js_unfold.
  destruct (store w !! metadata w) as [[|md]|] eqn:Hmd; cbn;
    try (intros H; injection H as <- <-; left;
         repeat split; auto using validationFrame_refl;
         right; right; right; congruence).
  destruct (schemaGet (schema w) k) as [fd|] eqn:Hfd; cbn;
    [|intros H; injection H as <- <-; left;
      repeat split; auto using validationFrame_refl].
  destruct (requiredFields w) as [r|] eqn:Hr; cbn;
    [|intros H; injection H as <- <-; left;
      repeat split; auto using validationFrame_refl].
  fold (fieldFlag r md k fd).
  destruct (fieldFlag r md k fd) eqn:Hflag; cbn; rewrite Hfd; cbn;
    (destruct (f_uihints fd) as [u|] eqn:Hu; cbn; intros H;
     injection H as <- <-;
     [right; split; [reflexivity|]; exists r, md, fd, u;
      repeat split; auto; unfold flagged; rewrite Hu, Hflag;
      destruct w; cbn in *; rewrite ?orb_true_r, ?orb_false_r; reflexivity
     |left; repeat split; eauto 6;
      unfold validationFrame; destruct w; reflexivity]).
Qed.

Lemma existsb_pointwise {A : Type} (g h : A -> bool) l :
  (forall x, g x = h x) -> existsb g l = existsb h l.
Proof. intros E. induction l as [|x l IH]; cbn; [|rewrite E, IH]; reflexivity. Qed.

(** The loop of [hasInvalidFields] over keys that all have [uihints]:
    it ends, each key visited has its flag written, and [invalidForm] has
    accumulated the flags. *)
Lemma forEach_checkField_ok r md l :
  forall w,
    requiredFields w = Some r ->
    store w !! metadata w = Some (ODict md) ->
    (forall k, In k l ->
       exists fd, schemaGet (schema w) k = Some fd /\ is_Some (f_uihints fd)) ->
    exists w',
      forEach l checkField w = (Ok tt, w') /\
      validationFrame w w' /\
      (forall f,
         schemaGet (schema w') f =
         if existsb (String.eqb f) l then
           (fun fd => flagged (fieldFlag r md f fd) fd) <$> schemaGet (schema w) f
         else schemaGet (schema w) f) /\
      invalidForm w' = invalidForm w || existsb (keyFlag r md (schema w)) l.
Proof.
  induction l as [|k l IH]; intros w Hr Hmd Hui.
  - exists w. cbn. rewrite orb_false_r. auto using validationFrame_refl.
  - destruct (Hui k (or_introl eq_refl)) as (fd & Hfd & [u Hu]).
    destruct (checkField k w) as [o w1] eqn:Hk.
    pose proof (checkField_frame _ _ _ _ Hk) as Hf1.
    destruct (checkField_cases _ _ _ _ Hk)
      as [(_ & _ & _ & [E|[E|[(fd' & E & E')|E]]])
         |(-> & r' & md' & fd' & u' & Hr' & Hmd' & Hfd' & Hu' & Hw1)];
      try congruence; try (now apply E in Hmd).
    assert (r' = r) as -> by congruence.
    assert (md' = md) as -> by congruence.
    assert (fd' = fd) as -> by congruence. clear Hr' Hmd' Hfd' Hu' u'.
    set (b := fieldFlag r md k fd) in *.
    assert (forall f, schemaGet (schema w1) f =
                      if String.eqb k f then Some (flagged b fd)
                      else schemaGet (schema w) f) as Hsg.
    { intros f. rewrite Hw1. cbn. rewrite schemaGet_schemaSet, Hfd. reflexivity. }
    destruct (IH w1) as (w' & Hrun & Hf & Hsch & Hinv).
    + rewrite Hw1. exact Hr.
    + rewrite Hw1. exact Hmd.
    + intros k' Hin. rewrite Hsg. destruct (String.eqb_spec k k') as [<-|Hne].
      * eexists. split; [reflexivity|]. unfold flagged. rewrite Hu. cbn. eauto.
      * apply Hui. now right.
    + exists w'. split; [|split; [|split]].
      * cbn [forEach]. now rewrite (bind_ok _ _ _ _ _ Hk).
      * eapply validationFrame_trans; eauto.
      * intros f. rewrite Hsch, Hsg. cbn [existsb].
        rewrite (String.eqb_sym f k).
        destruct (String.eqb_spec k f) as [<-|Hne]; cbn; [|reflexivity].
        rewrite Hfd. cbn.
        destruct (existsb (String.eqb k) l); [|reflexivity].
        f_equal. unfold fieldFlag at 1. cbn. fold (fieldFlag r md k fd).
        apply flagged_flagged.
      * rewrite Hinv, Hw1. cbn. rewrite <- orb_assoc. f_equal.
        unfold keyFlag at 2. rewrite Hfd. fold b. f_equal.
        apply existsb_pointwise. intros k'. unfold keyFlag.
        specialize (Hsg k'). rewrite Hw1 in Hsg. cbn in Hsg. rewrite Hsg.
        destruct (String.eqb k k') eqn:Hkk'; [|reflexivity].
        apply String.eqb_eq in Hkk'. rewrite <- Hkk', Hfd. reflexivity.
Qed.

Lemma existsb_eqb_In f l : existsb (String.eqb f) l = true <-> In f l.
Proof.
  rewrite existsb_exists. split.
  - intros (x & Hin & E). apply String.eqb_eq in E. now subst.
  - intros Hin. exists f. split; [assumption | apply String.eqb_refl].
Qed.

(** A check that every field of a schema carries [uihints]. *)
Lemma uihints_forallb sch :
  forallb (fun kv => bool_decide (is_Some (f_uihints (snd kv)))) sch = true ->
  forall f fd, schemaGet sch f = Some fd -> is_Some (f_uihints fd).
Proof.
  induction sch as [|[k fd0] sch IH]; cbn; [discriminate|].
  intros H f fd. apply andb_true_iff in H as [H0 H1].
  destruct (String.eqb k f); [|now apply IH].
  intros [= <-]. now apply bool_decide_eq_true in H0.
Qed.

(** [hasInvalidFields] on a widget whose required fields are loaded and
    whose schema fields all carry [uihints]. *)
Lemma hasInvalidFields_run w r md :
  requiredFields w = Some r ->
  store w !! metadata w = Some (ODict md) ->
  (forall f fd, schemaGet (schema w) f = Some fd -> is_Some (f_uihints fd)) ->
  exists w',
    hasInvalidFields w = (Ok (invalidForm w'), w') /\
    (forall f fd, schemaGet (schema w) f = Some fd ->
       schemaGet (schema w') f = Some (flagged (fieldFlag r md f fd) fd)) /\
    invalidForm w' =
      (Js.isNull (displayName w) || Js.eqStr (displayName w) "")
      || existsb (keyFlag r md (schema w)) (map fst (schema w)).
Proof.
  intros Hr Hmd Hui.
  set (c := Js.isNull (displayName w) || Js.eqStr (displayName w) "").
  set (wm := set_invalidForm c w).
  destruct (forEach_checkField_ok r md (map fst (schema w)) wm)
    as (w' & Hrun & _ & Hsch & Hinv); try assumption.
  { intros k Hin. apply schemaGet_In in Hin as [fd Hfd]. eauto. }
  exists w'. split; [|split].
  - assert (hasInvalidFields w =
            bind (forEach (map fst (schema w)) checkField)
              (fun _ => bind get (fun w1 => ret (invalidForm w1))) wm) as ->
      by (unfold hasInvalidFields, wm, c, bind, get, modify, ret; cbn;
          destruct (_ || _); reflexivity).
    now rewrite (bind_ok _ _ _ _ _ Hrun).
  - intros f fd Hfd. rewrite Hsch. cbn.
    assert (existsb (String.eqb f) (map fst (schema w)) = true) as ->.
    { apply existsb_eqb_In, schemaGet_In. eauto. }
    now rewrite Hfd.
  - rewrite Hinv. reflexivity.
Qed.

(** C2, as the code has it. [hasInvalidFields] evaluates each schema field
    as [record[field] || schema[field].default]: the default replaces every
    falsy stored value.  A required field whose value is then empty gets its
    error flag set and makes the form invalid, every other field gets its
    flag cleared. *)
Theorem hasInvalidFields_flags (w : MetadataEditor) (r : list string)
  (md : gmap string value) :
  requiredFields w = Some r ->
  store w !! metadata w = Some (ODict md) ->
  (forall f fd, schemaGet (schema w) f = Some fd -> is_Some (f_uihints fd)) ->
  exists invalid w',
    hasInvalidFields w = (Ok invalid, w') /\
    forall f fd, schemaGet (schema w) f = Some fd ->
      let value := Js.or (dictGet md f) (f_default fd) in
      if existsb (String.eqb f) r && isValueEmpty value
      then errorFlag w' f = VBool true /\ invalid = true
      else errorFlag w' f = VBool false.
Proof.
  intros Hr Hmd Hui.
  destruct (hasInvalidFields_run w r md Hr Hmd Hui) as (w' & Hrun & Hsch & Hinv).
  exists (invalidForm w'), w'. split; [exact Hrun|].
  intros f fd Hfd. cbn zeta. fold (fieldFlag r md f fd).
  destruct (Hui f fd Hfd) as [u Hu].
  assert (errorFlag w' f = VBool (fieldFlag r md f fd)) as ->.
  { unfold errorFlag. rewrite (Hsch f fd Hfd). unfold flagged. now rewrite Hu. }
  destruct (fieldFlag r md f fd) eqn:Hflag; [|reflexivity].
  split; [reflexivity|]. rewrite Hinv. apply orb_true_iff. right.
  apply existsb_exists. exists f. split.
  - apply schemaGet_In. eauto.
  - unfold keyFlag. now rewrite Hfd.
Qed.

(** Witness for C2: the amended statement on the runtime session. *)
Lemma hasInvalidFields_flags_witness :
  exists invalid w',
    hasInvalidFields Example.newRuntime = (Ok invalid, w') /\
    forall f fd, schemaGet (schema Example.newRuntime) f = Some fd ->
      let value :=
        Js.or (dictGet {["api_endpoint" := VStr ""]} f) (f_default fd) in
      if existsb (String.eqb f) ["api_endpoint"] && isValueEmpty value
      then errorFlag w' f = VBool true /\ invalid = true
      else errorFlag w' f = VBool false.
Proof.
  apply (hasInvalidFields_flags Example.newRuntime ["api_endpoint"]
           {["api_endpoint" := VStr ""]}).
  - reflexivity.
  - reflexivity.
  - apply uihints_forallb. reflexivity.
Defined.

(** C2, counterexample to the reading with [??].  In the runtime session
    the required endpoint holds the empty string and the schema has a default
    for it: under [??] the field would be flagged and the form invalid, the
    code finds the form valid and clears the flag. *)
Lemma hasInvalidFields_not_nullish :
  ~ validatesWithNullish Example.newRuntime.
Proof.
  intros H.
  destruct (H ["api_endpoint"] {["api_endpoint" := VStr ""]} eq_refl eq_refl)
    as (invalid & w' & Hrun & Hf).
  specialize (Hf "api_endpoint" _ eq_refl). cbn in Hf. destruct Hf as [_ ->].
  assert (fst (hasInvalidFields Example.newRuntime) = Ok false) as E
    by (vm_compute; reflexivity).
  rewrite Hrun in E. discriminate.
Qed.

(** ** Validation needs [uihints] *)

(** A loop of [checkField] that ends has found [uihints] on every key. *)
Lemma forEach_checkField_inv l :
  forall w w',
    forEach l checkField w = (Ok tt, w') ->
    forall k, In k l ->
      exists fd, schemaGet (schema w) k = Some fd /\ is_Some (f_uihints fd).
Proof.
  induction l as [|k0 l IH]; intros w w' Hrun k Hin; [destruct Hin|].
  cbn [forEach] in Hrun. apply bind_inv_ok in Hrun as ([] & w1 & Hk0 & Hrest).
  destruct (checkField_cases _ _ _ _ Hk0)
    as [(E & _)|(_ & r & md & fd & u & _ & _ & Hfd & Hu & Hw1)];
    [discriminate|].
  destruct Hin as [<-|Hin]; [eauto|].
  destruct (IH _ _ Hrest k Hin) as (fd1 & Hfd1 & Hui1).
  rewrite Hw1 in Hfd1. cbn in Hfd1. rewrite schemaGet_schemaSet, Hfd in Hfd1.
  destruct (String.eqb_spec k0 k) as [<-|Hne]; eauto.
Qed.

Lemma hasInvalidFields_inv w invalid w' :
  hasInvalidFields w = (Ok invalid, w') ->
  forall f fd, schemaGet (schema w) f = Some fd -> is_Some (f_uihints fd).
Proof.
  intros Hrun f fd Hfd.
  set (c := Js.isNull (displayName w) || Js.eqStr (displayName w) "").
  assert (hasInvalidFields w =
          bind (forEach (map fst (schema w)) checkField)
            (fun _ => bind get (fun w1 => ret (invalidForm w1)))
            (set_invalidForm c w)) as E
    by (unfold hasInvalidFields, c, bind, get, modify, ret; cbn;
        destruct (_ || _); reflexivity).
  rewrite E in Hrun. apply bind_inv_ok in Hrun as ([] & w1 & Hloop & _).
  destruct (forEach_checkField_inv _ _ _ Hloop f) as (fd' & Hfd' & Hui).
  - apply schemaGet_In. eauto.
  - cbn in Hfd'. congruence.
Qed.

(** The dropdown choices are computed without assigning anything. *)
Lemma findChoice_pure choices other w :
  snd (findChoice choices other w) = w.
Proof.
  induction choices as [|c choices IH]; cbn; [reflexivity|].
  unfold toLowerCaseOf. js_unfold.
  destruct c; cbn; try reflexivity. destruct other; cbn; try reflexivity.
  destruct (String.eqb _ _); [reflexivity | apply IH].
Qed.

Lemma addChoice_pure f choices l w : snd (addChoice f choices l w) = w.
Proof.
  unfold addChoice, readRecord, readDict. js_unfold.
  destruct (negb _); [|reflexivity].
  destruct (store w !! l) as [[n dn m|]|]; cbn; try reflexivity.
  destruct (store w !! m) as [[|md]|]; cbn; try reflexivity.
  destruct (Js.truthy _); [|reflexivity].
  pose proof (findChoice_pure choices (dictGet md f) w) as H.
  destruct (findChoice choices (dictGet md f) w) as [[found|] w1];
    cbn in H; subst; [destruct (negb _)|]; reflexivity.
Qed.

Lemma collectChoices_pure f others :
  forall choices w, snd (collectChoices f others choices w) = w.
Proof.
  induction others as [|l others IH]; intros choices w; cbn; [reflexivity|].
  unfold bind. pose proof (addChoice_pure f choices l w) as H.
  destruct (addChoice f choices l w) as [[choices'|] w1]; cbn in H; subst;
    [apply IH | reflexivity].
Qed.

Lemma getDefaultChoices_pure f w : snd (getDefaultChoices f w) = w.
Proof.
  unfold getDefaultChoices, schemaEntry. js_unfold.
  destruct (schemaGet (schema w) f) as [fd|]; cbn; [|reflexivity].
  destruct (f_enum fd); [reflexivity|].
  destruct (f_uihints fd); [apply collectChoices_pure | reflexivity].
Qed.

(** [renderField] assigns nothing but the [uihints] it installs. *)
Lemma renderField_installs w f fd :
  schemaGet (schema w) f = Some fd ->
  snd (renderField f w) =
  set_schema
    (schemaSet (schema w) f
       (set_f_uihints (Some (default emptyUIHints (f_uihints fd))) fd)) w.
Proof.
  intros Hfd.
  unfold renderField, schemaEntry, readDict. js_unfold. rewrite Hfd. cbn.
  destruct (f_uihints fd) as [u|] eqn:Hu; cbn.
  - assert (set_f_uihints (Some u) fd = fd) as ->
      by (destruct fd; cbn in *; now subst).
    rewrite (schemaSet_same _ _ _ Hfd).
    assert (set_schema (schema w) w = w) as -> by now destruct w.
    repeat (destruct (_ || _) || destruct (Js.eqStr _ _)); cbn;
      try reflexivity;
      destruct (store w !! metadata w) as [[|md]|]; cbn; try reflexivity.
    pose proof (getDefaultChoices_pure f w) as H.
    destruct (getDefaultChoices f w) as [[choices|] w1]; cbn in *; now subst.
  - destruct (store w !! metadata w) as [[|md]|]; reflexivity.
Qed.

(** C9. With the required fields loaded, [hasInvalidFields] returns exactly
    when every schema field has a [uihints] object; when it returns it has
    written [uihints.error] of every field, true or false; and
    [renderField] leaves the field it renders with a [uihints] object, the
    empty one when there was none, touching nothing else. *)
Theorem hasInvalidFields_needs_uihints (w : MetadataEditor)
  (r : list string) (md : gmap string value) :
  requiredFields w = Some r ->
  store w !! metadata w = Some (ODict md) ->
  ((exists invalid w', hasInvalidFields w = (Ok invalid, w')) <->
   (forall f fd, schemaGet (schema w) f = Some fd -> is_Some (f_uihints fd)))
  /\
  (forall invalid w' f fd,
     hasInvalidFields w = (Ok invalid, w') ->
     schemaGet (schema w) f = Some fd ->
     errorFlag w' f = VBool (fieldFlag r md f fd))
  /\
  (forall f fd,
     schemaGet (schema w) f = Some fd ->
     let w1 := snd (renderField f w) in
     w1 = set_schema (schema w1) w /\
     schemaGet (schema w1) f =
       Some (set_f_uihints (Some (default emptyUIHints (f_uihints fd))) fd) /\
     forall g, g <> f -> schemaGet (schema w1) g = schemaGet (schema w) g).
Proof.
  intros Hr Hmd. split; [|split].
  - split.
    + intros (invalid & w' & Hrun). eapply hasInvalidFields_inv; eauto.
    + intros Hui.
      destruct (hasInvalidFields_run w r md Hr Hmd Hui) as (w' & Hrun & _).
      eauto.
  - intros invalid w' f fd Hrun Hfd.
    pose proof (hasInvalidFields_inv _ _ _ Hrun) as Hui.
    destruct (hasInvalidFields_run w r md Hr Hmd Hui) as (w2 & Hrun2 & Hsch & _).
    assert (w2 = w') as -> by congruence.
    destruct (Hui f fd Hfd) as [u Hu].
    unfold errorFlag. rewrite (Hsch f fd Hfd). unfold flagged. now rewrite Hu.
  - intros f fd Hfd w1. subst w1. rewrite (renderField_installs _ _ _ Hfd).
    cbn. split; [reflexivity|]. split.
    + rewrite schemaGet_schemaSet, String.eqb_refl, Hfd. reflexivity.
    + intros g Hne. rewrite schemaGet_schemaSet.
      destruct (String.eqb_spec f g); [congruence|reflexivity].
Qed.

(** Witness for C9: the snippet "three" as opened, its description still
    without [uihints]. *)
Lemma hasInvalidFields_needs_uihints_witness :
  ((exists invalid w',
      hasInvalidFields Example.editThree = (Ok invalid, w')) <->
   (forall f fd, schemaGet (schema Example.editThree) f = Some fd ->
      is_Some (f_uihints fd))) /\
  (forall invalid w' f fd,
     hasInvalidFields Example.editThree = (Ok invalid, w') ->
     schemaGet (schema Example.editThree) f = Some fd ->
     errorFlag w' f =
       VBool (fieldFlag ["language"]
                (<["language" := VStr "Python"]>
                   {["tags" := VArr [VStr "b"; VStr "c"]]}) f fd)) /\
  (forall f fd,
     schemaGet (schema Example.editThree) f = Some fd ->
     let w1 := snd (renderField f Example.editThree) in
     w1 = set_schema (schema w1) Example.editThree /\
     schemaGet (schema w1) f =
       Some (set_f_uihints (Some (default emptyUIHints (f_uihints fd))) fd) /\
     forall g, g <> f ->
       schemaGet (schema w1) g = schemaGet (schema Example.editThree) g).
Proof.
  apply (hasInvalidFields_needs_uihints Example.editThree ["language"]
           (<["language" := VStr "Python"]>
              {["tags" := VArr [VStr "b"; VStr "c"]]}));
    reflexivity.
Defined.

(** ** A schema without a [required] list *)

(** With [requiredFields] undefined, validation throws on the first
    schema field. *)
Lemma hasInvalidFields_required_undefined w :
  requiredFields w = None -> schema w <> [] ->
  fst (hasInvalidFields w) = Throw.
Proof.
  intros Hr Hsch.
  set (c := Js.isNull (displayName w) || Js.eqStr (displayName w) "").
  assert (hasInvalidFields w =
          bind (forEach (map fst (schema w)) checkField)
            (fun _ => bind get (fun w1 => ret (invalidForm w1)))
            (set_invalidForm c w)) as ->
    by (unfold hasInvalidFields, c, bind, get, modify, ret; cbn;
        destruct (_ || _); reflexivity).
  destruct (schema w) as [|[k fd] rest]; [congruence|]. cbn [map fst forEach].
  destruct (checkField k (set_invalidForm c w)) as [o w1] eqn:Hk.
  destruct (checkField_cases _ _ _ _ Hk)
    as [(-> & _)|(_ & r & md & fd' & u & Hr' & _)].
  - unfold bind at 1. unfold bind at 1. now rewrite Hk.
  - cbn in Hr'. congruence.
Qed.

(** C6, evaluated.  The runtime schema arrives without a [required] list:
    [requiredFields] is undefined, not empty; validation and the save
    throw, and so does clearing an optional text field; [renderField],
    which tests [requiredFields] first, renders.  With the empty list in
    its place the same form validates. *)
Theorem initializeMetadata_required_undefined :
  requiredFields Example.looseRuntime = None /\
  fst (hasInvalidFields Example.looseRuntime) = Throw /\
  fst (saveMetadata Example.looseRuntime) = Throw /\
  fst (handleTextInputChange (VStr "") "user" Example.looseRuntime) = Throw /\
  fst (renderField "user" Example.looseRuntime) =
    Ok (TextInput (VStr "User") VUndefined "user" (VStr "") None
          VUndefined VUndefined VUndefined) /\
  fst (hasInvalidFields (set_requiredFields (Some []) Example.looseRuntime)) =
    Ok false.
Proof. repeat split; vm_compute; reflexivity. Qed.

(** ** The tag pool *)

Lemma sameValueZero_str_l s v :
  Js.sameValueZero (VStr s) v = true <-> v = VStr s.
Proof.
  destruct v; cbn; try (split; [discriminate|congruence]).
  rewrite String.eqb_eq. split; congruence.
Qed.

Lemma strings_elem s l : s ∈ strings l <-> VStr s ∈ l.
Proof.
  unfold strings. rewrite list_elem_of_omap. split.
  - intros (v & Hin & Hv). destruct v; try discriminate. now injection Hv as ->.
  - intros Hin. exists (VStr s). auto.
Qed.

Lemma existsb_sameValueZero_str s pool :
  existsb (Js.sameValueZero (VStr s)) pool = true <-> s ∈ strings pool.
Proof.
  rewrite strings_elem, existsb_exists. split.
  - intros (v & Hin & Hv). apply sameValueZero_str_l in Hv as ->.
    now apply list_elem_of_In.
  - intros Hin. exists (VStr s). split; [now apply list_elem_of_In|].
    now apply sameValueZero_str_l.
Qed.

(** One tag through [addTag]: the pool gains the tag if it is a string
    not yet there, and no string twice. *)
Lemma addTag_strings pool tag :
  let pool' := if existsb (Js.sameValueZero tag) pool then pool
               else pool ++ [tag] in
  (forall s, s ∈ strings pool' <-> s ∈ strings pool \/ tag = VStr s) /\
  (NoDup (strings pool) -> NoDup (strings pool')).
Proof.
  cbn zeta. destruct (existsb (Js.sameValueZero tag) pool) eqn:Hex.
  - split; [|auto]. intros s. split; [auto|]. intros [H| ->]; [exact H|].
    now apply existsb_sameValueZero_str.
  - split.
    + intros s. unfold strings. rewrite omap_app, elem_of_app. cbn.
      split; (intros [H|H]; [now left|right]).
      * destruct tag; cbn in H; try now apply elem_of_nil in H.
        apply list_elem_of_singleton in H. now subst.
      * subst tag. cbn. now apply list_elem_of_singleton.
    + intros Hnd. unfold strings. rewrite omap_app. cbn.
      destruct tag as [| | | |s| |]; cbn; rewrite ?app_nil_r; try exact Hnd.
      apply NoDup_app. split; [exact Hnd|]. split; [|apply NoDup_singleton].
      intros s' Hin Hs'. apply list_elem_of_singleton in Hs' as ->.
      apply existsb_sameValueZero_str in Hin. congruence.
Qed.

Lemma addTags_strings tags :
  forall pool,
    (forall s, s ∈ strings (addTags pool tags) <->
               s ∈ strings pool \/ s ∈ strings tags) /\
    (NoDup (strings pool) -> NoDup (strings (addTags pool tags))).
Proof.
  induction tags as [|tag tags IH]; intros pool; cbn.
  - split; [|auto]. intros s. split; [auto|]. intros [H|H]; [exact H|].
    now apply elem_of_nil in H.
  - destruct (addTag_strings pool tag) as [H1 H2]. cbn zeta in H1, H2.
    destruct (IH (if existsb (Js.sameValueZero tag) pool then pool
                  else pool ++ [tag])) as [H3 H4].
    split; [|auto]. intros s. unfold addTags in H3. cbn in H3. rewrite H3, H1.
    rewrite (strings_elem s (tag :: tags)), elem_of_cons, <- strings_elem.
    intuition congruence.
Qed.

Lemma forEach_addTag tags :
  forall w,
    forEach tags addTag w =
    (Ok tt, set_allTags (addTags (allTags w) tags) w).
Proof.
  induction tags as [|tag tags IH]; intros w; cbn.
  - now destruct w.
  - unfold bind, addTag at 1. js_unfold.
    destruct (existsb (Js.sameValueZero tag) (allTags w)) eqn:Hex; cbn;
      rewrite IH; cbn; rewrite ?Hex; [now destruct w | reflexivity].
Qed.

Lemma fold_addTags_strings (records : list MetadataDef) :
  forall pool,
    let pool' :=
      fold_left (fun p r => addTags p (tagsOf (md_metadata r))) records pool in
    (forall s, s ∈ strings pool' <->
       s ∈ strings pool \/
       exists r, r ∈ records /\ s ∈ strings (tagsOf (md_metadata r))) /\
    (NoDup (strings pool) -> NoDup (strings pool')).
Proof.
  induction records as [|r records IH]; intros pool; cbn.
  - split; [|auto]. intros s. split; [auto|].
    intros [H|(r & Hr & _)]; [exact H | now apply elem_of_nil in Hr].
  - destruct (addTags_strings (tagsOf (md_metadata r)) pool) as [H1 H2].
    destruct (IH (addTags pool (tagsOf (md_metadata r)))) as [H3 H4].
    cbn zeta in H3, H4. split; [|auto]. intros s. rewrite H3, H1. split.
    + intros [[H|H]|(r' & Hr' & Hs)]; [now left| |].
      * right. exists r. split; [apply elem_of_cons; now left | exact H].
      * right. exists r'. split; [apply elem_of_cons; now right | exact Hs].
    + intros [H|(r' & Hr' & Hs)]; [now left; left|].
      apply elem_of_cons in Hr' as [->|Hr']; [now left; right|].
      right. eauto.
Qed.

(** ** The object store during initialisation *)

Lemma lookup_second {A : Type} (pre : list A) a b rest :
  (pre ++ a :: b :: rest) !! S (length pre) = Some b.
Proof.
  replace (pre ++ a :: b :: rest) with ((pre ++ [a]) ++ b :: rest)
    by now rewrite <- app_assoc.
  apply list_lookup_middle. rewrite length_app. cbn. lia.
Qed.

Lemma insert_first {A : Type} (pre : list A) a a' rest :
  <[length pre := a']> (pre ++ a :: rest) = pre ++ a' :: rest.
Proof.
  rewrite insert_app_r_alt by lia. now rewrite Nat.sub_diag.
Qed.

Lemma allocRecords_run records :
  forall w,
    allocRecords records w =
    (Ok (locsOf (length (store w)) records),
     set_store (store w ++ layout id (length (store w)) records) w).
Proof.
  induction records as [|r records IH]; intros w; cbn.
  - rewrite app_nil_r. now destruct w.
  - unfold bind, allocRecord, alloc. js_unfold. cbn. rewrite IH. cbn.
    rewrite !length_app. cbn. rewrite <- !app_assoc. cbn.
    replace (length (store w) + 1 + 1) with (S (S (length (store w)))) by lia.
    replace (length (store w) + 1) with (S (length (store w))) by lia.
    reflexivity.
Qed.

Lemma seedFrame_refl w : seedFrame w w.
Proof. unfold seedFrame. now destruct w. Qed.

Lemma seedFrame_trans w1 w2 w3 :
  seedFrame w1 w2 -> seedFrame w2 w3 -> seedFrame w1 w3.
Proof. unfold seedFrame. intros H12 H23. rewrite H23, H12. reflexivity. Qed.

(** One turn of the loop over [allMetadata], on the record whose two
    objects follow [pre] in the store. *)
Lemma seedFrom_run pre md n dn rest w :
  store w = pre ++ ODict md :: ORecord n dn (length pre) :: rest ->
  tagsIterable md ->
  exists w',
    seedFrom (S (length pre)) w = (Ok tt, w') /\
    seedFrame w w' /\
    store w' = pre ++ ODict (seeded md) :: ORecord n dn (length pre) :: rest /\
    allTags w' = addTags (allTags w) (tagsOf md) /\
    (metadata w' = metadata w \/ metadata w' = length pre).
Proof.
  intros Hs Hit.
  assert (store w !! S (length pre) = Some (ORecord n dn (length pre))) as H1
    by (rewrite Hs; apply lookup_second).
  assert (store w !! length pre = Some (ODict md)) as H0
    by (rewrite Hs; now apply list_lookup_middle).
  unfold seedFrom, readRecord, readDict, writeDict, seeded, tagsOf.
  unfold tagsIterable in Hit. js_unfold. cbn beta. rewrite H1. cbn.
  rewrite H0. cbn.
  destruct (Js.truthy (dictGet md "tags")) eqn:Ht.
  - destruct (Hit eq_refl) as [tags ->]. cbn [forOf].
    rewrite forEach_addTag. cbn.
    destruct (bool_decide (name w = Some n)); cbn;
      (eexists; split; [reflexivity|]; cbn; repeat split; auto;
       unfold seedFrame; destruct w; cbn in *; now subst).
  - assert (match dictGet md "tags" with VArr tags => tags | _ => [] end = [])
      as -> by (destruct (dictGet md "tags"); try reflexivity; discriminate).
    cbn. destruct (bool_decide (name w = Some n)); cbn;
      (eexists; split; [reflexivity|]; cbn; rewrite Hs, insert_first;
       repeat split; auto; unfold seedFrame; destruct w; cbn in *; now subst).
Qed.

(** The loop over [allMetadata], on records laid out after [pre]. *)
Lemma forEach_seedFrom records :
  forall pre w,
    store w = pre ++ layout id (length pre) records ->
    Forall (fun r => tagsIterable (md_metadata r)) records ->
    exists w',
      forEach (locsOf (length pre) records) seedFrom w = (Ok tt, w') /\
      seedFrame w w' /\
      store w' = pre ++ layout seeded (length pre) records /\
      allTags w' =
        fold_left (fun p r => addTags p (tagsOf (md_metadata r))) records
          (allTags w) /\
      (metadata w' = metadata w \/
       exists md, store w' !! metadata w' = Some (ODict md)).
Proof.
  induction records as [|r records IH]; intros pre w Hs Hit.
  - exists w. cbn in *. repeat split; auto using seedFrame_refl.
  - apply Forall_cons in Hit as [Hr Hit]. cbn [layout locsOf id] in *.
    destruct (seedFrom_run _ _ _ _ _ _ Hs Hr)
      as (w1 & Hrun1 & Hf1 & Hs1 & Ht1 & Hm1).
    set (pre' := pre ++ [ODict (seeded (md_metadata r));
                         ORecord (md_name r) (md_display_name r) (length pre)]).
    assert (length pre' = S (S (length pre))) as Hlen
      by (subst pre'; rewrite length_app; cbn; lia).
    destruct (IH pre' w1) as (w' & Hrun & Hf & Hs' & Ht & Hm).
    { rewrite Hs1, Hlen. subst pre'. now rewrite <- app_assoc. }
    { exact Hit. }
    rewrite Hlen in *. exists w'. split; [|split; [|split; [|split]]].
    + cbn [forEach]. now rewrite (bind_ok _ _ _ _ _ Hrun1).
    + eapply seedFrame_trans; eauto.
    + rewrite Hs'. subst pre'. now rewrite <- app_assoc.
    + cbn [fold_left]. now rewrite Ht, Ht1.
    + destruct Hm as [Hm|Hm]; [|now right].
      destruct Hm1 as [Hm1|Hm1]; [left; congruence|right].
      rewrite Hm, Hm1, Hs'. subst pre'. rewrite <- app_assoc. cbn.
      eexists. now apply list_lookup_middle.
Qed.

(** Where the objects of the [i]-th record lie. *)
Lemma layout_lookup f records :
  forall base i r,
    records !! i = Some r ->
    exists l m,
      locsOf base records !! i = Some l /\ base <= m /\ base <= l /\
      layout f base records !! (l - base) =
        Some (ORecord (md_name r) (md_display_name r) m) /\
      layout f base records !! (m - base) = Some (ODict (f (md_metadata r))).
Proof.
  induction records as [|r0 records IH]; intros base i r Hi; [discriminate|].
  destruct i as [|i]; cbn in *.
  - injection Hi as ->. exists (S base), base.
    replace (S base - base) with 1 by lia. rewrite Nat.sub_diag.
    repeat split; auto with lia.
  - destruct (IH (S (S base)) i r Hi) as (l & m & Hl & Hbm & Hbl & Hr & Hd).
    exists l, m. repeat split; auto with lia.
    + replace (l - base) with (S (S (l - S (S base)))) by lia. exact Hr.
    + replace (m - base) with (S (S (m - S (S base)))) by lia. exact Hd.
Qed.

Lemma store_layout_lookup f pre records i r :
  records !! i = Some r ->
  exists l m,
    locsOf (length pre) records !! i = Some l /\
    (pre ++ layout f (length pre) records) !! l =
      Some (ORecord (md_name r) (md_display_name r) m) /\
    (pre ++ layout f (length pre) records) !! m =
      Some (ODict (f (md_metadata r))).
Proof.
  intros Hi.
  destruct (layout_lookup f records (length pre) i r Hi)
    as (l & m & Hl & Hbm & Hbl & Hr & Hd).
  exists l, m. split; [exact Hl|].
  rewrite !lookup_app_r by assumption. auto.
Qed.

(** ** Initialisation, part by part *)

Lemma keepsRecords_refl w : keepsRecords w w.
Proof. unfold keepsRecords. auto 7. Qed.

Lemma keepsRecords_trans w1 w2 w3 :
  keepsRecords w1 w2 -> keepsRecords w2 w3 -> keepsRecords w1 w3.
Proof.
  unfold keepsRecords. intros (a & b & c & d & e & f) (a' & b' & c' & d' & e' & f').
  repeat split; congruence.
Qed.

Lemma categorize_keeps p w o w' :
  categorize p w = (o, w') -> keepsRecords w w'.
Proof.
  unfold categorize, schemaEntry. js_unfold.
  destruct (schemaGet (schema w) p) as [fd|]; cbn;
    [|intros [= _ <-]; apply keepsRecords_refl].
  destruct (truthyStr _) as [c|];
    destruct (categoryGet _ _); intros [= _ <-];
    unfold keepsRecords; cbn; auto 7.
Qed.

Lemma selectSchema_keeps schemas :
  forall w o w', selectSchema schemas w = (o, w') -> keepsRecords w w'.
Proof.
  induction schemas as [|s schemas IH]; intros w o w'; cbn.
  - intros [= _ <-]. apply keepsRecords_refl.
  - js_unfold. destruct (String.eqb _ _); [|apply IH].
    cbn. destruct (truthyStr (name w)); cbn; intros H;
      apply (forEach_preserves keepsRecords) in H;
      eauto using keepsRecords_refl, keepsRecords_trans, categorize_keeps;
      (eapply keepsRecords_trans; [|exact H]);
      unfold keepsRecords; cbn; auto 7.
Qed.

Lemma loadSchema_keeps (service : MetadataService) w :
  exists w',
    tryCatch
      (bind get (fun w0 =>
         bind (await (getSchema service (namespace w0))) selectSchema))
      (emit ServerError) w = (Ok tt, w') /\
    keepsRecords w w'.
Proof.
  unfold tryCatch, bind at 1, get.
  destruct (getSchema service (namespace w)) as [schemas|]; cbn.
  - unfold bind, ret.
    destruct (selectSchema schemas w) as [[[]|] w1] eqn:Hsel;
      apply selectSchema_keeps in Hsel; eexists; (split; [reflexivity|]);
      [exact Hsel|].
    eapply keepsRecords_trans; [exact Hsel|]. unfold keepsRecords; cbn; auto 7.
  - eexists. split; [reflexivity|]. unfold keepsRecords; cbn; auto 7.
Qed.

Lemma loadRecords_run (service : MetadataService) records w :
  getMetadata service (namespace w) = Resolved records ->
  tryCatch
    (bind get (fun w0 =>
       bind (await (getMetadata service (namespace w0))) (fun records =>
         bind (allocRecords records) (fun ls => modify (set_allMetadata ls)))))
    (emit ServerError) w =
  (Ok tt,
   set_allMetadata (locsOf (length (store w)) records)
     (set_store (store w ++ layout id (length (store w)) records) w)).
Proof.
  intros Hg. unfold tryCatch, bind at 1, get. rewrite Hg. cbn.
  unfold bind, ret. rewrite allocRecords_run. reflexivity.
Qed.

(** On an editor opened with a name, creating the code editor reads the
    record and assigns only [editor]. *)
Lemma onInitializedMetadata_named w n o w' :
  truthyStr (name w) = Some n ->
  onInitializedMetadata w = (o, w') ->
  store w' = store w /\ allTags w' = allTags w /\
  allMetadata w' = allMetadata w /\ metadata w' = metadata w.
Proof.
  intros Hn. unfold onInitializedMetadata, readDict, joinLines. js_unfold.
  rewrite Hn.
  destruct (editor w); [intros [= _ <-]; auto|].
  destruct (codeNode w); cbn beta; [|intros [= _ <-]; auto].
  destruct (editorServices w); cbn beta; [|intros [= _ <-]; auto].
  destruct (store w !! metadata w) as [[|md]|] eqn:Hmd; cbn;
    try (intros [= _ <-]; auto).
  destruct (dictGet md "code"); cbn; rewrite ?Hmd; cbn; intros [= _ <-]; auto.
Qed.

(** C7, as the code has it.  When the editor is opened on an existing
    record (its name is truthy) and the records arrive with [tags] that are
    falsy or arrays, initialisation leaves every fetched record with a
    [tags] member, the empty array where it had none, and the pool holds
    the string tags of the records and no others, each once. *)
Theorem initializeMetadata_seeds_tags (service : MetadataService)
  (props : IMetadataEditorProps) (codeNode : bool) (n : string)
  (records : list MetadataDef) :
  truthyStr (props_name props) = Some n ->
  getMetadata service (props_namespace props) = Resolved records ->
  Forall (fun r => tagsIterable (md_metadata r)) records ->
  tagsSeeded records
    (snd (initializeMetadata service (construct props codeNode))).
Proof.
  intros Hn Hg Hit. set (w0 := construct props codeNode).
  unfold initializeMetadata.
  destruct (loadSchema_keeps service w0) as (w1 & H1 & Hs1 & Ht1 & _ & _ & Hn1 & Hns1).
  rewrite (bind_ok _ _ _ _ _ H1).
  rewrite (bind_ok _ _ _ _ _
             (loadRecords_run service records w1 ltac:(now rewrite Hns1))).
  set (w2 := set_allMetadata _ _).
  unfold bind at 1. unfold get.
  change (name w2) with (name w1). rewrite Hn1. change (name w0) with (props_name props).
  rewrite Hn.
  destruct (forEach_seedFrom records (store w1) w2 eq_refl Hit)
    as (w3 & H3 & Hf3 & Hs3 & Ht3 & _).
  change (allMetadata w2) with (locsOf (length (store w1)) records).
  rewrite (bind_ok _ _ _ _ _ H3).
  assert (name w3 = props_name props) as Hn3 by (rewrite Hf3; cbn; exact Hn1).
  assert (allMetadata w3 = locsOf (length (store w1)) records) as Ha3
    by (rewrite Hf3; reflexivity).
  set (wf := snd _).
  assert (store wf = store w3 /\ allTags wf = allTags w3 /\
          allMetadata wf = allMetadata w3) as (Hsf & Htf & Haf).
  { subst wf. unfold bind.
    destruct (onInitializedMetadata w3) as [o w4] eqn:H4.
    eapply onInitializedMetadata_named in H4 as (a & b & c & _);
      [|rewrite Hn3; exact Hn].
    destruct o as [[]|]; cbn; auto. }
  unfold tagsSeeded. rewrite Hsf, Htf, Haf, Hs3, Ht3, Ha3.
  change (allTags w2) with (allTags w1). rewrite Ht1.
  change (allTags w0) with (@nil value).
  split; [|split].
  - intros i r Hi. apply store_layout_lookup, Hi.
  - intros s. destruct (fold_addTags_strings records []) as [Hin _].
    cbn zeta in Hin. rewrite Hin. split; [|auto].
    intros [H|H]; [now apply elem_of_nil in H | exact H].
  - destruct (fold_addTags_strings records []) as [_ Hnd]. apply Hnd.
    apply NoDup_nil_2.
Qed.

(** Witness for C7: the snippet "three" opened for editing. *)
Lemma initializeMetadata_seeds_tags_witness :
  tagsSeeded Example.snippets Example.editThree.
Proof.
  apply (initializeMetadata_seeds_tags
           (Example.service [Example.snippetSchema] Example.snippets)
           (Example.props "code-snippet" "code-snippets" (Some "three"))
           false "three" Example.snippets).
  - reflexivity.
  - reflexivity.
  - repeat constructor; intros H; vm_compute in H; try discriminate;
      eexists; vm_compute; reflexivity.
Defined.

(** C7, counterexample to the claim for a new record.  The new-snippet
    editor fetches three records, two of them tagged, and its pool stays
    empty. *)
Lemma initializeMetadata_new_record_unseeded :
  ~ tagsSeeded Example.snippets Example.newSnippet.
Proof.
  intros (_ & H & _). destruct (H "a") as [_ Hin].
  assert ("a" ∈ strings (allTags Example.newSnippet)) as Ha.
  { apply Hin. eexists. split.
    - apply elem_of_cons. right. apply elem_of_cons. left. reflexivity.
    - vm_compute. apply elem_of_cons. now left. }
  vm_compute in Ha. now apply elem_of_nil in Ha.
Qed.

(** ** Dropdown choices and the record under edit *)

(** A field with an enum offers exactly the enum. *)
Lemma getDefaultChoices_enum w f fd choices :
  schemaGet (schema w) f = Some fd -> f_enum fd = Some choices ->
  getDefaultChoices f w = (Ok choices, w).
Proof.
  intros Hfd He. unfold getDefaultChoices, schemaEntry. js_unfold.
  now rewrite Hfd, He.
Qed.

(** C5, evaluated.  The editor is open on the snippet "three", whose
    language is "Python"; the language field has no enum and the default
    choice "x"; the other records hold "X" and "y".  The choices computed
    are the default, "y", and the "Python" of the record under edit. *)
Theorem getDefaultChoices_keeps_current :
  name Example.editThree = Some "three" /\
  (exists md,
     store Example.editThree !! metadata Example.editThree = Some (ODict md) /\
     md !! "language" = Some (VStr "Python")) /\
  fst (getDefaultChoices "language" Example.editThree) =
    Ok [VStr "x"; VStr "y"; VStr "Python"].
Proof.
  split; [reflexivity|]. split; [|vm_compute; reflexivity].
  eexists. split; [vm_compute; reflexivity|]. vm_compute. reflexivity.
Qed.

Lemma refsOk_ext w w' :
  store w' = store w -> metadata w' = metadata w ->
  allMetadata w' = allMetadata w -> refsOk w -> refsOk w'.
Proof. unfold refsOk. intros -> -> ->. auto. Qed.

Lemma refsOk_writeDict w l d d' :
  store w !! l = Some (ODict d) ->
  refsOk w -> refsOk (set_store (<[l := ODict d']> (store w)) w).
Proof.
  intros Hl [[md Hmd] Hrec].
  assert (l < length (store w)) as Hlt by (eapply lookup_lt_Some; eauto).
  assert (forall k e, store w !! k = Some (ODict e) ->
            exists e', <[l := ODict d']> (store w) !! k = Some (ODict e'))
    as Hdict.
  { intros k e Hk. destruct (decide (k = l)) as [->|Hne].
    - rewrite list_lookup_insert_eq by assumption. eauto.
    - rewrite list_lookup_insert_ne by congruence. eauto. }
  split; cbn.
  - eapply Hdict; eauto.
  - intros k Hk. destruct (Hrec k Hk) as (n & dn & m & e & Hr & Hm).
    destruct (Hdict m e Hm) as [e' He'].
    exists n, dn, m, e'. split; [|exact He'].
    rewrite list_lookup_insert_ne by congruence. exact Hr.
Qed.

Lemma refsOk_set_metadata w m d :
  store w !! m = Some (ODict d) -> refsOk w -> refsOk (set_metadata m w).
Proof. intros Hm [_ Hrec]. split; cbn; eauto. Qed.

Lemma seedFrom_refs l w o w' :
  seedFrom l w = (o, w') -> refsOk w -> refsOk w'.
Proof.
  unfold seedFrom, readRecord, readDict, writeDict. js_unfold. intros H Hok.
  destruct (store w !! l) as [[n dn m|]|]; cbn in H;
    try (injection H as _ <-; exact Hok).
  destruct (store w !! m) as [[|md]|] eqn:Hm; cbn in H;
    try (injection H as _ <-; exact Hok).
  assert (forall w1 w2 o2,
            refsOk w1 -> store w1 !! m <> None ->
            (exists e, store w1 !! m = Some (ODict e)) ->
            (if bool_decide (name w1 = Some n)
             then fun w0 =>
                    (Ok tt, set_titleLabel dn
                              (set_displayName dn (set_metadata m w0)))
             else fun w0 => (Ok tt, w0)) w1 = (o2, w2) ->
            refsOk w2) as Hname.
  { intros w1 w2 o2 Hok1 _ [e He]. destruct (bool_decide _); intros [= _ <-];
      [|exact Hok1].
    eapply refsOk_ext; [| | |eapply (refsOk_set_metadata _ _ _ He Hok1)];
      reflexivity. }
  destruct (Js.truthy (dictGet md "tags")).
  - destruct (forOf (dictGet md "tags") addTag w) as [o1 w1] eqn:Hfor.
    assert (refsOk w1 /\ store w1 = store w) as [Hok1 Hs1].
    { unfold forOf in Hfor.
      destruct (dictGet md "tags"); try (injection Hfor as _ <-; auto; fail);
        rewrite forEach_addTag in Hfor; injection Hfor as _ <-;
        (split; [now apply (refsOk_ext w)|reflexivity]). }
    destruct o1 as [[]|]; [|injection H as _ <-; exact Hok1].
    eapply Hname; [exact Hok1| | |exact H]; rewrite Hs1, Hm; eauto.
  - cbn in H. eapply Hname; [| | |exact H]; cbn.
    + eapply refsOk_writeDict; eauto.
    + rewrite list_lookup_insert_eq by (eapply lookup_lt_Some; eauto). congruence.
    + rewrite list_lookup_insert_eq by (eapply lookup_lt_Some; eauto). eauto.
Qed.

Lemma onInitializedMetadata_refs w o w' :
  onInitializedMetadata w = (o, w') -> refsOk w -> refsOk w'.
Proof.
  unfold onInitializedMetadata, readDict, writeDict, joinLines. js_unfold.
  intros H Hok. revert H.
  destruct (editor w); [intros [= _ <-]; exact Hok|].
  destruct (codeNode w); cbn beta; [|intros [= _ <-]; exact Hok].
  destruct (editorServices w); cbn beta; [|intros [= _ <-]; exact Hok].
  destruct (store w !! metadata w) as [[|md]|] eqn:Hmd;
    try (destruct (truthyStr (name w)); [|destruct (code w)]; cbn;
         rewrite ?Hmd; cbn; intros [= _ <-]; exact Hok).
  destruct (truthyStr (name w)); [|destruct (code w)]; cbn; rewrite ?Hmd; cbn.
  - destruct (dictGet md "code"); cbn; rewrite ?Hmd; cbn; intros [= _ <-];
      exact Hok.
  - rewrite list_lookup_insert_eq by (eapply lookup_lt_Some; eauto).
    cbn. intros [= _ <-].
    apply (refsOk_writeDict _ _ _ _ Hmd Hok).
  - intros [= _ <-]. exact Hok.
Qed.

Lemma preservesRefs_bind {A B : Type} (c : M A) (k : A -> M B) :
  preservesRefs c -> (forall a, preservesRefs (k a)) ->
  preservesRefs (bind c k).
Proof.
  intros Hc Hk w o w'. unfold bind.
  destruct (c w) as [[a|] w1] eqn:E; intros H Hok.
  - eapply Hk; eauto.
  - injection H as _ <-. eauto.
Qed.

Lemma preservesRefs_tryCatch (c handler : M unit) :
  preservesRefs c -> preservesRefs handler ->
  preservesRefs (tryCatch c handler).
Proof.
  intros Hc Hh w o w'. unfold tryCatch.
  destruct (c w) as [[a|] w1] eqn:E; intros H Hok.
  - injection H as _ <-. eauto.
  - eapply Hh; eauto.
Qed.

Lemma preservesRefs_forEach {A : Type} (body : A -> M unit) l :
  (forall x, preservesRefs (body x)) -> preservesRefs (forEach l body).
Proof.
  intros Hb w o w' H.
  eapply (forEach_preserves (fun w w' => refsOk w -> refsOk w')); eauto.
Qed.

Lemma preservesRefs_emit e : preservesRefs (emit e).
Proof. intros w o w' [= _ <-]. now apply refsOk_ext. Qed.

Lemma preservesRefs_get : preservesRefs get.
Proof. intros w o w' [= _ <-]. auto. Qed.

Lemma preservesRefs_await {A : Type} (r : response A) :
  preservesRefs (await r).
Proof. destruct r; intros w o w' [= _ <-]; auto. Qed.

Lemma locsOf_lookup records :
  forall base i l,
    locsOf base records !! i = Some l -> exists r, records !! i = Some r.
Proof.
  induction records as [|r records IH]; intros base [|i] l; cbn;
    try discriminate; eauto.
Qed.

Lemma preservesRefs_allocRecords records :
  preservesRefs
    (bind (allocRecords records) (fun ls => modify (set_allMetadata ls))).
Proof.
  intros w o w'. unfold bind. rewrite allocRecords_run. intros [= _ <-].
  intros [[md Hmd] _]. split; cbn.
  - exists md. now apply lookup_app_l_Some.
  - intros l Hl. apply list_elem_of_lookup in Hl as [i Hi].
    destruct (locsOf_lookup _ _ _ _ Hi) as [r Hr].
    destruct (store_layout_lookup id (store w) records i r Hr)
      as (l' & m & Hl' & Hrec & Hdict).
    assert (l' = l) as -> by congruence. eauto 6.
Qed.

(** Initialisation leaves [this.metadata] a dictionary and every member
    of [allMetadata] a record, so that no member of [allMetadata] is ever
    the object [this.metadata]: the test of line 375 is always true. *)
Lemma initializeMetadata_refs (service : MetadataService) :
  preservesRefs (initializeMetadata service).
Proof.
  unfold initializeMetadata.
  apply preservesRefs_bind; [|intros _; apply preservesRefs_bind; [|intros _]].
  - apply preservesRefs_tryCatch; [|apply preservesRefs_emit].
    apply preservesRefs_bind; [apply preservesRefs_get|intros w0].
    apply preservesRefs_bind; [apply preservesRefs_await|intros schemas].
    intros w o w' H. apply selectSchema_keeps in H as (Hs & _ & Ha & Hm & _).
    now apply refsOk_ext.
  - apply preservesRefs_tryCatch; [|apply preservesRefs_emit].
    apply preservesRefs_bind; [apply preservesRefs_get|intros w0].
    apply preservesRefs_bind; [apply preservesRefs_await|intros records].
    apply preservesRefs_allocRecords.
  - apply preservesRefs_bind; [apply preservesRefs_get|intros w0].
    apply preservesRefs_bind; [|intros _; apply preservesRefs_bind;
                                 [|intros _; apply preservesRefs_emit]].
    + destruct (truthyStr (name w0)).
      * apply preservesRefs_forEach. intros l w o w'. apply seedFrom_refs.
      * intros w o w' [= _ <-]. now apply refsOk_ext.
    + intros w o w'. apply onInitializedMetadata_refs.
Qed.

Lemma construct_refs props codeNode : refsOk (construct props codeNode).
Proof.
  split; cbn; [eauto|]. intros l Hl. now apply elem_of_nil in Hl.
Qed.

Lemma refsOk_distinct w l :
  refsOk w -> l ∈ allMetadata w -> Nat.eqb l (metadata w) = false.
Proof.
  intros [[md Hmd] Hrec] Hl. apply Nat.eqb_neq. intros ->.
  destruct (Hrec _ Hl) as (n & dn & m & e & Hr & _). congruence.
Qed.

(** However the editor was opened, once initialised no record of
    [allMetadata] is left out of the dropdown choices for being the one
    under edit. *)
Lemma getDefaultChoices_never_excludes (service : MetadataService)
  props codeNode l :
  let w := snd (initializeMetadata service (construct props codeNode)) in
  l ∈ allMetadata w -> negb (Nat.eqb l (metadata w)) = true.
Proof.
  intros w Hl. rewrite (refsOk_distinct w l); [reflexivity| |exact Hl].
  subst w.
  destruct (initializeMetadata service (construct props codeNode))
    as [o w'] eqn:E.
  eapply initializeMetadata_refs; [exact E | apply construct_refs].
Qed.

(** * Further properties of the editor *)

(** ** The dirty tracker, across calls *)

(** X1. From a state that holds no handle and whose title class does not
    carry the marker, marking dirty and then clean puts the title class
    back, releases the handle and returns the host's count of dirty
    handles to what it was; only the flag (now false) and the number of
    handles ever issued differ. *)
Theorem handleDirtyState_round_trip (w : MetadataEditor) :
  clearDirty w = None ->
  Js.includes (titleClassName w) DIRTY_CLASS = false ->
  handleDirtyState false (snd (handleDirtyState true w)) =
  (Ok tt,
   set_status (mkStatus (dirtyCount (status w)) (S (issued (status w))))
     (set_dirty (Some false) w)).
Proof.
  intros Hcd Hi. unfold handleDirtyState, setDirty, dispose. js_unfold.
  cbn. rewrite Hcd. cbn. rewrite Hi. cbn.
  rewrite (replace_appended _ Hi).
  destruct w; cbn in *; now subst.
Qed.

Lemma handleDirtyState_round_trip_witness :
  handleDirtyState false
    (snd (handleDirtyState true (Example.opened
            (Example.service [Example.runtimeSchema] [])
            (Example.props "kfp" "runtimes" None)))) =
  (Ok tt,
   set_status (mkStatus 0 1)
     (set_dirty (Some false)
        (Example.opened (Example.service [Example.runtimeSchema] [])
           (Example.props "kfp" "runtimes" None)))).
Proof.
  apply (handleDirtyState_round_trip
           (Example.opened (Example.service [Example.runtimeSchema] [])
              (Example.props "kfp" "runtimes" None)));
    reflexivity.
Defined.

(** What the handlers do after [handleDirtyState(true)] leaves the tracker
    alone. *)
Lemma trackerState_frame w w' :
  dirty w' = dirty w -> clearDirty w' = clearDirty w ->
  titleClassName w' = titleClassName w ->
  trackerState w' = trackerState w.
Proof. unfold trackerState. now intros -> -> ->. Qed.

(** X2. Every edit leaves the tracker Dirty, whatever the state it starts
    from and whether or not the handler runs to its end: a text-input
    change, a dropdown change and a change of tags. *)
Theorem edits_mark_dirty (w : MetadataEditor) :
  (forall v f, trackerState (snd (handleTextInputChange v f w)) = Some true) /\
  (forall f v, trackerState (snd (handleDropdownChange f v w)) = Some true) /\
  (forall sel pool,
     trackerState (snd (handleChangeOnTag sel pool w)) = Some true).
Proof.
  pose proof (handleDirtyState_enters_dirty w) as Hd.
  destruct (handleDirtyState_frame true w) as (w1 & Hrun & _).
  rewrite Hrun in Hd. cbn in Hd.
  repeat split.
  - intros v f. unfold handleTextInputChange.
    rewrite (bind_ok _ _ _ _ _ Hrun).
    unfold requiredIncludes, readDict, writeDict. js_unfold.
    destruct (String.eqb f "display_name"); cbn; [exact Hd|].
    destruct (Js.truthy v); cbn;
      [|destruct (requiredFields w1); cbn; [|exact Hd];
        destruct (negb _)];
      destruct (store w1 !! metadata w1) as [[|md]|]; cbn; exact Hd.
  - intros f v. unfold handleDropdownChange.
    rewrite (bind_ok _ _ _ _ _ Hrun).
    unfold readDict, writeDict. js_unfold.
    destruct (store w1 !! metadata w1) as [[|md]|]; cbn; try exact Hd.
    destruct (String.eqb f "language"); cbn; [|exact Hd].
    destruct (editorServices w1), (editor w1); cbn; exact Hd.
  - intros sel pool. unfold handleChangeOnTag.
    rewrite (bind_ok _ _ _ _ _ Hrun).
    unfold readDict, writeDict. js_unfold.
    destruct (store w1 !! metadata w1) as [[|md]|]; cbn; exact Hd.
Qed.

(** X3. When a save is acknowledged on an editor whose title class is some
    class followed by the marker, the callback ends with the tracker Clean
    and the class restored, reports [onSave] and then closes, in that
    order, and leaves the record and the display name alone. *)
Theorem saveResolved_cleans (w : MetadataEditor) (cls : string) :
  titleClassName w = (cls ++ DIRTY_CLASS)%string ->
  Js.includes cls DIRTY_CLASS = false ->
  exists w',
    saveResolved w = (Ok tt, w') /\
    trackerState w' = Some false /\
    titleClassName w' = cls /\
    log w' = log w ++ [OnSave; Close] /\
    store w' = store w /\ displayName w' = displayName w.
Proof.
  intros Hcls Hi. unfold saveResolved, handleDirtyState, dispose, trackerState.
  js_unfold. cbn.
  destruct (clearDirty w) eqn:Hcd; cbn; rewrite Hcls, (replace_appended _ Hi);
    (eexists; split; [reflexivity|]); cbn; rewrite Hi, <- app_assoc, ?Hcd;
    repeat split.
Qed.

Lemma saveResolved_cleans_witness :
  exists w',
    saveResolved (Example.after saveMetadata Example.newRuntime) = (Ok tt, w') /\
    trackerState w' = Some false /\
    titleClassName w' = "" /\
    log w' = log (Example.after saveMetadata Example.newRuntime)
             ++ [OnSave; Close] /\
    store w' = store (Example.after saveMetadata Example.newRuntime) /\
    displayName w' = displayName (Example.after saveMetadata Example.newRuntime).
Proof.
  apply (saveResolved_cleans (Example.after saveMetadata Example.newRuntime) "");
    reflexivity.
Defined.

(** ** Saving and validation *)

(** X4. When validation throws, the save throws with it: no request is
    sent, nothing is re-rendered, and the record is as it was. *)
Theorem saveMetadata_faults_silently (w w' : MetadataEditor) :
  hasInvalidFields w = (Throw, w') ->
  saveMetadata w = (Throw, w') /\ log w' = log w /\ store w' = store w.
Proof.
  intros Hv. pose proof (hasInvalidFields_frame _ _ _ Hv) as Hf.
  apply validationFrame_fields in Hf as (Hs & _ & Hl & _).
  split; [|auto]. unfold saveMetadata, bind, get. now rewrite Hv.
Qed.

Lemma saveMetadata_faults_silently_witness :
  saveMetadata Example.editThree =
    (Throw, snd (hasInvalidFields Example.editThree)) /\
  log (snd (hasInvalidFields Example.editThree)) = log Example.editThree /\
  store (snd (hasInvalidFields Example.editThree)) = store Example.editThree.
Proof.
  apply (saveMetadata_faults_silently Example.editThree).
  vm_compute. reflexivity.
Defined.

(** X5. With the required fields loaded and [uihints] on every field,
    validation returns, and finds the form invalid exactly when the display
    name is null or the empty string, or some required field is empty once
    a falsy stored value has given way to the schema default.  An undefined
    display name does not count. *)
Theorem hasInvalidFields_verdict (w : MetadataEditor) (r : list string)
  (md : gmap string value) :
  requiredFields w = Some r ->
  store w !! metadata w = Some (ODict md) ->
  (forall f fd, schemaGet (schema w) f = Some fd -> is_Some (f_uihints fd)) ->
  exists invalid w',
    hasInvalidFields w = (Ok invalid, w') /\
    invalidForm w' = invalid /\
    (invalid = true <->
     displayName w = VNull \/ displayName w = VStr "" \/
     exists f fd,
       schemaGet (schema w) f = Some fd /\ In f r /\
       isValueEmpty (Js.or (dictGet md f) (f_default fd)) = true).
Proof.
  intros Hr Hmd Hui.
  destruct (hasInvalidFields_run w r md Hr Hmd Hui) as (w' & Hrun & _ & Hinv).
  exists (invalidForm w'), w'. split; [exact Hrun|]. split; [reflexivity|].
  rewrite Hinv, !orb_true_iff, existsb_exists. split.
  - intros [[Hn|Hn]|(f & Hin & Hflag)].
    + left. now destruct (displayName w).
    + right. left. destruct (displayName w); try discriminate.
      cbn in Hn. apply String.eqb_eq in Hn. now subst.
    + right. right. unfold keyFlag in Hflag.
      destruct (schemaGet (schema w) f) as [fd|] eqn:Hfd; [|discriminate].
      unfold fieldFlag in Hflag. apply andb_true_iff in Hflag as [Hreq He].
      exists f, fd. repeat split; auto. now apply existsb_eqb_In.
  - intros [->|[->|(f & fd & Hfd & Hreq & He)]]; [now left; left|now left; right|].
    right. exists f. split; [apply schemaGet_In; eauto|].
    unfold keyFlag, fieldFlag. rewrite Hfd, He, andb_true_r.
    now apply existsb_eqb_In.
Qed.

Lemma hasInvalidFields_verdict_witness :
  exists invalid w',
    hasInvalidFields Example.newRuntime = (Ok invalid, w') /\
    invalidForm w' = invalid /\
    (invalid = true <->
     displayName Example.newRuntime = VNull \/
     displayName Example.newRuntime = VStr "" \/
     exists f fd,
       schemaGet (schema Example.newRuntime) f = Some fd /\
       In f ["api_endpoint"] /\
       isValueEmpty
         (Js.or (dictGet {["api_endpoint" := VStr ""]} f) (f_default fd))
       = true).
Proof.
  apply (hasInvalidFields_verdict Example.newRuntime ["api_endpoint"]
           {["api_endpoint" := VStr ""]}).
  - reflexivity.
  - reflexivity.
  - apply uihints_forallb. reflexivity.
Defined.

Lemma onlyFlags_refl w : onlyFlags w w.
Proof. unfold onlyFlags. auto using validationFrame_refl. Qed.

Lemma onlyFlags_trans w1 w2 w3 :
  onlyFlags w1 w2 -> onlyFlags w2 w3 -> onlyFlags w1 w3.
Proof.
  intros (F12 & K12 & S12) (F23 & K23 & S23). split; [|split].
  - eapply validationFrame_trans; eauto.
  - congruence.
  - intros f. now rewrite S23, S12.
Qed.

Lemma map_fst_schemaSet sch k fd :
  map fst (schemaSet sch k fd) = map fst sch.
Proof.
  induction sch as [|[k0 fd0] sch IH]; cbn; [reflexivity|].
  destruct (String.eqb k0 k); cbn; [reflexivity | now rewrite IH].
Qed.

Lemma unflagged_flagged b fd : unflagged (flagged b fd) = unflagged fd.
Proof. unfold unflagged, flagged. destruct fd as [t d df e [u|]]; reflexivity. Qed.

Lemma checkField_onlyFlags k w o w' :
  checkField k w = (o, w') -> onlyFlags w w'.
Proof.
  intros H. pose proof (checkField_frame _ _ _ _ H) as Hf.
  destruct (checkField_cases _ _ _ _ H)
    as [(_ & _ & Hs & _)|(_ & r & md & fd & u & _ & _ & Hfd & _ & ->)].
  - split; [exact Hf|]. now rewrite Hs.
  - split; [exact Hf|]. cbn. split; [apply map_fst_schemaSet|].
    intros f. rewrite schemaGet_schemaSet, Hfd.
    destruct (String.eqb_spec k f) as [<-|_]; [|reflexivity].
    rewrite Hfd. cbn. now rewrite unflagged_flagged.
Qed.

(** [hasInvalidFields] as its loop, run from the state in which
    [invalidForm] tells whether the display name is null or empty. *)
Lemma hasInvalidFields_as_loop w :
  hasInvalidFields w =
  bind (forEach (map fst (schema w)) checkField)
    (fun _ => bind get (fun w1 => ret (invalidForm w1)))
    (set_invalidForm
       (Js.isNull (displayName w) || Js.eqStr (displayName w) "") w).
Proof.
  unfold hasInvalidFields, bind, get, modify, ret. cbn.
  destruct (_ || _); reflexivity.
Qed.

Lemma hasInvalidFields_onlyFlags w : onlyFlags w (snd (hasInvalidFields w)).
Proof.
  rewrite hasInvalidFields_as_loop. unfold bind.
  set (w0 := set_invalidForm _ w).
  assert (onlyFlags w w0) as H0.
  { subst w0. split; [|split]; reflexivity. }
  destruct (forEach (map fst (schema w)) checkField w0) as [o w1] eqn:Hloop.
  assert (onlyFlags w0 w1) as H1.
  { eapply (forEach_preserves onlyFlags);
      eauto using onlyFlags_refl, onlyFlags_trans, checkField_onlyFlags. }
  destruct o as [[]|]; cbn; eapply onlyFlags_trans; eauto.
Qed.

(** X6. Whatever its outcome, validation assigns nothing but
    [invalidForm] and error flags: the record, the display name, the
    required fields and the log are untouched, the schema keeps its fields
    in their order, and each field definition is the same up to its flag. *)
Theorem hasInvalidFields_only_flags (w : MetadataEditor) :
  let w' := snd (hasInvalidFields w) in
  store w' = store w /\ metadata w' = metadata w /\
  displayName w' = displayName w /\ requiredFields w' = requiredFields w /\
  log w' = log w /\
  map fst (schema w') = map fst (schema w) /\
  forall f,
    unflagged <$> schemaGet (schema w') f = unflagged <$> schemaGet (schema w) f.
Proof.
  destruct (hasInvalidFields_onlyFlags w) as (Hf & Hk & Hs).
  apply validationFrame_fields in Hf as (a & b & c & _ & _ & _ & d & e).
  cbn zeta. auto 10.
Qed.

(** A loop of [checkField] over keys whose flags are already what it
    would write changes nothing but [invalidForm]. *)
Lemma forEach_checkField_fixed r md l :
  forall w,
    requiredFields w = Some r ->
    store w !! metadata w = Some (ODict md) ->
    (forall k, In k l ->
       exists fd u,
         schemaGet (schema w) k = Some fd /\ f_uihints fd = Some u /\
         ui_error u = VBool (fieldFlag r md k fd)) ->
    forEach l checkField w =
    (Ok tt,
     set_invalidForm (invalidForm w || existsb (keyFlag r md (schema w)) l) w).
Proof.
  induction l as [|k l IH]; intros w Hr Hmd Hfl.
  - cbn. rewrite orb_false_r. now destruct w.
  - destruct (Hfl k (or_introl eq_refl)) as (fd & u & Hfd & Hu & He).
    destruct (checkField k w) as [o w1] eqn:Hk.
    destruct (checkField_cases _ _ _ _ Hk)
      as [(_ & _ & _ & [E|[E|[(fd' & E & E')|E]]])
         |(-> & r' & md' & fd' & u' & Hr' & Hmd' & Hfd' & Hu' & Hw1)];
      try congruence; try (now apply E in Hmd).
    assert (r' = r) as -> by congruence.
    assert (md' = md) as -> by congruence.
    assert (fd' = fd) as -> by congruence.
    assert (flagged (fieldFlag r md k fd) fd = fd) as Hsame.
    { generalize dependent (fieldFlag r md k fd). intros b He _.
      unfold flagged. rewrite Hu. cbn. destruct fd as [t d df e ui].
      cbn in *. subst ui. do 2 f_equal. destruct u; cbn in *. now subst. }
    rewrite Hsame, (schemaSet_same _ _ _ Hfd) in Hw1.
    assert (w1 = set_invalidForm (invalidForm w || fieldFlag r md k fd) w)
      as Hw1' by (rewrite Hw1; now destruct w).
    cbn [forEach]. rewrite (bind_ok _ _ _ _ _ Hk), Hw1'.
    rewrite IH; cbn; auto.
    + unfold keyFlag at 2. rewrite Hfd, orb_assoc. reflexivity.
    + intros k' Hin. apply Hfl. now right.
Qed.

Lemma existsb_pointwise_in {A : Type} (g h : A -> bool) l :
  (forall x, In x l -> g x = h x) -> existsb g l = existsb h l.
Proof.
  induction l as [|x l IH]; cbn; intros E; [reflexivity|].
  rewrite E by now left. rewrite IH; [reflexivity|]. intros y Hy. apply E.
  now right.
Qed.

(** X7. Validation is idempotent: run again on the state it left, with
    nothing edited in between, it gives the same verdict and leaves that
    state exactly as it is. *)
Theorem hasInvalidFields_idempotent (w : MetadataEditor) (r : list string)
  (md : gmap string value) :
  requiredFields w = Some r ->
  store w !! metadata w = Some (ODict md) ->
  (forall f fd, schemaGet (schema w) f = Some fd -> is_Some (f_uihints fd)) ->
  exists invalid w',
    hasInvalidFields w = (Ok invalid, w') /\
    hasInvalidFields w' = (Ok invalid, w').
Proof.
  intros Hr Hmd Hui.
  destruct (hasInvalidFields_run w r md Hr Hmd Hui) as (w' & Hrun & Hsch & Hinv).
  exists (invalidForm w'), w'. split; [exact Hrun|].
  pose proof (hasInvalidFields_onlyFlags w) as (Hf & Hk & _).
  rewrite Hrun in Hf, Hk. cbn in Hf, Hk.
  apply validationFrame_fields in Hf as (Hs' & Hm' & _ & _ & _ & _ & Hdn' & Hr').
  assert (forall k, In k (map fst (schema w)) ->
            keyFlag r md (schema w') k = keyFlag r md (schema w) k /\
            exists fd u,
              schemaGet (schema w') k = Some fd /\ f_uihints fd = Some u /\
              ui_error u = VBool (fieldFlag r md k fd)) as Hkeys.
  { intros k Hin. apply schemaGet_In in Hin as [fd Hfd].
    destruct (Hui k fd Hfd) as [u Hu].
    unfold keyFlag. rewrite (Hsch k fd Hfd), Hfd. split; [reflexivity|].
    eexists _, _. split; [reflexivity|]. unfold flagged. rewrite Hu. cbn.
    split; reflexivity. }
  rewrite hasInvalidFields_as_loop, Hdn', Hk.
  set (w0 := set_invalidForm _ w').
  assert (forEach (map fst (schema w)) checkField w0 =
          (Ok tt,
           set_invalidForm
             (invalidForm w0
              || existsb (keyFlag r md (schema w0)) (map fst (schema w))) w0))
    as Hloop.
  { apply forEach_checkField_fixed; subst w0; cbn.
    - now rewrite Hr'.
    - now rewrite Hs', Hm'.
    - intros k Hin. now apply Hkeys. }
  rewrite (bind_ok _ _ _ _ _ Hloop). subst w0. unfold bind, get, ret. cbn.
  rewrite (existsb_pointwise_in _ (keyFlag r md (schema w))
             (map fst (schema w))) by (intros k Hin; now apply Hkeys).
  rewrite <- Hinv. f_equal. now destruct w'.
Qed.

Lemma hasInvalidFields_idempotent_witness :
  exists invalid w',
    hasInvalidFields Example.newRuntime = (Ok invalid, w') /\
    hasInvalidFields w' = (Ok invalid, w').
Proof.
  apply (hasInvalidFields_idempotent Example.newRuntime ["api_endpoint"]
           {["api_endpoint" := VStr ""]}).
  - reflexivity.
  - reflexivity.
  - apply uihints_forallb. reflexivity.
Defined.

(** ** Text input, edit after edit *)

(** A text-input change on a field other than [display_name], with the
    required fields loaded: the state it leaves. *)
Lemma handleTextInputChange_run w v f r md :
  requiredFields w = Some r ->
  store w !! metadata w = Some (ODict md) ->
  String.eqb f "display_name" = false ->
  exists w1,
    trackerFrame w w1 /\
    handleTextInputChange v f w =
    (Ok tt,
     set_store
       (<[metadata w :=
            ODict (if negb (Js.truthy v) && negb (existsb (String.eqb f) r)
                   then delete f md else <[f := v]> md)]> (store w)) w1).
Proof.
  intros Hr Hmd Hf.
  destruct (handleDirtyState_frame true w) as (w1 & Hd & Hfr).
  exists w1. split; [exact Hfr|].
  apply trackerFrame_fields in Hfr as (Hs & Hm & _ & Hr1 & _).
  unfold handleTextInputChange. rewrite (bind_ok _ _ _ _ _ Hd), Hf.
  rewrite <- Hs, <- Hm in *. rewrite <- Hr1 in Hr.
  unfold requiredIncludes, readDict, writeDict. js_unfold.
  destruct (Js.truthy v); cbn; rewrite ?Hr; cbn; rewrite Hmd; cbn;
    [reflexivity|].
  destruct (existsb (String.eqb f) r); reflexivity.
Qed.

(** X8. Typing any value into an optional field the record did not have,
    and then clearing the field, leaves the record exactly as it was: the
    key is gone again, not stored as the empty string. *)
Theorem handleTextInputChange_type_then_clear (w : MetadataEditor)
  (v : value) (f : string) (r : list string) (md : gmap string value) :
  requiredFields w = Some r ->
  store w !! metadata w = Some (ODict md) ->
  String.eqb f "display_name" = false ->
  existsb (String.eqb f) r = false ->
  md !! f = None ->
  exists w1 w2,
    handleTextInputChange v f w = (Ok tt, w1) /\
    handleTextInputChange (VStr "") f w1 = (Ok tt, w2) /\
    store w2 = store w /\ metadata w2 = metadata w /\
    displayName w2 = displayName w.
Proof.
  intros Hr Hmd Hf Hreq Hnone.
  destruct (handleTextInputChange_run w v f r md Hr Hmd Hf) as (w0 & Hfr0 & H1).
  rewrite Hreq, andb_true_r in H1.
  set (md1 := if negb (Js.truthy v) then delete f md else <[f := v]> md) in *.
  set (w1 := set_store (<[metadata w := ODict md1]> (store w)) w0) in *.
  apply trackerFrame_fields in Hfr0 as (Hs0 & Hm0 & _ & Hr0 & Hdn0 & _).
  assert (metadata w < length (store w)) as Hlt
    by (eapply lookup_lt_Some; eauto).
  assert (store w1 !! metadata w1 = Some (ODict md1)) as Hmd1.
  { subst w1. cbn. rewrite Hm0. now apply list_lookup_insert_eq. }
  destruct (handleTextInputChange_run w1 (VStr "") f r md1) as (w2 & Hfr2 & H2);
    [subst w1; cbn; congruence | exact Hmd1 | exact Hf |].
  rewrite Hreq in H2. cbn in H2.
  apply trackerFrame_fields in Hfr2 as (Hs2 & Hm2 & _ & _ & Hdn2 & _).
  eexists _, _. split; [exact H1|]. split; [exact H2|]. cbn.
  assert (delete f md1 = md) as ->.
  { subst md1. destruct (negb (Js.truthy v)).
    - now rewrite !delete_id by (rewrite ?delete_id; assumption).
    - now apply delete_insert_id. }
  subst w1. cbn in *. rewrite Hm2, Hm0, Hdn2, Hdn0.
  rewrite list_insert_insert_eq, list_insert_id by assumption. auto.
Qed.

Lemma handleTextInputChange_type_then_clear_witness :
  exists w1 w2,
    handleTextInputChange (VStr "bob") "user" Example.newRuntime = (Ok tt, w1) /\
    handleTextInputChange (VStr "") "user" w1 = (Ok tt, w2) /\
    store w2 = store Example.newRuntime /\
    metadata w2 = metadata Example.newRuntime /\
    displayName w2 = displayName Example.newRuntime.
Proof.
  apply (handleTextInputChange_type_then_clear Example.newRuntime (VStr "bob")
           "user" ["api_endpoint"] {["api_endpoint" := VStr ""]});
    reflexivity.
Defined.

(** X9. Clearing a required field stores the empty string, and the
    validation that follows writes the field's flag from the schema
    default alone: when the default is empty too, the form is invalid and a
    save only re-renders. *)
Theorem clear_required_then_validate (w : MetadataEditor) (f : string)
  (r : list string) (md : gmap string value) (fd : FieldDef) :
  requiredFields w = Some r ->
  store w !! metadata w = Some (ODict md) ->
  (forall g gd, schemaGet (schema w) g = Some gd -> is_Some (f_uihints gd)) ->
  String.eqb f "display_name" = false ->
  existsb (String.eqb f) r = true ->
  schemaGet (schema w) f = Some fd ->
  let w1 := snd (handleTextInputChange (VStr "") f w) in
  store w1 !! metadata w1 = Some (ODict (<[f := VStr ""]> md)) /\
  exists invalid w2,
    hasInvalidFields w1 = (Ok invalid, w2) /\
    errorFlag w2 f = VBool (isValueEmpty (f_default fd)) /\
    (isValueEmpty (f_default fd) = true ->
     invalid = true /\ log (snd (saveMetadata w1)) = log w1 ++ [Update]).
Proof.
  intros Hr Hmd Hui Hf Hreq Hfd.
  destruct (handleTextInputChange_run w (VStr "") f r md Hr Hmd Hf)
    as (w0 & Hfr & Hrun).
  rewrite Hreq in Hrun. cbn in Hrun. rewrite Hrun. cbn [snd].
  apply trackerFrame_fields in Hfr as (Hs0 & Hm0 & _ & Hr0 & _ & Hsch0 & _).
  set (md1 := <[f := VStr ""]> md).
  set (w1 := set_store _ w0).
  assert (store w1 !! metadata w1 = Some (ODict md1)) as Hmd1.
  { subst w1. cbn. rewrite Hm0. apply list_lookup_insert_eq.
    eapply lookup_lt_Some; eauto. }
  split; [exact Hmd1|].
  assert (schema w1 = schema w) as Hsch1 by (subst w1; cbn; exact Hsch0).
  destruct (hasInvalidFields_run w1 r md1) as (w2 & Hv & Hflags & Hinv);
    [subst w1; cbn; congruence | exact Hmd1 | now rewrite Hsch1 |].
  rewrite Hsch1 in *.
  assert (fieldFlag r md1 f fd = isValueEmpty (f_default fd)) as Hflag.
  { unfold fieldFlag, dictGet. subst md1. now rewrite Hreq, lookup_insert_eq. }
  exists (invalidForm w2), w2. split; [exact Hv|]. split.
  - destruct (Hui f fd Hfd) as [u Hu].
    unfold errorFlag. rewrite (Hflags f fd Hfd). unfold flagged.
    rewrite Hu. cbn. now rewrite Hflag.
  - intros He. assert (invalidForm w2 = true) as Hinv2.
    { rewrite Hinv. apply orb_true_iff. right. apply existsb_exists.
      exists f. split; [apply schemaGet_In; eauto|].
      unfold keyFlag. now rewrite Hfd, Hflag. }
    split; [exact Hinv2|].
    rewrite Hinv2 in Hv. now rewrite (saveMetadata_run _ _ _ _ Hv Hmd1).
Qed.

Lemma clear_required_then_validate_witness :
  let w1 := snd (handleTextInputChange (VStr "") "language"
                   Example.renderedThree) in
  store w1 !! metadata w1 =
    Some (ODict (<["language" := VStr ""]>
                   (<["language" := VStr "Python"]>
                      {["tags" := VArr [VStr "b"; VStr "c"]]}))) /\
  exists invalid w2,
    hasInvalidFields w1 = (Ok invalid, w2) /\
    errorFlag w2 "language" = VBool (isValueEmpty VUndefined) /\
    (isValueEmpty VUndefined = true ->
     invalid = true /\ log (snd (saveMetadata w1)) = log w1 ++ [Update]).
Proof.
  apply (clear_required_then_validate Example.renderedThree "language"
           ["language"]
           (<["language" := VStr "Python"]>
              {["tags" := VArr [VStr "b"; VStr "c"]]})
           (Example.field "Language" VUndefined
              (Some (Example.hints "dropdown" (Some [VStr "x"])))));
    try reflexivity.
  apply uihints_forallb. reflexivity.
Defined.

(** ** Dropdown choices *)

Lemma toLowerCase_empty s : Js.toLowerCase s = "" -> s = "".
Proof. destruct s; [reflexivity | discriminate]. Qed.

Lemma lowers_app l k : lowers (l ++ k) = lowers l ++ lowers k.
Proof. unfold lowers, strings. now rewrite omap_app, map_app. Qed.

(** What [find] tells of the choices it went through. *)
Lemma findChoice_inv choices other w found w' :
  findChoice choices other w = (Ok found, w') ->
  w' = w /\
  (Js.truthy found = false -> Js.truthy other = true ->
   forall so, other = VStr so -> ~ In (Js.toLowerCase so) (lowers choices)) /\
  (Js.truthy found = true ->
   exists so, other = VStr so /\ In (Js.toLowerCase so) (lowers choices)).
Proof.
  revert w found w'. induction choices as [|c choices IH]; intros w found w'.
  - cbn. intros [= <- <-]. split; [reflexivity|]. split; [auto|discriminate].
  - cbn. unfold toLowerCaseOf. js_unfold.
    destruct c as [| | | |sc| |]; cbn; try discriminate.
    destruct other as [| | | |so| |]; cbn; try discriminate.
    destruct (String.eqb_spec (Js.toLowerCase sc) (Js.toLowerCase so)) as [E|E].
    + intros [= <- <-]. split; [reflexivity|]. split.
      * cbn. intros Hsc Hso. apply negb_false_iff, String.eqb_eq in Hsc.
        subst sc. cbn in E. symmetry in E. apply toLowerCase_empty in E.
        subst so. discriminate.
      * intros _. exists so. split; [reflexivity|]. left. exact E.
    + intros H. destruct (IH _ _ _ H) as (-> & Hno & Hyes).
      split; [reflexivity|]. split.
      * intros Hf Ht so' [= <-] [Hin|Hin]; [congruence|].
        eapply Hno; eauto.
      * intros Ht. destruct (Hyes Ht) as (so' & [= <-] & Hin).
        exists so. split; [reflexivity|]. now right.
Qed.

(** Every way a turn of the loop of [getDefaultChoices] can end well. *)
Lemma addChoice_inv f choices l w choices' w' :
  addChoice f choices l w = (Ok choices', w') ->
  w' = w /\
  ((choices' = choices /\
    (l = metadata w \/
     exists x, recordValue w l f x /\
       (Js.truthy x = false \/
        exists so, x = VStr so /\ In (Js.toLowerCase so) (lowers choices))))
   \/
   (exists x, choices' = choices ++ [x] /\ l <> metadata w /\
      recordValue w l f x /\ Js.truthy x = true /\
      forall so, x = VStr so -> ~ In (Js.toLowerCase so) (lowers choices))).
Proof.
  unfold addChoice, readRecord, readDict, recordValue. js_unfold.
  destruct (Nat.eqb_spec l (metadata w)) as [->|Hne]; cbn.
  - intros [= <- <-]. auto.
  - destruct (store w !! l) as [[n dn m|]|] eqn:Hl; cbn; try discriminate.
    destruct (store w !! m) as [[|md]|] eqn:Hm; cbn; try discriminate.
    destruct (Js.truthy (dictGet md f)) eqn:Ht.
    + destruct (findChoice choices (dictGet md f) w) as [[found|] w1] eqn:Hfind;
        [|discriminate].
      destruct (findChoice_inv _ _ _ _ _ Hfind) as (-> & Hno & Hyes).
      destruct (Js.truthy found) eqn:Hfound; cbn; intros [= <- <-];
        (split; [reflexivity|]).
      * left. split; [reflexivity|]. right. exists (dictGet md f).
        split; [eauto 7|]. right. apply Hyes. reflexivity.
      * right. exists (dictGet md f). repeat split; eauto 7.
    + intros [= <- <-]. split; [reflexivity|]. left. split; [reflexivity|].
      right. exists (dictGet md f). split; [eauto 7|]. now left.
Qed.

Lemma recordValue_functional w l f x y :
  recordValue w l f x -> recordValue w l f y -> x = y.
Proof.
  intros (n & dn & m & md & Hl & Hm & <-) (n' & dn' & m' & md' & Hl' & Hm' & <-).
  congruence.
Qed.

Lemma lowers_singleton x :
  lowers [x] = match x with VStr so => [Js.toLowerCase so] | _ => [] end.
Proof. now destruct x. Qed.

(** The loop of [getDefaultChoices] when it ends well: it assigns
    nothing; it only appends; what it appends are truthy values of the
    records it was given; it appends no string equal up to case to a choice
    already there; and every non-empty string a record holds ends up
    represented up to case. *)
Lemma collectChoices_inv f others :
  forall choices w choices' w',
    collectChoices f others choices w = (Ok choices', w') ->
    w' = w /\
    exists added,
      choices' = choices ++ added /\
      (forall x, In x added ->
         Js.truthy x = true /\
         exists l, In l others /\ l <> metadata w /\ recordValue w l f x) /\
      (NoDup (lowers choices) -> NoDup (lowers choices')) /\
      (forall l so,
         In l others -> l <> metadata w ->
         recordValue w l f (VStr so) -> so <> "" ->
         In (Js.toLowerCase so) (lowers choices')).
Proof.
  induction others as [|l others IH]; intros choices w choices' w'; cbn.
  - intros [= <- <-]. split; [reflexivity|]. exists [].
    rewrite app_nil_r. repeat split; auto; intros; contradiction.
  - unfold bind.
    destruct (addChoice f choices l w) as [[choices1|] w1] eqn:Hadd;
      [|discriminate].
    destruct (addChoice_inv _ _ _ _ _ _ Hadd) as (-> & Hstep).
    intros Hrest.
    destruct (IH _ _ _ _ Hrest) as (-> & added & -> & Hprov & Hnd & Hcov).
    split; [reflexivity|].
    destruct Hstep as [(-> & Hskip)|(x & -> & Hne & Hrv & Ht & Hfresh)].
    + exists added. split; [reflexivity|]. split; [|split; [exact Hnd|]].
      * intros y Hy. destruct (Hprov y Hy) as (Hty & l' & Hl' & Hr').
        split; [exact Hty|]. exists l'. split; [now right | exact Hr'].
      * intros l' so [<-|Hin] Hne Hrv Hso; [|eapply Hcov; eauto].
        destruct Hskip as [E|(x & Hx & Hcase)]; [congruence|].
        rewrite (recordValue_functional _ _ _ _ _ Hx Hrv) in Hcase.
        destruct Hcase as [Hf|(so' & [= <-] & Hin)].
        -- cbn in Hf. apply negb_false_iff, String.eqb_eq in Hf. congruence.
        -- rewrite lowers_app. apply in_or_app. now left.
    + exists (x :: added). split; [now rewrite <- app_assoc|].
      split; [|split].
      * intros y [<-|Hy]; [split; [exact Ht|]; exists l; auto|].
        destruct (Hprov y Hy) as (Hty & l' & Hl' & Hr').
        split; [exact Hty|]. exists l'. split; [now right | exact Hr'].
      * intros Hnd0. apply Hnd. rewrite lowers_app, lowers_singleton.
        destruct x as [| | | |so| |]; rewrite ?app_nil_r; try exact Hnd0.
        apply NoDup_app. split; [exact Hnd0|]. split; [|apply NoDup_singleton].
        intros s Hs Hs'. apply list_elem_of_singleton in Hs' as ->.
        apply list_elem_of_In in Hs. eapply Hfresh; eauto.
      * intros l' so [<-|Hin] Hne' Hrv' Hso; [|eapply Hcov; eauto].
        rewrite (recordValue_functional _ _ _ _ _ Hrv Hrv').
        rewrite !lowers_app. apply in_or_app. left. apply in_or_app. right.
        now left.
Qed.

(** X10. For a field without an enum, when [getDefaultChoices] returns it
    has assigned nothing, and its result is the schema's default choices,
    in their order, followed only by truthy values that records of
    [allMetadata] other than the object [this.metadata] hold for the
    field. *)
Theorem getDefaultChoices_extends_defaults (w w' : MetadataEditor)
  (f : string) (fd : FieldDef) (choices : list value) :
  schemaGet (schema w) f = Some fd ->
  f_enum fd = None ->
  getDefaultChoices f w = (Ok choices, w') ->
  w' = w /\
  exists u added,
    f_uihints fd = Some u /\
    choices = default [] (ui_default_choices u) ++ added /\
    forall x, In x added ->
      Js.truthy x = true /\
      exists l, In l (allMetadata w) /\ l <> metadata w /\ recordValue w l f x.
Proof.
  intros Hfd He. unfold getDefaultChoices, schemaEntry. js_unfold.
  rewrite Hfd, He. destruct (f_uihints fd) as [u|]; [|discriminate].
  intros H. destruct (collectChoices_inv _ _ _ _ _ _ H)
    as (-> & added & -> & Hprov & _).
  split; [reflexivity|]. exists u, added. auto.
Qed.

Lemma getDefaultChoices_extends_defaults_witness :
  Example.editThree = Example.editThree /\
  exists u added,
    f_uihints
      (Example.field "Language" VUndefined
         (Some (Example.hints "dropdown" (Some [VStr "x"])))) = Some u /\
    [VStr "x"; VStr "y"; VStr "Python"] =
      default [] (ui_default_choices u) ++ added /\
    forall x, In x added ->
      Js.truthy x = true /\
      exists l, In l (allMetadata Example.editThree) /\
        l <> metadata Example.editThree /\
        recordValue Example.editThree l "language" x.
Proof.
  apply (getDefaultChoices_extends_defaults Example.editThree
           Example.editThree "language"
           (Example.field "Language" VUndefined
              (Some (Example.hints "dropdown" (Some [VStr "x"]))))
           [VStr "x"; VStr "y"; VStr "Python"]);
    [reflexivity | reflexivity | vm_compute; reflexivity].
Defined.

(** The records of the snippet example hold ASCII strings. *)
Ltac ascii_choices_example :=
  split;
  [ cbn; repeat constructor
  | let l := fresh "l" in
    let s := fresh "s" in
    let Hin := fresh "Hin" in
    let Hl := fresh "Hl" in
    let Hm := fresh "Hm" in
    let Hx := fresh "Hx" in
    intros l s Hin (? & ? & ? & ? & Hl & Hm & Hx);
    vm_compute in Hin;
    repeat (destruct Hin as [Hin|Hin]; [subst l|]); [..|destruct Hin];
    vm_compute in Hl; injection Hl as <- <- <-;
    vm_compute in Hm; injection Hm as <-;
    vm_compute in Hx; try discriminate; injection Hx as <-; reflexivity ].

(** X11. When the default choices of a field without an enum hold no two
    strings equal up to case, neither does the result of
    [getDefaultChoices]: a record's value is never added beside a choice
    it differs from only by case.  (Case is that of [toLowerCase], stated
    for ASCII strings.) *)
Theorem getDefaultChoices_no_case_duplicates (w w' : MetadataEditor)
  (f : string) (fd : FieldDef) (u : UIHints) (choices : list value) :
  schemaGet (schema w) f = Some fd ->
  f_enum fd = None ->
  f_uihints fd = Some u ->
  asciiChoices w f (default [] (ui_default_choices u)) ->
  NoDup (lowers (default [] (ui_default_choices u))) ->
  getDefaultChoices f w = (Ok choices, w') ->
  NoDup (lowers choices).
Proof.
  intros Hfd He Hu _ Hnd. unfold getDefaultChoices, schemaEntry. js_unfold.
  rewrite Hfd, He, Hu. intros H.
  destruct (collectChoices_inv _ _ _ _ _ _ H) as (_ & added & _ & _ & Hnd' & _).
  auto.
Qed.

Lemma getDefaultChoices_no_case_duplicates_witness :
  NoDup (lowers [VStr "x"; VStr "y"; VStr "Python"]).
Proof.
  apply (getDefaultChoices_no_case_duplicates Example.editThree
           Example.editThree "language"
           (Example.field "Language" VUndefined
              (Some (Example.hints "dropdown" (Some [VStr "x"]))))
           (Example.hints "dropdown" (Some [VStr "x"]))
           [VStr "x"; VStr "y"; VStr "Python"]);
    [reflexivity | reflexivity | reflexivity | | | vm_compute; reflexivity].
  - ascii_choices_example.
  - cbn. apply NoDup_singleton.
Defined.

(** X12. When [getDefaultChoices] returns for a field without an enum,
    every non-empty string that a record of [allMetadata] (other than the
    object [this.metadata]) holds for the field is among the choices up to
    case.  (Case is that of [toLowerCase], stated for ASCII strings.) *)
Theorem getDefaultChoices_covers_records (w w' : MetadataEditor)
  (f : string) (fd : FieldDef) (u : UIHints) (choices : list value)
  (l : nat) (so : string) :
  schemaGet (schema w) f = Some fd ->
  f_enum fd = None ->
  f_uihints fd = Some u ->
  asciiChoices w f (default [] (ui_default_choices u)) ->
  getDefaultChoices f w = (Ok choices, w') ->
  In l (allMetadata w) -> l <> metadata w ->
  recordValue w l f (VStr so) -> so <> "" ->
  In (Js.toLowerCase so) (lowers choices).
Proof.
  intros Hfd He Hu _. unfold getDefaultChoices, schemaEntry. js_unfold.
  rewrite Hfd, He, Hu.
  intros H. destruct (collectChoices_inv _ _ _ _ _ _ H)
    as (_ & added & _ & _ & _ & Hcov).
  intros. eapply Hcov; eauto.
Qed.

Lemma getDefaultChoices_covers_records_witness :
  In (Js.toLowerCase "X") (lowers [VStr "x"; VStr "y"; VStr "Python"]).
Proof.
  apply (getDefaultChoices_covers_records Example.editThree
           Example.editThree "language"
           (Example.field "Language" VUndefined
              (Some (Example.hints "dropdown" (Some [VStr "x"]))))
           (Example.hints "dropdown" (Some [VStr "x"]))
           [VStr "x"; VStr "y"; VStr "Python"] 2 "X");
    [reflexivity | reflexivity | reflexivity | | vm_compute; reflexivity
    | | | | ].
  - ascii_choices_example.
  - vm_compute. auto.
  - vm_compute. lia.
  - eexists _, _, _, _. split; [vm_compute; reflexivity|].
    split; [vm_compute; reflexivity|]. vm_compute. reflexivity.
  - discriminate.
Defined.

(** ** Composing what a method keeps *)

Lemma keeps_bind {A B : Type} R (c : M A) (k : A -> M B) :
  (forall w1 w2 w3, R w1 w2 -> R w2 w3 -> R w1 w3) ->
  keeps R c -> (forall a, keeps R (k a)) -> keeps R (bind c k).
Proof.
  intros Ht Hc Hk w o w'. unfold bind.
  destruct (c w) as [[a|] w1] eqn:E; intros H.
  - eapply Ht; [eapply Hc | eapply Hk]; eauto.
  - injection H as _ <-. eauto.
Qed.

Lemma keeps_tryCatch R (c handler : M unit) :
  (forall w1 w2 w3, R w1 w2 -> R w2 w3 -> R w1 w3) ->
  keeps R c -> keeps R handler -> keeps R (tryCatch c handler).
Proof.
  intros Ht Hc Hh w o w'. unfold tryCatch.
  destruct (c w) as [[a|] w1] eqn:E; intros H.
  - injection H as _ <-. eauto.
  - eapply Ht; [eapply Hc | eapply Hh]; eauto.
Qed.

Lemma keeps_forEach {A : Type} R (body : A -> M unit) l :
  (forall w, R w w) ->
  (forall w1 w2 w3, R w1 w2 -> R w2 w3 -> R w1 w3) ->
  (forall x, keeps R (body x)) -> keeps R (forEach l body).
Proof.
  intros Hr Ht Hb w o w' H. eapply (forEach_preserves R); eauto.
Qed.

Lemma keeps_pure {A : Type} R (c : M A) :
  (forall w, R w w) -> (forall w, snd (c w) = w) -> keeps R c.
Proof.
  intros Hr Hc w o w' H. specialize (Hc w). rewrite H in Hc. cbn in Hc.
  subst. apply Hr.
Qed.

(** ** The category index *)

Lemma categoryGet_categoryPush cats k x k' :
  categoryGet (categoryPush cats k x) k' =
  if String.eqb k k' then (fun l => l ++ [x]) <$> categoryGet cats k
  else categoryGet cats k'.
Proof.
  induction cats as [|[k0 l0] cats IH]; cbn.
  - now destruct (String.eqb k k').
  - destruct (String.eqb_spec k0 k) as [->|Hk0]; cbn.
    + destruct (String.eqb_spec k k'); reflexivity.
    + destruct (String.eqb_spec k0 k') as [->|Hk0'].
      * destruct (String.eqb_spec k k'); [congruence|reflexivity].
      * exact IH.
Qed.

Lemma categoryGet_app cats k l k' :
  categoryGet (cats ++ [(k, l)]) k' =
  match categoryGet cats k' with
  | Some l' => Some l'
  | None => if String.eqb k k' then Some l else None
  end.
Proof.
  induction cats as [|[k0 l0] cats IH]; cbn; [reflexivity|].
  destruct (String.eqb k0 k'); [reflexivity | exact IH].
Qed.

Lemma map_fst_categoryPush cats k x :
  map fst (categoryPush cats k x) = map fst cats.
Proof.
  induction cats as [|[k0 l0] cats IH]; cbn; [reflexivity|].
  destruct (String.eqb k0 k); cbn; [reflexivity | now rewrite IH].
Qed.

Lemma categoryGet_None cats k :
  categoryGet cats k = None -> k ∉ map fst cats.
Proof.
  induction cats as [|[k0 l0] cats IH]; cbn; [intros _; apply not_elem_of_nil|].
  destruct (String.eqb_spec k0 k) as [->|Hne]; [discriminate|].
  intros H. apply not_elem_of_cons. split; [congruence | now apply IH].
Qed.

Lemma bucket_snoc sch names p k :
  bucket sch (names ++ [p]) k =
  bucket sch names k ++ (if String.eqb (bucketOf sch p) k then [p] else []).
Proof. unfold bucket. rewrite List.filter_app. cbn. reflexivity. Qed.

(** One more property through the loop over the schema keeps the index
    an index. *)
Lemma categoryIndex_step sch names cats p :
  categoryIndex sch names cats ->
  let b := bucketOf sch p in
  categoryIndex sch (names ++ [p])
    (match categoryGet cats b with
     | Some _ => categoryPush cats b p
     | None => cats ++ [(b, [p])]
     end).
Proof.
  intros [Hnd Hget] b.
  destruct (categoryGet cats b) as [l|] eqn:Hb; split.
  - now rewrite map_fst_categoryPush.
  - intros k. rewrite categoryGet_categoryPush, Hb, existsb_app, bucket_snoc.
    cbn [existsb]. fold b. rewrite orb_false_r.
    destruct (String.eqb_spec b k) as [<-|Hne].
    + rewrite Hget in Hb. rewrite orb_true_r, orb_true_r. cbn.
      destruct (_ || _); [now injection Hb as <- | discriminate].
    + rewrite orb_false_r, app_nil_r. apply Hget.
  - rewrite map_app. cbn. apply NoDup_app. split; [exact Hnd|].
    split; [|apply NoDup_singleton].
    intros k Hk Hk'. apply list_elem_of_singleton in Hk' as ->.
    now apply categoryGet_None in Hb.
  - intros k. rewrite categoryGet_app, existsb_app, bucket_snoc.
    cbn [existsb]. fold b. rewrite orb_false_r.
    destruct (String.eqb_spec b k) as [<-|Hne].
    + rewrite Hb. rewrite Hget in Hb. rewrite !orb_true_r.
      destruct (_ || _) eqn:E; [discriminate|].
      apply orb_false_iff in E as [_ E].
      assert (bucket sch names b = []) as ->; [|reflexivity].
      unfold bucket. clear -E. induction names as [|q names IH]; [reflexivity|].
      cbn in *. apply orb_false_iff in E as [-> E]. auto.
    + rewrite orb_false_r, app_nil_r. rewrite Hget.
      now destruct (_ || _).
Qed.

Lemma categorize_run w p fd :
  schemaGet (schema w) p = Some fd ->
  is_Some (categoryGet (schemaPropertiesByCategory w) "_noCategory") ->
  categorize p w =
  (Ok tt,
   set_schemaPropertiesByCategory
     (match categoryGet (schemaPropertiesByCategory w)
              (bucketOf (schema w) p) with
      | Some _ =>
          categoryPush (schemaPropertiesByCategory w) (bucketOf (schema w) p) p
      | None =>
          schemaPropertiesByCategory w ++ [(bucketOf (schema w) p, [p])]
      end) w).
Proof.
  intros Hfd [l0 Hno]. unfold categorize, schemaEntry, bucketOf. js_unfold.
  rewrite Hfd. cbn.
  destruct (truthyStr _) as [c|]; [now destruct (categoryGet _ c)|].
  rewrite Hno. reflexivity.
Qed.

(** The loop over the properties of the schema never throws, and builds
    the index of the properties it went through. *)
Lemma forEach_categorize todo :
  forall done w,
    (forall p, In p todo -> is_Some (schemaGet (schema w) p)) ->
    categoryIndex (schema w) done (schemaPropertiesByCategory w) ->
    exists cats,
      forEach todo categorize w =
        (Ok tt, set_schemaPropertiesByCategory cats w) /\
      categoryIndex (schema w) (done ++ todo) cats.
Proof.
  induction todo as [|p todo IH]; intros done w Hin Hidx.
  - exists (schemaPropertiesByCategory w). rewrite app_nil_r. split; [|exact Hidx].
    cbn. now destruct w.
  - destruct (Hin p (or_introl eq_refl)) as [fd Hfd].
    assert (is_Some (categoryGet (schemaPropertiesByCategory w) "_noCategory"))
      as Hno by (destruct Hidx as [_ Hget]; rewrite Hget; cbn; eauto).
    pose proof (categorize_run w p fd Hfd Hno) as Hrun.
    pose proof (categoryIndex_step _ _ _ p Hidx) as Hstep. cbn zeta in Hstep.
    set (cats1 := match categoryGet _ _ with Some _ => _ | None => _ end) in *.
    destruct (IH (done ++ [p]) (set_schemaPropertiesByCategory cats1 w))
      as (cats & Hloop & Hidx'); [intros q Hq; apply Hin; now right | exact Hstep|].
    exists cats. split.
    + cbn [forEach]. rewrite (bind_ok _ _ _ _ _ Hrun), Hloop. reflexivity.
    + cbn in Hidx'. now rewrite <- app_assoc in Hidx'.
Qed.

(** The loop over the schemas of the namespace never throws: it takes
    the first schema that has the editor's schema name, and nothing when
    there is none. *)
Lemma selectSchema_run schemas :
  forall w,
    match List.find (fun s => String.eqb (schemaName w) (sd_name s)) schemas with
    | None => selectSchema schemas w = (Ok tt, w)
    | Some s =>
        exists cats,
          selectSchema schemas w =
          (Ok tt,
           set_schemaPropertiesByCategory cats
             (set_titleLabel
                (match truthyStr (name w) with
                 | Some _ => titleLabel w
                 | None => VStr ("New " ++ sd_title s)
                 end)
                (set_requiredFields (sd_required s)
                   (set_schemaDisplayName (Some (sd_title s))
                      (set_schema (sd_properties s) w))))) /\
          categoryIndex (sd_properties s) (map fst (sd_properties s)) cats
    end.
Proof.
  induction schemas as [|s schemas IH]; intros w; cbn; [reflexivity|].
  js_unfold.
  destruct (String.eqb (schemaName w) (sd_name s)); [|apply IH].
  set (w1 := set_schemaPropertiesByCategory [("_noCategory", [])]
               (set_titleLabel
                  (match truthyStr (name w) with
                   | Some _ => titleLabel w
                   | None => VStr ("New " ++ sd_title s)
                   end)
                  (set_requiredFields (sd_required s)
                     (set_schemaDisplayName (Some (sd_title s))
                        (set_schema (sd_properties s) w))))).
  destruct (forEach_categorize (map fst (sd_properties s)) [] w1)
    as (cats & Hloop & Hidx).
  - intros p Hp. now apply schemaGet_In.
  - split; [cbn; apply NoDup_singleton|]. intros k. unfold bucket.
    change (schemaPropertiesByCategory w1) with [("_noCategory", @nil string)].
    change (categoryGet [("_noCategory", [])] k)
      with (if String.eqb "_noCategory" k then Some (@nil string) else None).
    cbn [existsb List.filter].
    rewrite orb_false_r, (String.eqb_sym k). now destruct (String.eqb _ k).
  - exists cats. split; [|exact Hidx]. cbn.
    destruct (truthyStr (name w)); cbn; exact Hloop.
Qed.

(** ** Initialisation as the sequence of its parts *)

Lemma initializeMetadata_parts (service : MetadataService) w :
  initializeMetadata service w =
  (initSchema service ;;; initRecords service ;;; initSeed ;;;
   onInitializedMetadata ;;; emit Update) w.
Proof. reflexivity. Qed.

Lemma keepsSchema_refl w : keepsSchema w w.
Proof. unfold keepsSchema. auto 15. Qed.

Lemma keepsSchema_trans w1 w2 w3 :
  keepsSchema w1 w2 -> keepsSchema w2 w3 -> keepsSchema w1 w3.
Proof.
  unfold keepsSchema.
  intros (a & b & c & d & e & f & g & h & i & j & k & l & m & n)
         (a' & b' & c' & d' & e' & f' & g' & h' & i' & j' & k' & l' & m' & n').
  repeat split; congruence.
Qed.

Ltac keepsSchema_done :=
  unfold keepsSchema; cbn; repeat split; reflexivity.

Lemma keepsSchema_emit e : keeps keepsSchema (emit e).
Proof. intros w o w' [= _ <-]. keepsSchema_done. Qed.

Lemma keepsSchema_initRecords service : keeps keepsSchema (initRecords service).
Proof.
  intros w o w'. unfold initRecords, tryCatch, bind at 1, get.
  destruct (getMetadata service (namespace w)) as [records|]; cbn.
  - unfold bind. rewrite allocRecords_run. cbn. intros [= _ <-].
    keepsSchema_done.
  - intros [= _ <-]. keepsSchema_done.
Qed.

Lemma keepsSchema_modify f :
  (forall w, keepsSchema w (f w)) -> keeps keepsSchema (modify f).
Proof. intros H w o w' [= _ <-]. apply H. Qed.

Lemma keepsSchema_pure {A : Type} (c : M A) :
  (forall w, snd (c w) = w) -> keeps keepsSchema c.
Proof. apply keeps_pure, keepsSchema_refl. Qed.

Lemma keepsSchema_addTag t : keeps keepsSchema (addTag t).
Proof.
  intros w o w'. unfold addTag, bind, get.
  destruct (negb _); intros [= _ <-]; keepsSchema_done.
Qed.

Lemma keepsSchema_forOf v : keeps keepsSchema (forOf v addTag).
Proof.
  destruct v; cbn [forOf]; try (apply keepsSchema_pure; reflexivity);
    apply (keeps_forEach keepsSchema addTag _ keepsSchema_refl
             keepsSchema_trans keepsSchema_addTag).
Qed.

Lemma keepsSchema_seedFrom l : keeps keepsSchema (seedFrom l).
Proof.
  unfold seedFrom.
  apply keeps_bind; [apply keepsSchema_trans| |intros [[n dn] m]].
  { apply keepsSchema_pure. intros w. unfold readRecord.
    now destruct (store w !! l) as [[]|]. }
  apply keeps_bind; [apply keepsSchema_trans| |intros md].
  { apply keepsSchema_pure. intros w. unfold readDict.
    now destruct (store w !! m) as [[]|]. }
  apply keeps_bind; [apply keepsSchema_trans| |intros _].
  { destruct (Js.truthy _); [apply keepsSchema_forOf|].
    apply keepsSchema_modify. intros w. keepsSchema_done. }
  apply keeps_bind; [apply keepsSchema_trans| |intros w].
  { apply keepsSchema_pure. reflexivity. }
  destruct (bool_decide _); [|apply keepsSchema_pure; reflexivity].
  repeat (apply keeps_bind; [apply keepsSchema_trans| |intros _]);
    apply keepsSchema_modify; intros w0; keepsSchema_done.
Qed.

Lemma keepsSchema_initSeed : keeps keepsSchema initSeed.
Proof.
  intros w o w'. unfold initSeed, bind at 1, get.
  destruct (truthyStr (name w)).
  - apply (keeps_forEach keepsSchema seedFrom _ keepsSchema_refl
             keepsSchema_trans keepsSchema_seedFrom).
  - intros [= _ <-]. keepsSchema_done.
Qed.

(** Creating the code editor assigns [editor], and the [code] of the
    record when the editor is new and was given code; nothing else. *)
Lemma onInitializedMetadata_frame w o w' :
  onInitializedMetadata w = (o, w') ->
  w' = set_editor (editor w') (set_store (store w') w).
Proof.
  unfold onInitializedMetadata, readDict, writeDict, joinLines. js_unfold.
  destruct (editor w) eqn:He; [intros [= _ <-]; now destruct w|].
  destruct (codeNode w); cbn beta; [|intros [= _ <-]; now destruct w].
  destruct (editorServices w); cbn beta; [|intros [= _ <-]; now destruct w].
  destruct (store w !! metadata w) as [[|md]|] eqn:Hmd;
    try (destruct (truthyStr (name w)); [|destruct (code w)]; cbn;
         rewrite ?Hmd; cbn; intros [= _ <-]; now destruct w).
  destruct (truthyStr (name w)); [|destruct (code w)]; cbn; rewrite ?Hmd; cbn.
  - destruct (dictGet md "code"); cbn; rewrite ?Hmd; cbn; intros [= _ <-];
      now destruct w.
  - rewrite list_lookup_insert_eq by (eapply lookup_lt_Some; eauto).
    cbn. intros [= _ <-]. reflexivity.
  - intros [= _ <-]. now destruct w.
Qed.

Lemma keepsSchema_onInitializedMetadata : keeps keepsSchema onInitializedMetadata.
Proof.
  intros w o w' H. apply onInitializedMetadata_frame in H. rewrite H.
  keepsSchema_done.
Qed.

(** Everything after the loading of the schema keeps the schema. *)
Lemma keepsSchema_after_schema service :
  keeps keepsSchema
    (initRecords service ;;; initSeed ;;; onInitializedMetadata ;;; emit Update).
Proof.
  repeat (apply keeps_bind; [apply keepsSchema_trans| |intros _]);
    auto using keepsSchema_initRecords, keepsSchema_initSeed,
      keepsSchema_onInitializedMetadata, keepsSchema_emit.
Qed.

(** ** Loading the schema *)

(** The first part of initialisation never throws: a rejected request is
    reported, and the loop over the schemas runs to its end or to the
    first match. *)
Lemma initSchema_run (service : MetadataService) w :
  initSchema service w =
  match getSchema service (namespace w) with
  | Resolved schemas => selectSchema schemas w
  | Rejected => (Ok tt, set_log (log w ++ [ServerError]) w)
  end.
Proof.
  unfold initSchema, tryCatch, bind, get.
  destruct (getSchema service (namespace w)) as [schemas|]; cbn; [|reflexivity].
  pose proof (selectSchema_run schemas w) as H.
  destruct (List.find _ schemas); [destruct H as (cats & -> & _)|rewrite H];
    reflexivity.
Qed.

(** X13. When the namespace has a schema of the requested name,
    initialisation ends, however the rest of it goes, with the properties,
    the title and the required list of the first such schema, and with a
    category index over exactly its properties: [_noCategory] is there,
    every category some property has is there once, and each bucket lists
    its properties in schema order. *)
Theorem initializeMetadata_loads_schema (service : MetadataService)
  (w : MetadataEditor) (schemas : list SchemaDef) (s : SchemaDef) :
  getSchema service (namespace w) = Resolved schemas ->
  List.find (fun s => String.eqb (schemaName w) (sd_name s)) schemas = Some s ->
  let w' := snd (initializeMetadata service w) in
  schema w' = sd_properties s /\
  schemaDisplayName w' = Some (sd_title s) /\
  requiredFields w' = sd_required s /\
  categoryIndex (sd_properties s) (map fst (sd_properties s))
    (schemaPropertiesByCategory w').
Proof.
  intros Hg Hf w'. subst w'.
  pose proof (selectSchema_run schemas w) as Hsel. rewrite Hf in Hsel.
  destruct Hsel as (cats & Hsel & Hidx).
  pose proof (initSchema_run service w) as Hrun. rewrite Hg, Hsel in Hrun.
  rewrite initializeMetadata_parts, (bind_ok _ _ _ _ _ Hrun).
  set (w1 := set_schemaPropertiesByCategory _ _).
  destruct ((initRecords service ;;; initSeed ;;; onInitializedMetadata ;;;
             emit Update) w1) as [o w'] eqn:E.
  apply keepsSchema_after_schema in E as (a & b & c & d & _).
  cbn [snd]. rewrite a, b, c, d. subst w1. cbn. auto.
Qed.

Lemma initializeMetadata_loads_schema_witness :
  let w' := Example.opened
              (Example.service [Example.looseSchema; Example.runtimeSchema] [])
              (Example.props "kfp" "runtimes" None) in
  schema w' = sd_properties Example.looseSchema /\
  schemaDisplayName w' = Some (sd_title Example.looseSchema) /\
  requiredFields w' = sd_required Example.looseSchema /\
  categoryIndex (sd_properties Example.looseSchema)
    (map fst (sd_properties Example.looseSchema))
    (schemaPropertiesByCategory w').
Proof.
  apply (initializeMetadata_loads_schema
           (Example.service [Example.looseSchema; Example.runtimeSchema] [])
           (construct (Example.props "kfp" "runtimes" None) false)
           [Example.looseSchema; Example.runtimeSchema] Example.looseSchema);
    reflexivity.
Defined.

(** X14. When the schema request is rejected, or no schema of the
    namespace has the requested name, a constructed editor is left with
    the empty schema of its field initialisers and no required list; the
    validation of such an editor cannot throw, and judges the form by the
    display name alone. *)
Theorem initializeMetadata_unknown_schema (service : MetadataService)
  (props : IMetadataEditorProps) (codeNode : bool) :
  (forall schemas,
     getSchema service (props_namespace props) = Resolved schemas ->
     List.find (fun s => String.eqb (props_schema props) (sd_name s)) schemas
     = None) ->
  let w' := snd (initializeMetadata service (construct props codeNode)) in
  schema w' = [] /\ requiredFields w' = None /\
  schemaDisplayName w' = None /\ schemaPropertiesByCategory w' = [] /\
  fst (hasInvalidFields w') =
    Ok (Js.isNull (displayName w') || Js.eqStr (displayName w') "").
Proof.
  intros Hno w'. subst w'. set (w := construct props codeNode).
  assert (exists w1, initSchema service w = (Ok tt, w1) /\ keepsSchema w w1)
    as (w1 & Hrun & H1).
  { rewrite initSchema_run.
    destruct (getSchema service (namespace w)) as [schemas|] eqn:Hg.
    - pose proof (selectSchema_run schemas w) as Hsel.
      change (schemaName w) with (props_schema props) in Hsel.
      rewrite (Hno schemas Hg) in Hsel. exists w.
      auto using keepsSchema_refl.
    - eexists. split; [reflexivity|]. keepsSchema_done. }
  rewrite initializeMetadata_parts, (bind_ok _ _ _ _ _ Hrun).
  destruct ((initRecords service ;;; initSeed ;;; onInitializedMetadata ;;;
             emit Update) w1) as [o w'] eqn:E.
  apply keepsSchema_after_schema in E.
  pose proof (keepsSchema_trans _ _ _ H1 E) as (a & b & c & d & _).
  cbn [snd]. rewrite a, b, c, d. repeat split.
  unfold hasInvalidFields, bind, get, modify. cbn. rewrite a.
  now destruct (Js.isNull (displayName w') || Js.eqStr (displayName w') "").
Qed.

Lemma initializeMetadata_unknown_schema_witness :
  let w' := Example.opened (Example.service [Example.snippetSchema] [])
              (Example.props "kfp" "runtimes" None) in
  schema w' = [] /\ requiredFields w' = None /\
  schemaDisplayName w' = None /\ schemaPropertiesByCategory w' = [] /\
  fst (hasInvalidFields w') =
    Ok (Js.isNull (displayName w') || Js.eqStr (displayName w') "").
Proof.
  apply (initializeMetadata_unknown_schema
           (Example.service [Example.snippetSchema] [])
           (Example.props "kfp" "runtimes" None) false).
  intros schemas [= <-]. reflexivity.
Defined.

(** ** Opening the editor on a new record *)

(** X15. Opened for a new record (a falsy name) before any code node is
    in the document, initialisation returns: the display name is the
    empty string, the fetched records are stored as fetched and never
    visited (the pool of tags and [this.metadata] are untouched), and the
    calls made are [serverError] when the schema request was rejected and
    then one [update]. *)
Theorem initializeMetadata_new_record (service : MetadataService)
  (w : MetadataEditor) (records : list MetadataDef) :
  truthyStr (name w) = None ->
  codeNode w = false ->
  getMetadata service (namespace w) = Resolved records ->
  exists w',
    initializeMetadata service w = (Ok tt, w') /\
    displayName w' = VStr "" /\
    metadata w' = metadata w /\ allTags w' = allTags w /\
    allMetadata w' = locsOf (length (store w)) records /\
    store w' = store w ++ layout id (length (store w)) records /\
    log w' =
      log w
      ++ match getSchema service (namespace w) with
         | Resolved _ => []
         | Rejected => [ServerError]
         end
      ++ [Update].
Proof.
  intros Hn Hc Hg. rewrite initializeMetadata_parts.
  pose proof (initSchema_run service w) as H1.
  assert (forall w1,
            initSchema service w = (Ok tt, w1) ->
            name w1 = name w -> codeNode w1 = codeNode w ->
            namespace w1 = namespace w ->
            exists w',
              (initSchema service ;;; initRecords service ;;; initSeed ;;;
               onInitializedMetadata ;;; emit Update) w = (Ok tt, w') /\
              displayName w' = VStr "" /\
              metadata w' = metadata w1 /\ allTags w' = allTags w1 /\
              allMetadata w' = locsOf (length (store w1)) records /\
              store w' = store w1 ++ layout id (length (store w1)) records /\
              log w' = log w1 ++ [Update]) as Hrest.
  { intros w1 Hrun Hn1 Hc1 Hns1. rewrite (bind_ok _ _ _ _ _ Hrun).
    unfold initRecords.
    erewrite bind_ok by (apply loadRecords_run; rewrite Hns1; exact Hg).
    unfold initSeed, onInitializedMetadata. js_unfold. cbn.
    rewrite Hn1, Hn. cbn. rewrite Hc1, Hc.
    destruct (editor w1); cbn; eexists; (split; [reflexivity|]);
      cbn; repeat split. }
  destruct (getSchema service (namespace w)) as [schemas|] eqn:Hs.
  - pose proof (selectSchema_run schemas w) as Hsel.
    destruct (List.find _ schemas) as [s|].
    + destruct Hsel as (cats & Hsel & _). rewrite Hsel in H1.
      destruct (Hrest _ H1) as (w' & Hrun & Hr); try reflexivity.
      exists w'. split; [exact Hrun|]. exact Hr.
    + rewrite Hsel in H1.
      destruct (Hrest _ H1) as (w' & Hrun & Hr); try reflexivity.
      exists w'. split; [exact Hrun|]. exact Hr.
  - destruct (Hrest _ H1) as (w' & Hrun & Hr); try reflexivity.
    exists w'. split; [exact Hrun|].
    destruct Hr as (a & b & c & d & e & f).
    repeat split; auto. rewrite f. cbn. now rewrite <- app_assoc.
Qed.

Lemma initializeMetadata_new_record_witness :
  exists w',
    initializeMetadata
      (Example.service [Example.snippetSchema] Example.snippets)
      (construct (Example.props "code-snippet" "code-snippets" None) false)
    = (Ok tt, w') /\
    displayName w' = VStr "" /\
    metadata w' = 0 /\ allTags w' = [] /\
    allMetadata w' = locsOf 1 Example.snippets /\
    store w' = [ODict ∅] ++ layout id 1 Example.snippets /\
    log w' = [] ++ [] ++ [Update].
Proof.
  apply (initializeMetadata_new_record
           (Example.service [Example.snippetSchema] Example.snippets)
           (construct (Example.props "code-snippet" "code-snippets" None) false)
           Example.snippets);
    reflexivity.
Defined.

(** ** Opening the editor on an existing record *)

(** One turn of the loop over the records, for an editor named [n]: the
    record's tags are seeded, and the record is taken as the one under
    edit exactly when its name is [n]. *)
Lemma seedFrom_step pre md n' dn rest w n :
  name w = Some n ->
  store w = pre ++ ODict md :: ORecord n' dn (length pre) :: rest ->
  tagsIterable md ->
  exists w',
    seedFrom (S (length pre)) w = (Ok tt, w') /\
    name w' = Some n /\
    store w' = pre ++ ODict (seeded md) :: ORecord n' dn (length pre) :: rest /\
    if String.eqb n' n
    then metadata w' = length pre /\ displayName w' = dn /\ titleLabel w' = dn
    else metadata w' = metadata w /\ displayName w' = displayName w /\
         titleLabel w' = titleLabel w.
Proof.
  intros Hn Hs Hit.
  assert (store w !! S (length pre) = Some (ORecord n' dn (length pre))) as H1
    by (rewrite Hs; apply lookup_second).
  assert (store w !! length pre = Some (ODict md)) as H0
    by (rewrite Hs; now apply list_lookup_middle).
  assert (bool_decide (Some n = Some n') = String.eqb n' n) as Hdec.
  { destruct (String.eqb_spec n' n) as [->|Hne].
    - now apply bool_decide_eq_true.
    - apply bool_decide_eq_false. intros [= ->]. now apply Hne. }
  unfold seedFrom, readRecord, readDict, writeDict, seeded.
  unfold tagsIterable in Hit. js_unfold. cbn beta. rewrite H1. cbn.
  rewrite H0. cbn.
  destruct (Js.truthy (dictGet md "tags")) eqn:Ht.
  - destruct (Hit eq_refl) as [tags ->]. cbn [forOf].
    rewrite forEach_addTag. cbn. rewrite Hn, Hdec.
    destruct (String.eqb n' n); cbn;
      (eexists; split; [reflexivity|]; cbn; repeat split; auto).
  - cbn. rewrite Hn, Hdec.
    destruct (String.eqb n' n); cbn;
      (eexists; split; [reflexivity|]; cbn; rewrite Hs, insert_first;
       repeat split; auto).
Qed.

Lemma layout_snoc_pre pre (a b : object) rest :
  pre ++ a :: b :: rest = (pre ++ [a; b]) ++ rest.
Proof. now rewrite <- app_assoc. Qed.

(** The loop over records none of which has the editor's name. *)
Lemma forEach_seedFrom_misses records :
  forall pre w n,
    name w = Some n ->
    store w = pre ++ layout id (length pre) records ->
    Forall (fun r => tagsIterable (md_metadata r)) records ->
    Forall (fun r => md_name r <> n) records ->
    exists w',
      forEach (locsOf (length pre) records) seedFrom w = (Ok tt, w') /\
      store w' = pre ++ layout seeded (length pre) records /\
      metadata w' = metadata w /\ displayName w' = displayName w /\
      titleLabel w' = titleLabel w.
Proof.
  induction records as [|r records IH]; intros pre w n Hn Hs Hit Hne.
  - exists w. cbn in *. auto.
  - apply Forall_cons in Hit as [Hr Hit]. apply Forall_cons in Hne as [Hr' Hne].
    cbn [layout locsOf id] in *.
    destruct (seedFrom_step _ _ _ _ _ _ _ Hn Hs Hr)
      as (w1 & Hrun1 & Hn1 & Hs1 & Hm1).
    apply String.eqb_neq in Hr'. rewrite Hr' in Hm1.
    destruct Hm1 as (a1 & b1 & c1).
    set (pre' := pre ++ [ODict (seeded (md_metadata r));
                         ORecord (md_name r) (md_display_name r) (length pre)]).
    assert (length pre' = S (S (length pre))) as Hlen
      by (subst pre'; rewrite length_app; cbn; lia).
    destruct (IH pre' w1 n Hn1) as (w' & Hrun & Hs' & a & b & c); auto.
    { rewrite Hs1, Hlen. apply layout_snoc_pre. }
    rewrite Hlen in *. exists w'. split; [|split].
    + cbn [forEach]. now rewrite (bind_ok _ _ _ _ _ Hrun1).
    + rewrite Hs'. subst pre'. now rewrite <- app_assoc.
    + repeat split; congruence.
Qed.

(** The loop over records the last of which to have the editor's name is
    [r]: [this.metadata] ends as the dictionary of [r]. *)
Lemma forEach_seedFrom_finds before :
  forall pre w n r after,
    name w = Some n ->
    store w = pre ++ layout id (length pre) (before ++ r :: after) ->
    Forall (fun r => tagsIterable (md_metadata r)) (before ++ r :: after) ->
    md_name r = n ->
    Forall (fun r' => md_name r' <> n) after ->
    exists w',
      forEach (locsOf (length pre) (before ++ r :: after)) seedFrom w
      = (Ok tt, w') /\
      store w' = pre ++ layout seeded (length pre) (before ++ r :: after) /\
      metadata w' = length pre + 2 * length before /\
      displayName w' = md_display_name r /\
      titleLabel w' = md_display_name r.
Proof.
  induction before as [|b before IH]; intros pre w n r after Hn Hs Hit Hr Hne.
  - cbn [app layout locsOf id length] in *.
    apply Forall_cons in Hit as [Hr0 Hit].
    destruct (seedFrom_step _ _ _ _ _ _ _ Hn Hs Hr0)
      as (w1 & Hrun1 & Hn1 & Hs1 & Hm1).
    rewrite Hr, String.eqb_refl in Hm1. destruct Hm1 as (a1 & b1 & c1).
    set (pre' := pre ++ [ODict (seeded (md_metadata r));
                         ORecord (md_name r) (md_display_name r) (length pre)]).
    assert (length pre' = S (S (length pre))) as Hlen
      by (subst pre'; rewrite length_app; cbn; lia).
    destruct (forEach_seedFrom_misses after pre' w1 n Hn1)
      as (w' & Hrun & Hs' & a & b & c); auto.
    { rewrite Hs1, Hlen, Hr. subst pre'. rewrite Hr. apply layout_snoc_pre. }
    rewrite Hlen in *. exists w'. split; [|split].
    + cbn [forEach]. now rewrite (bind_ok _ _ _ _ _ Hrun1).
    + rewrite Hs'. subst pre'. now rewrite <- app_assoc.
    + repeat split; try congruence. rewrite a, a1. lia.
  - cbn [app layout locsOf id length] in *.
    apply Forall_cons in Hit as [Hb Hit].
    destruct (seedFrom_step _ _ _ _ _ _ _ Hn Hs Hb)
      as (w1 & Hrun1 & Hn1 & Hs1 & _).
    set (pre' := pre ++ [ODict (seeded (md_metadata b));
                         ORecord (md_name b) (md_display_name b) (length pre)]).
    assert (length pre' = S (S (length pre))) as Hlen
      by (subst pre'; rewrite length_app; cbn; lia).
    destruct (IH pre' w1 n r after Hn1) as (w' & Hrun & Hs' & a & c & d); auto.
    { rewrite Hs1, Hlen. apply layout_snoc_pre. }
    rewrite Hlen in *. exists w'. split; [|split].
    + cbn [forEach]. now rewrite (bind_ok _ _ _ _ _ Hrun1).
    + rewrite Hs'. subst pre'. now rewrite <- app_assoc.
    + repeat split; try congruence. rewrite a. lia.
Qed.

(** Where the objects of the record that follows [before] lie. *)
Lemma layout_at f before :
  forall base r after,
    locsOf base (before ++ r :: after) !! length before
    = Some (S (base + 2 * length before)) /\
    layout f base (before ++ r :: after) !! (2 * length before)
    = Some (ODict (f (md_metadata r))) /\
    layout f base (before ++ r :: after) !! S (2 * length before)
    = Some (ORecord (md_name r) (md_display_name r)
              (base + 2 * length before)).
Proof.
  induction before as [|b before IH]; intros base r after.
  - cbn. rewrite Nat.add_0_r. auto.
  - destruct (IH (S (S base)) r after) as (Hl & Hd & Hr).
    cbn [app length layout locsOf].
    replace (2 * S (length before)) with (S (S (2 * length before))) by lia.
    replace (base + S (S (2 * length before)))
      with (S (S base) + 2 * length before) by lia.
    auto.
Qed.

(** With a truthy name, loading the schema leaves the record alone. *)
Lemma initSchema_named (service : MetadataService) w n :
  truthyStr (name w) = Some n ->
  exists w1,
    initSchema service w = (Ok tt, w1) /\
    store w1 = store w /\ name w1 = name w /\ namespace w1 = namespace w /\
    metadata w1 = metadata w /\ displayName w1 = displayName w /\
    titleLabel w1 = titleLabel w /\ allMetadata w1 = allMetadata w.
Proof.
  intros Hn. rewrite initSchema_run.
  destruct (getSchema service (namespace w)) as [schemas|].
  - pose proof (selectSchema_run schemas w) as Hsel.
    destruct (List.find _ schemas) as [s|].
    + destruct Hsel as (cats & -> & _). eexists. split; [reflexivity|].
      cbn. rewrite Hn. auto 10.
    + rewrite Hsel. exists w. auto 10.
  - eexists. split; [reflexivity|]. cbn. auto 10.
Qed.

(** With a truthy name, what follows the loop over the records leaves
    the record and the display name alone, however it ends. *)
Lemma onInitializedMetadata_update_named w n o w' :
  truthyStr (name w) = Some n ->
  (onInitializedMetadata ;;; emit Update) w = (o, w') ->
  store w' = store w /\ allMetadata w' = allMetadata w /\
  metadata w' = metadata w /\ displayName w' = displayName w /\
  titleLabel w' = titleLabel w.
Proof.
  intros Hn. unfold bind.
  destruct (onInitializedMetadata w) as [[[]|] w4] eqn:E;
    pose proof (onInitializedMetadata_frame _ _ _ E) as Hf;
    pose proof (onInitializedMetadata_named _ _ _ _ Hn E) as (Hs & _);
    intros [= _ <-]; cbn; rewrite Hf; cbn; rewrite Hs; auto.
Qed.

(** X16. Opening the editor on the name of a fetched record makes
    [this.metadata] the very dictionary object of that record, the last
    of that name when several have it: the object is reachable from
    [allMetadata] too, its falsy tags are now the empty array, and the
    display name and the title label are the record's. *)
Theorem initializeMetadata_opens_record (service : MetadataService)
  (props : IMetadataEditorProps) (codeNode : bool) (n : string)
  (before : list MetadataDef) (r : MetadataDef) (after : list MetadataDef) :
  truthyStr (props_name props) = Some n ->
  getMetadata service (props_namespace props) = Resolved (before ++ r :: after) ->
  Forall (fun r => tagsIterable (md_metadata r)) (before ++ r :: after) ->
  md_name r = n ->
  Forall (fun r' => md_name r' <> n) after ->
  let w' := snd (initializeMetadata service (construct props codeNode)) in
  exists l,
    allMetadata w' !! length before = Some l /\
    store w' !! l = Some (ORecord n (md_display_name r) (metadata w')) /\
    store w' !! metadata w' = Some (ODict (seeded (md_metadata r))) /\
    displayName w' = md_display_name r /\
    titleLabel w' = md_display_name r.
Proof.
  intros Hn Hg Hit Hr Hne w'. subst w'. set (w0 := construct props codeNode).
  assert (name w0 = Some n) as Hname.
  { change (name w0) with (props_name props). unfold truthyStr in Hn.
    destruct (props_name props) as [s|]; [|discriminate].
    destruct (String.eqb s ""); [discriminate|]. exact Hn. }
  rewrite initializeMetadata_parts.
  destruct (initSchema_named service w0 n Hn)
    as (w1 & H1 & Hs1 & Hn1 & Hns1 & _).
  rewrite (bind_ok _ _ _ _ _ H1). unfold initRecords.
  erewrite bind_ok by (apply loadRecords_run; rewrite Hns1; exact Hg).
  set (w2 := set_allMetadata _ _).
  destruct (forEach_seedFrom_finds before (store w1) w2 n r after)
    as (w3 & H3 & Hs3 & Hm3 & Hd3 & Ht3); auto.
  { change (name w2) with (name w1). congruence. }
  assert (initSeed w2 = (Ok tt, w3)) as H3i.
  { unfold initSeed, bind, get. change (name w2) with (name w1).
    rewrite Hn1. change (name w0) with (props_name props). rewrite Hn.
    exact H3. }
  rewrite (bind_ok _ _ _ _ _ H3i).
  assert (allMetadata w3 = locsOf (length (store w1)) (before ++ r :: after))
    as Ha3.
  { destruct (forEach_seedFrom (before ++ r :: after) (store w1) w2 eq_refl Hit)
      as (w3' & H3' & Hf3 & _).
    rewrite H3 in H3'. injection H3' as <-. rewrite Hf3. reflexivity. }
  destruct ((onInitializedMetadata ;;; emit Update) w3) as [o w'] eqn:E.
  apply (onInitializedMetadata_update_named _ n) in E
    as (Hsf & Haf & Hmf & Hdf & Htf).
  2:{ destruct (forEach_seedFrom (before ++ r :: after) (store w1) w2 eq_refl Hit)
        as (w3' & H3' & Hf3 & _).
      rewrite H3 in H3'. injection H3' as <-. rewrite Hf3. cbn.
      change (name w2) with (name w1). rewrite Hn1. exact Hn. }
  cbn [snd]. rewrite Hsf, Haf, Hmf, Hdf, Htf, Hs3, Ha3, Hm3, Hd3, Ht3.
  destruct (layout_at seeded before (length (store w1)) r after)
    as (Hl & Hdict & Hrec).
  exists (S (length (store w1) + 2 * length before)).
  split; [exact Hl|]. split; [|split; [|auto]].
  - rewrite lookup_app_r by lia.
    replace (S (length (store w1) + 2 * length before) - length (store w1))
      with (S (2 * length before)) by lia.
    rewrite Hrec, Hr. reflexivity.
  - rewrite lookup_app_r by lia.
    replace (length (store w1) + 2 * length before - length (store w1))
      with (2 * length before) by lia.
    exact Hdict.
Qed.

Lemma initializeMetadata_opens_record_witness :
  let w' := Example.editThree in
  exists l,
    allMetadata w' !! 2 = Some l /\
    store w' !! l = Some (ORecord "three" (VStr "Three") (metadata w')) /\
    store w' !! metadata w' =
      Some (ODict (seeded (<["language" := VStr "Python"]>
                             {["tags" := VArr [VStr "b"; VStr "c"]]}))) /\
    displayName w' = VStr "Three" /\
    titleLabel w' = VStr "Three".
Proof.
  refine (initializeMetadata_opens_record
           (Example.service [Example.snippetSchema] Example.snippets)
           (Example.props "code-snippet" "code-snippets" (Some "three"))
           false "three"
           [mkMetadataDef "one" (VStr "One") {["language" := VStr "X"]};
            mkMetadataDef "two" (VStr "Two")
              (<["language" := VStr "y"]>
                 {["tags" := VArr [VStr "a"; VStr "b"]]})]
           (mkMetadataDef "three" (VStr "Three")
              (<["language" := VStr "Python"]>
                 {["tags" := VArr [VStr "b"; VStr "c"]]}))
           [] _ _ _ _ _).
  - reflexivity.
  - reflexivity.
  - repeat constructor; intros H; vm_compute in H; try discriminate;
      eexists; vm_compute; reflexivity.
  - reflexivity.
  - constructor.
Defined.



(** ** The code editor *)

(** When [onInitializedMetadata] returns, the editor is there unless the
    code node is not in the document. *)
Lemma onInitializedMetadata_editor w w1 :
  onInitializedMetadata w = (Ok tt, w1) ->
  is_Some (editor w1) \/ (codeNode w = false /\ editor w1 = None).
Proof.
  unfold onInitializedMetadata, readDict, writeDict, joinLines. js_unfold.
  destruct (editor w) eqn:He; [intros [= <-]; left; rewrite He; eauto|].
  destruct (codeNode w) eqn:Hc; cbn beta; [|intros [= <-]; right; auto].
  destruct (editorServices w); cbn beta; [|discriminate].
  destruct (store w !! metadata w) as [[|md]|] eqn:Hmd;
    try (destruct (truthyStr (name w)); [|destruct (code w)]; cbn;
         rewrite ?Hmd; cbn;
         (discriminate || (intros [= <-]; left; cbn; eauto))).
  destruct (truthyStr (name w)); [|destruct (code w)]; cbn; rewrite ?Hmd; cbn.
  - destruct (dictGet md "code"); cbn; rewrite ?Hmd; cbn;
      (discriminate || (intros [= <-]; left; cbn; eauto)).
  - rewrite list_lookup_insert_eq by (eapply lookup_lt_Some; eauto).
    cbn. intros [= <-]. left. cbn. eauto.
  - intros [= <-]. left. cbn. eauto.
Qed.

(** X18. [onInitializedMetadata] makes the code editor at most once: when
    a call has returned, the editor exists if the code node was in the
    document, and a further call returns having changed nothing (the code
    of the record is not written again, the editor is not replaced). *)
Theorem onInitializedMetadata_once (w w1 : MetadataEditor) :
  onInitializedMetadata w = (Ok tt, w1) ->
  (codeNode w = true -> is_Some (editor w1)) /\
  onInitializedMetadata w1 = (Ok tt, w1).
Proof.
  intros H. pose proof (onInitializedMetadata_frame _ _ _ H) as Hf.
  assert (codeNode w1 = codeNode w) as Hc by (rewrite Hf; reflexivity).
  destruct (onInitializedMetadata_editor _ _ H) as [[ed He]|[Hno He]].
  - split; [eauto|]. unfold onInitializedMetadata, bind, get.
    now rewrite He.
  - split; [congruence|]. unfold onInitializedMetadata, bind, get.
    now rewrite He, Hc, Hno.
Qed.

Lemma onInitializedMetadata_once_witness :
  let w := construct
             (mkProps "code-snippet" "code-snippets" None
                (Some ["print(1)"; "print(2)"])
                (Some (fun _ => "text/x-python")) (mkStatus 0 0))
             true in
  (codeNode w = true -> is_Some (editor (snd (onInitializedMetadata w)))) /\
  onInitializedMetadata (snd (onInitializedMetadata w))
  = (Ok tt, snd (onInitializedMetadata w)).
Proof.
  refine (onInitializedMetadata_once _ _ _). vm_compute. reflexivity.
Defined.





(** ** Closing *)

Lemma trackerState_dirty w : trackerState w = Some true -> dirty w = Some true.
Proof.
  unfold trackerState.
  destruct (dirty w) as [[]|], (clearDirty w),
    (Js.includes (titleClassName w) DIRTY_CLASS); congruence.
Qed.

(** X20. After any edit made through a handler the editor does not close
    at once: [onCloseRequest] shows the dialog, quoting the display name
    as it then is, and disposes of the widget only when the answer is to
    accept.  This holds even when the handler threw after marking the
    editor dirty. *)
Theorem onCloseRequest_after_edit (w : MetadataEditor) (accept : bool) :
  let asks w' :=
    onCloseRequest accept w' =
    ShowDialog "Close without saving?" (displayName w')
    :: (if accept then [DisposeWidget; SuperOnCloseRequest] else []) in
  (forall v f, asks (snd (handleTextInputChange v f w))) /\
  (forall f v, asks (snd (handleDropdownChange f v w))) /\
  (forall sel pool, asks (snd (handleChangeOnTag sel pool w))).
Proof.
  pose proof (handleDirtyState_enters_dirty w) as Hd.
  destruct (handleDirtyState_frame true w) as (w1 & Hrun & _).
  rewrite Hrun in Hd. cbn in Hd. apply trackerState_dirty in Hd.
  assert (forall w', dirty w' = Some true ->
            onCloseRequest accept w' =
            ShowDialog "Close without saving?" (displayName w')
            :: (if accept then [DisposeWidget; SuperOnCloseRequest] else []))
    as Hask by (intros w' H; unfold onCloseRequest; now rewrite H).
  cbv zeta. repeat split.
  - intros v f. apply Hask. unfold handleTextInputChange.
    rewrite (bind_ok _ _ _ _ _ Hrun).
    unfold requiredIncludes, readDict, writeDict. js_unfold.
    destruct (String.eqb f "display_name"); cbn; [exact Hd|].
    destruct (Js.truthy v); cbn;
      [|destruct (requiredFields w1); cbn; [|exact Hd];
        destruct (negb _)];
      destruct (store w1 !! metadata w1) as [[|md]|]; cbn; exact Hd.
  - intros f v. apply Hask. unfold handleDropdownChange.
    rewrite (bind_ok _ _ _ _ _ Hrun).
    unfold readDict, writeDict. js_unfold.
    destruct (store w1 !! metadata w1) as [[|md]|]; cbn; try exact Hd.
    destruct (String.eqb f "language"); cbn; [|exact Hd].
    destruct (editorServices w1), (editor w1); cbn; exact Hd.
  - intros sel pool. apply Hask. unfold handleChangeOnTag.
    rewrite (bind_ok _ _ _ _ _ Hrun).
    unfold readDict, writeDict. js_unfold.
    destruct (store w1 !! metadata w1) as [[|md]|]; cbn; exact Hd.
Qed.

(** Loading the schema leaves the tracker alone. *)
Lemma initSchema_dirty (service : MetadataService) w :
  exists w1,
    initSchema service w = (Ok tt, w1) /\ dirty w1 = dirty w /\
    clearDirty w1 = clearDirty w /\ titleClassName w1 = titleClassName w /\
    status w1 = status w.
Proof.
  rewrite initSchema_run.
  destruct (getSchema service (namespace w)) as [schemas|].
  - pose proof (selectSchema_run schemas w) as Hsel.
    destruct (List.find _ schemas) as [s|].
    + destruct Hsel as (cats & -> & _). eexists. repeat split.
    + rewrite Hsel. exists w. auto.
  - eexists. repeat split.
Qed.

(** X21. Only an acknowledged save stops the question.  An editor that
    has just been initialised closes at once, and so does one whose save
    has been acknowledged; validation, the sending of a save and the
    rejection of a save leave the answer of [onCloseRequest] as it was. *)
Theorem onCloseRequest_until_saved (service : MetadataService)
  (props : IMetadataEditorProps) (codeNode : bool) (w : MetadataEditor)
  (accept : bool) :
  onCloseRequest accept
    (snd (initializeMetadata service (construct props codeNode)))
  = [DisposeWidget; SuperOnCloseRequest] /\
  onCloseRequest accept (snd (saveResolved w))
  = [DisposeWidget; SuperOnCloseRequest] /\
  onCloseRequest accept (snd (hasInvalidFields w)) = onCloseRequest accept w /\
  onCloseRequest accept (snd (saveMetadata w)) = onCloseRequest accept w /\
  onCloseRequest accept (snd (saveRejected w)) = onCloseRequest accept w.
Proof.
  assert (forall w1 o w2, hasInvalidFields w1 = (o, w2) ->
            onCloseRequest accept w2 = onCloseRequest accept w1) as Hval.
  { intros w1 o w2 E. apply hasInvalidFields_frame in E. rewrite E.
    reflexivity. }
  split; [|split; [|split; [|split]]].
  - set (w0 := construct props codeNode).
    destruct (initSchema_dirty service w0) as (w1 & H1 & Hd1 & _).
    rewrite initializeMetadata_parts, (bind_ok _ _ _ _ _ H1).
    destruct ((initRecords service ;;; initSeed ;;; onInitializedMetadata ;;;
               emit Update) w1) as [o w'] eqn:E.
    apply keepsSchema_after_schema in E
      as (_ & _ & _ & _ & _ & _ & _ & _ & _ & _ & Hd & _).
    cbn [snd]. unfold onCloseRequest. rewrite Hd, Hd1. reflexivity.
  - unfold saveResolved, handleDirtyState, dispose, onCloseRequest. js_unfold.
    cbn. destruct (clearDirty w); reflexivity.
  - destruct (hasInvalidFields w) as [o w1] eqn:E. eapply Hval, E.
  - unfold saveMetadata, bind, get.
    destruct (hasInvalidFields w) as [[[]|] w1] eqn:E;
      pose proof (Hval _ _ _ E) as H; cbn; try exact H.
    unfold readDict. destruct (store w1 !! metadata w); [destruct o|];
      cbn; try exact H.
    destruct (truthyStr (name w)); cbn; exact H.
  - reflexivity.
Qed.

(** ** Rendering the form *)

Lemma renderFrame_refl w : renderFrame w w.
Proof. split; [now destruct w|]. auto. Qed.

Lemma renderFrame_trans w1 w2 w3 :
  renderFrame w1 w2 -> renderFrame w2 w3 -> renderFrame w1 w3.
Proof.
  intros (a & b & c) (a' & b' & c').
  split; [rewrite a', a; reflexivity|]. split; [congruence|]. auto.
Qed.

(** [renderField] leaves the field it rendered with [uihints], and the
    fields that had them as they were. *)
Lemma renderField_frame f w o w' :
  renderField f w = (o, w') ->
  renderFrame w w' /\
  (forall e, o = Ok e ->
     exists fd, schemaGet (schema w') f = Some fd /\ is_Some (f_uihints fd)).
Proof.
  intros H. destruct (schemaGet (schema w) f) as [fd|] eqn:Hfd.
  - pose proof (renderField_installs w f fd Hfd) as Hs.
    rewrite H in Hs. cbn in Hs. subst w'. split.
    + split; [reflexivity|]. cbn. split; [apply map_fst_schemaSet|].
      intros g gd Hg [u Hu]. rewrite schemaGet_schemaSet, Hfd.
      destruct (String.eqb_spec f g) as [<-|]; [|exact Hg].
      rewrite Hfd in Hg. injection Hg as <-. rewrite Hu. cbn. f_equal.
      destruct fd; cbn in *; now subst.
    + intros e _. cbn. rewrite schemaGet_schemaSet, String.eqb_refl, Hfd.
      eexists. split; [reflexivity|]. cbn. eauto.
  - unfold renderField, schemaEntry in H. js_unfold. rewrite Hfd in H.
    cbn in H. injection H as <- <-. split; [apply renderFrame_refl|].
    discriminate.
Qed.

Lemma renderProperties_run props :
  forall items w items' w',
    renderProperties items props w = (Ok items', w') ->
    renderFrame w w' /\
    forall p, In p props ->
      exists fd, schemaGet (schema w') p = Some fd /\ is_Some (f_uihints fd).
Proof.
  induction props as [|p props IH]; intros items w items' w' H;
    cbn [renderProperties] in H.
  - unfold ret in H. injection H as _ <-.
    split; [apply renderFrame_refl|]. intros p [].
  - apply bind_inv_ok in H as (e & w1 & Hp & Hrest).
    destruct (renderField_frame _ _ _ _ Hp) as (Hf1 & Hh1).
    destruct (IH _ _ _ _ Hrest) as (Hf & Hh).
    split; [eapply renderFrame_trans; eauto|].
    intros q [<-|Hq]; [|auto].
    destruct (Hh1 e eq_refl) as (fd & Hfd & Hu). exists fd.
    split; [|exact Hu]. destruct Hf as (_ & _ & Hkeep). auto.
Qed.

Lemma renderCategories_run cats :
  forall items w items' w',
    renderCategories items cats w = (Ok items', w') ->
    renderFrame w w' /\
    forall p, In p (concat (map snd cats)) ->
      exists fd, schemaGet (schema w') p = Some fd /\ is_Some (f_uihints fd).
Proof.
  induction cats as [|[c props] cats IH]; intros items w items' w' H;
    cbn [renderCategories] in H.
  - unfold ret in H. injection H as _ <-.
    split; [apply renderFrame_refl|]. intros p [].
  - apply bind_inv_ok in H as (items1 & w1 & Hp & Hrest).
    destruct (renderProperties_run _ _ _ _ _ Hp) as (Hf1 & Hh1).
    destruct (IH _ _ _ _ Hrest) as (Hf & Hh).
    split; [eapply renderFrame_trans; eauto|].
    intros q Hq. cbn in Hq. apply in_app_or in Hq as [Hq|Hq]; [|auto].
    destruct (Hh1 q Hq) as (fd & Hfd & Hu). exists fd.
    split; [|exact Hu]. destruct Hf as (_ & _ & Hkeep). auto.
Qed.

(** A render that returns has gone through both loops, and builds the
    form from the state they left. *)
Lemma render_inv dm w f w' :
  render dm w = (Ok f, w') ->
  renderFrame w w' /\
  (forall p, In p (concat (map snd (schemaPropertiesByCategory w))) ->
     exists fd, schemaGet (schema w') p = Some fd /\ is_Some (f_uihints fd)) /\
  form_name f =
    (if negb (Js.isUndefined (displayName w'))
     then Some (TextInput (VStr "Name") (VStr "") "display_name"
                  (displayName w') (Some true) (VBool false)
                  (VBool (Js.eqStr (displayName w') "" && invalidForm w'))
                  VUndefined)
     else None).
Proof.
  unfold render. unfold bind at 1. unfold get at 1. intros H.
  apply bind_inv_ok in H as (items & w1 & Hc & Hret).
  unfold bind, get, ret in Hret. injection Hret as <- <-.
  destruct (renderCategories_run _ _ _ _ _ Hc) as (Hf & Hh). auto.
Qed.

(** X22. A form that has been rendered can be validated.  When every
    property of the schema is listed in the category index and the
    required list is loaded, a [render] that returns leaves every field
    with [uihints] and the record untouched, so the [hasInvalidFields]
    that follows returns instead of throwing on a missing [uihints]. *)
Theorem render_then_validate (w w1 : MetadataEditor) (dm : option bool)
  (f : form) (r : list string) (md : gmap string value) :
  requiredFields w = Some r ->
  store w !! metadata w = Some (ODict md) ->
  incl (map fst (schema w))
    (concat (map snd (schemaPropertiesByCategory w))) ->
  render dm w = (Ok f, w1) ->
  store w1 = store w /\ metadata w1 = metadata w /\
  (forall g gd, schemaGet (schema w1) g = Some gd -> is_Some (f_uihints gd)) /\
  exists invalid w2, hasInvalidFields w1 = (Ok invalid, w2).
Proof.
  intros Hr Hmd Hincl H.
  destruct (render_inv _ _ _ _ H) as ((Hw1 & Hkeys & _) & Hh & _).
  assert (store w1 = store w) as Hs by (rewrite Hw1; reflexivity).
  assert (metadata w1 = metadata w) as Hm by (rewrite Hw1; reflexivity).
  assert (requiredFields w1 = Some r) as Hr1 by (rewrite Hw1; exact Hr).
  assert (forall g gd, schemaGet (schema w1) g = Some gd ->
                       is_Some (f_uihints gd)) as Hui.
  { intros g gd Hg.
    assert (In g (map fst (schema w1))) as Hin
      by (apply schemaGet_In; rewrite Hg; eauto).
    rewrite Hkeys in Hin. apply Hincl, Hh in Hin as (fd & Hfd & Hu).
    congruence. }
  repeat split; auto.
  destruct (hasInvalidFields_run w1 r md Hr1) as (w2 & Hrun & _); auto.
  { now rewrite Hs, Hm. }
  eauto.
Qed.

Lemma render_then_validate_witness :
  exists f w1,
    render None Example.editThree = (Ok f, w1) /\
    store w1 = store Example.editThree /\
    metadata w1 = metadata Example.editThree /\
    (forall g gd, schemaGet (schema w1) g = Some gd ->
                  is_Some (f_uihints gd)) /\
    exists invalid w2, hasInvalidFields w1 = (Ok invalid, w2).
Proof.
  eexists _, _. split; [vm_compute; reflexivity|].
  eapply (render_then_validate Example.editThree _ None _ ["language"]).
  - reflexivity.
  - vm_compute. reflexivity.
  - intros p Hp. vm_compute in Hp. vm_compute. tauto.
  - vm_compute. reflexivity.
Defined.

(** Validation never takes [invalidForm] back once it has set it. *)
Lemma forEach_checkField_monotone l :
  forall w w',
    forEach l checkField w = (Ok tt, w') ->
    invalidForm w = true -> invalidForm w' = true.
Proof.
  induction l as [|k l IH]; intros w w' H Hi; cbn [forEach] in H.
  - unfold ret in H. now injection H as <-.
  - apply bind_inv_ok in H as ([] & w1 & Hk & Hrest).
    eapply IH; [exact Hrest|].
    destruct (checkField_cases _ _ _ _ Hk)
      as [(E & _)|(_ & r & md & fd & u & _ & _ & _ & _ & ->)];
      [discriminate|].
    cbn. now rewrite Hi.
Qed.

(** X23. In the form rendered after a validation that returned, the input
    of the display name is there unless the display name is undefined, and
    it carries the error flag exactly when the display name is the empty
    string.  A null display name makes the form invalid all the same: its
    input is then rendered without the flag. *)
Theorem render_flags_empty_name (w w1 w2 : MetadataEditor) (invalid : bool)
  (dm : option bool) (f : form) :
  hasInvalidFields w = (Ok invalid, w1) ->
  render dm w1 = (Ok f, w2) ->
  form_name f =
    (if Js.isUndefined (displayName w) then None
     else Some (TextInput (VStr "Name") (VStr "") "display_name"
                  (displayName w) (Some true) (VBool false)
                  (VBool (Js.eqStr (displayName w) "")) VUndefined)) /\
  (Js.isNull (displayName w) = true -> invalid = true).
Proof.
  intros Hv Hrender.
  pose proof (hasInvalidFields_frame _ _ _ Hv) as Hvf.
  apply validationFrame_fields in Hvf as (_ & _ & _ & _ & _ & _ & Hdn & _).
  rewrite hasInvalidFields_as_loop in Hv.
  apply bind_inv_ok in Hv as ([] & wl & Hloop & Hret).
  unfold bind, get, ret in Hret. injection Hret as <- <-.
  pose proof (forEach_checkField_monotone _ _ _ Hloop) as Hmono.
  cbn in Hmono.
  destruct (render_inv _ _ _ _ Hrender) as ((Hw2 & _) & _ & ->).
  assert (displayName w2 = displayName w) as -> by (rewrite Hw2; exact Hdn).
  assert (invalidForm w2 = invalidForm wl) as -> by (rewrite Hw2; reflexivity).
  split.
  - destruct (displayName w) as [| | b | x | s | l | o]; cbn; try reflexivity.
    destruct (String.eqb s "") eqn:Es; cbn; [|reflexivity].
    rewrite Hmono; [reflexivity|]. cbn. now rewrite Es.
  - intros Hnull. apply Hmono. now rewrite Hnull.
Qed.

Lemma render_flags_empty_name_witness :
  exists invalid w1 f w2,
    hasInvalidFields
      (Example.opened (Example.service [Example.runtimeSchema] [])
         (Example.props "kfp" "runtimes" None)) = (Ok invalid, w1) /\
    render None w1 = (Ok f, w2) /\
    form_name f =
      Some (TextInput (VStr "Name") (VStr "") "display_name" (VStr "")
              (Some true) (VBool false) (VBool true) VUndefined).
Proof.
  eexists _, _, _, _. split; [vm_compute; reflexivity|].
  split; [vm_compute; reflexivity|].
  refine (proj1 (render_flags_empty_name
                   (Example.opened (Example.service [Example.runtimeSchema] [])
                      (Example.props "kfp" "runtimes" None))
                   _ _ _ None _ _ _));
    vm_compute; reflexivity.
Defined.

(** ** The tracker of an editor that was never edited *)

(** X24. An editor that has just been constructed and initialised is
    Clean, whatever the service answered: its flag is still undefined, it
    holds no handle on the host's indicator and its title class is
    unmarked.  Marking it clean, as the acknowledgement of a save made
    without any edit does, assigns the flag [false] and nothing else. *)
Theorem initializeMetadata_starts_clean (service : MetadataService)
  (props : IMetadataEditorProps) (codeNode : bool) :
  let w := snd (initializeMetadata service (construct props codeNode)) in
  trackerState w = Some false /\ dirty w = None /\
  status w = props_status props /\
  handleDirtyState false w = (Ok tt, set_dirty (Some false) w).
Proof.
  set (w0 := construct props codeNode).
  destruct (initSchema_dirty service w0) as (w1 & H1 & Hd1 & Hc1 & Ht1 & Hs1).
  rewrite initializeMetadata_parts, (bind_ok _ _ _ _ _ H1).
  destruct ((initRecords service ;;; initSeed ;;; onInitializedMetadata ;;;
             emit Update) w1) as [o w'] eqn:E.
  apply keepsSchema_after_schema in E
    as (_ & _ & _ & _ & _ & _ & _ & _ & _ & _ & Hd & Hc & Ht & Hs).
  cbn [snd]. cbv zeta.
  assert (dirty w' = None) as Hdn by (rewrite Hd, Hd1; reflexivity).
  assert (clearDirty w' = None) as Hcn by (rewrite Hc, Hc1; reflexivity).
  assert (titleClassName w' = "") as Htn by (rewrite Ht, Ht1; reflexivity).
  split; [|split; [exact Hdn|split; [rewrite Hs, Hs1; reflexivity|]]].
  - unfold trackerState. now rewrite Hdn, Hcn, Htn.
  - apply handleDirtyState_first_clean; auto. now rewrite Htn.
Qed.
